(** * Squad Builder: task queue, persona manager, orchestrator, workflow engine

    A shallow embedding of the scheduling core of the Squad Builder module
    (queue.ts, persona.ts, orchestrator.ts, workflow-engine.ts) together with
    the properties stated about it.

    Conventions of the embedding.
    - A JavaScript [Map] is an insertion-ordered association list ([jsmap]):
      iteration order is observable in [getNext], [getExecutionByTaskId],
      [selectAgent] and [cleanup].
    - Wall-clock readings ([Date.now()], [new Date()]) are explicit arguments
      [now : Z] in milliseconds; an ISO timestamp string is represented by the
      millisecond value it round-trips to.  One call reads one clock value.
    - JavaScript numbers are IEEE 754 doubles ([float]) wherever their
      rounding or their special values can be observed: agent metrics and
      scores, and the numbers inside workflow values.  Attempt counts,
      priorities, progress marks and clock readings, which the code only
      ever sets to whole numbers, are [Z] or [nat]; the thresholds and
      signals of block triggers are exact fractions [Q], with [option] for a
      possible NaN.
    - Texts are well-formed Unicode texts kept as their UTF-8 bytes; case
      folding covers the ASCII letters.
    - [Array.prototype.sort] is the stable sort it is specified to be.
    - The store and the notification service are collaborators: the model
      records the requests they receive, and requests succeed.

    The first part of the file holds the embedding and the vocabulary of the
    properties, the second part the proofs. *)

From Stdlib Require Import List String Ascii ZArith QArith Lia Bool Arith.
From Stdlib Require Import Permutation Sorted DecimalString Lqa Qpower Floats.
Import ListNotations.

Close Scope Q_scope.
Local Open Scope string_scope.
Local Open Scope list_scope.

(* ================================================================== *)
(** * JavaScript strings *)
(* ================================================================== *)

Module JsString.

Fixpoint startsWith (s p : string) : bool :=
  match p with
  | EmptyString => true
  | String c p' =>
      match s with
      | EmptyString => false
      | String d s' => Ascii.eqb c d && startsWith s' p'
      end
  end.

Fixpoint includes (s sub : string) : bool :=
  startsWith s sub ||
  match s with
  | EmptyString => false
  | String _ s' => includes s' sub
  end.

Fixpoint rev_acc (s acc : string) : string :=
  match s with
  | EmptyString => acc
  | String c s' => rev_acc s' (String c acc)
  end.

Definition rev (s : string) : string := rev_acc s EmptyString.

Definition endsWith (s p : string) : bool := startsWith (rev s) (rev p).

(** [s.split(sep)] for a non-empty separator.  [skip] counts the characters
    of a matched separator still to be passed over; [cur] is the piece being
    accumulated. *)
Fixpoint split_aux (sep s : string) (skip : nat) (cur : string) : list string :=
  match s with
  | EmptyString => [cur]
  | String c s' =>
      match skip with
      | S k => split_aux sep s' k cur
      | O =>
          if startsWith s sep
          then cur :: split_aux sep s' (String.length sep - 1) EmptyString
          else split_aux sep s' 0 (cur ++ String c EmptyString)
      end
  end.

Definition split (s sep : string) : list string := split_aux sep s 0 EmptyString.

(** The replacement text of [replace] with its patterns expanded: [$$] is a
    dollar sign, [$&] the matched text, [$`] the text before the match and
    [$'] the text after it.  A string pattern captures nothing, so any other
    [$] stands for itself. *)
Fixpoint expand (rep matched before after : string) : string :=
  match rep with
  | EmptyString => EmptyString
  | String c rest =>
      if Ascii.eqb c "$"
      then
        match rest with
        | String d rest' =>
            if Ascii.eqb d "$" then String "$" (expand rest' matched before after)
            else if Ascii.eqb d "&" then matched ++ expand rest' matched before after
            else if Ascii.eqb d "`" then before ++ expand rest' matched before after
            else if Ascii.eqb d "'" then after ++ expand rest' matched before after
            else String c (expand rest matched before after)
        | EmptyString => String c EmptyString
        end
      else String c (expand rest matched before after)
  end.

(** [s.replace(pat, rep)] with a string pattern: the first occurrence only. *)
Definition replace (s pat rep : string) : string :=
  match String.index 0 pat s with
  | None => s
  | Some i =>
      let before := substring 0 i s in
      let after :=
        substring (i + String.length pat) (String.length s - (i + String.length pat)) s in
      before ++ expand rep pat before after ++ after
  end.

(** White space and line terminators, as [trim] and [Number] skip them: the
    ASCII ones, and in UTF-8 the code points U+00A0, U+1680, U+2000 to
    U+200A, U+2028, U+2029, U+202F, U+205F, U+3000 and U+FEFF. *)
Definition is_space (c : ascii) : bool :=
  let n := nat_of_ascii c in
  (n =? 32)%nat || ((9 <=? n)%nat && (n <=? 13)%nat).

Definition is_space2 (a b : ascii) : bool :=
  (nat_of_ascii a =? 194)%nat && (nat_of_ascii b =? 160)%nat.

Definition is_space3 (a b c : ascii) : bool :=
  let x := nat_of_ascii a in
  let y := nat_of_ascii b in
  let z := nat_of_ascii c in
  ((x =? 225) && (y =? 154) && (z =? 128))%nat
  || ((x =? 226) && (y =? 128)
      && (((128 <=? z) && (z <=? 138)) || (z =? 168) || (z =? 169) || (z =? 175)))%nat
  || ((x =? 226) && (y =? 129) && (z =? 159))%nat
  || ((x =? 227) && (y =? 128) && (z =? 128))%nat
  || ((x =? 239) && (y =? 187) && (z =? 191))%nat.

(** The text without the white space at its front; [two] and [three]
    recognise the white space of two and of three bytes. *)
Fixpoint trimFront (two : ascii -> ascii -> bool) (three : ascii -> ascii -> ascii -> bool)
  (s : string) : string :=
  match s with
  | EmptyString => EmptyString
  | String a s1 =>
      if is_space a then trimFront two three s1
      else
        match s1 with
        | String b s2 =>
            if two a b then trimFront two three s2
            else
              match s2 with
              | String c s3 => if three a b c then trimFront two three s3 else s
              | EmptyString => s
              end
        | EmptyString => s
        end
  end.

Definition trimStart (s : string) : string := trimFront is_space2 is_space3 s.

(** The same from the end, on the reversed text. *)
Definition trimEnd (s : string) : string :=
  rev (trimFront (fun a b => is_space2 b a) (fun a b c => is_space3 c b a) (rev s)).

Definition trim (s : string) : string := trimEnd (trimStart s).

(** A text of ASCII characters only. *)
Fixpoint isAscii (s : string) : bool :=
  match s with
  | EmptyString => true
  | String c s' => (nat_of_ascii c <? 128)%nat && isAscii s'
  end.

Definition lower (c : ascii) : ascii :=
  let n := nat_of_ascii c in
  if (65 <=? n)%nat && (n <=? 90)%nat then ascii_of_nat (n + 32) else c.

(** [s.toLowerCase()] on a text of ASCII characters.  Letters outside ASCII
    are left as they are, which is not what JavaScript does with them. *)
Fixpoint toLowerCase (s : string) : string :=
  match s with
  | EmptyString => EmptyString
  | String c s' => String (lower c) (toLowerCase s')
  end.

(** [parts.join(sep)] *)
Fixpoint join (sep : string) (parts : list string) : string :=
  match parts with
  | [] => EmptyString
  | [p] => p
  | p :: rest => p ++ sep ++ join sep rest
  end.

(** Decimal rendering of an integer, as a template literal prints it. *)
Definition ofZ (z : Z) : string := NilZero.string_of_int (Z.to_int z).

(** Truthiness of a string: non-empty. *)
Definition truthy (s : string) : bool :=
  match s with EmptyString => false | _ => true end.

Definition dquote : string := String (ascii_of_nat 34) EmptyString.
Definition squote : string := String (ascii_of_nat 39) EmptyString.
Definition newline : string := String (ascii_of_nat 10) EmptyString.

End JsString.

(* ================================================================== *)
(** * Insertion-ordered maps *)
(* ================================================================== *)

Module JsMap.

Definition jsmap (V : Type) : Type := list (string * V).

Section Ops.
Context {V : Type}.

Fixpoint get (m : jsmap V) (k : string) : option V :=
  match m with
  | [] => None
  | (k', v) :: r => if String.eqb k' k then Some v else get r k
  end.

Definition has (m : jsmap V) (k : string) : bool :=
  match get m k with Some _ => true | None => false end.

(** [m.set(k, v)]: an existing key keeps its position, a new key goes last. *)
Fixpoint set (m : jsmap V) (k : string) (v : V) : jsmap V :=
  match m with
  | [] => [(k, v)]
  | (k', v') :: r =>
      if String.eqb k' k then (k, v) :: r else (k', v') :: set r k v
  end.

Definition delete (m : jsmap V) (k : string) : jsmap V :=
  filter (fun kv => negb (String.eqb (fst kv) k)) m.

Definition keys (m : jsmap V) : list string := map fst m.
Definition values (m : jsmap V) : list V := map snd m.
Definition size (m : jsmap V) : nat := List.length m.

(** Keys of a map are pairwise distinct. *)
Definition wf (m : jsmap V) : Prop := NoDup (keys m).

End Ops.

End JsMap.

(* ================================================================== *)
(** * Stable sorting with a comparator *)
(* ================================================================== *)

(** The comparator's numeric result is represented by its sign: [Lt] for a
    negative number (first argument sorts first), [Eq] for zero, [Gt] for a
    positive number. *)
Section StableSort.
Context {A : Type}.
Variable cmp : A -> A -> comparison.

Definition notAfter (a b : A) : bool :=
  match cmp a b with Gt => false | _ => true end.

Fixpoint sort_insert (x : A) (l : list A) : list A :=
  match l with
  | [] => [x]
  | y :: ys => if notAfter x y then x :: y :: ys else y :: sort_insert x ys
  end.

Fixpoint js_sort (l : list A) : list A :=
  match l with
  | [] => []
  | x :: xs => sort_insert x (js_sort xs)
  end.

End StableSort.

(* ================================================================== *)
(** * JavaScript values *)
(* ================================================================== *)

(** Values of type [unknown] that flow through execution results, log data and
    workflow contexts: the JSON fragment of JavaScript plus [undefined].  An
    object is the list of its own properties, in the order that
    [Object.entries] and [JSON.stringify] visit them, and has
    [Object.prototype] as its prototype; an array has no other own property
    than its elements and its length. *)
#[warnings="-register-all"]
Inductive jsval : Type :=
| JUndefined
| JNull
| JBool (b : bool)
| JNum (x : float)
| JStr (s : string)
| JArr (items : list jsval)
| JObj (fields : list (string * jsval)).

(* ================================================================== *)
(** * types.ts *)
(* ================================================================== *)

Inductive TaskStatus : Type :=
| backlog | em_progresso | bloqueado | review | concluido.

Definition TaskStatus_eqb (a b : TaskStatus) : bool :=
  match a, b with
  | backlog, backlog | em_progresso, em_progresso | bloqueado, bloqueado
  | review, review | concluido, concluido => true
  | _, _ => false
  end.

Inductive MessageType : Type := resposta | pergunta | bloqueio | entrega.

Inductive AgentStatus : Type := idle | working | blocked | offline.

Definition AgentStatus_eqb (a b : AgentStatus) : bool :=
  match a, b with
  | idle, idle | working, working | blocked, blocked | offline, offline => true
  | _, _ => false
  end.

Record Task : Type := mkTask {
  task_id : string;
  task_squad_id : string;
  task_titulo : string;
  task_descricao : option string;
  task_status : TaskStatus;
  task_motivo_bloqueio : option string;
  task_assigned_agent_id : option string;
  task_priority : option Z
}.

Record AgentRules : Type := mkAgentRules {
  allowedTaskTypes : option (list string);
  forbiddenActions : option (list string);
  mustAskBefore : option (list string);
  autoComplete : option bool;
  maxTasksPerDay : option Z
}.

Record AgentLimiters : Type := mkAgentLimiters {
  maxTokensPerTask : option Z;
  maxApiCallsPerTask : option Z;
  maxDurationMinutes : option Z;
  cooldownMinutes : option Z;
  lim_maxRetries : option Z
}.

Record BlockTrigger : Type := mkBlockTrigger {
  condition : string;
  message : string;
  notifyChannel : option string;
  requiresApproval : option bool
}.

Record Agente : Type := mkAgente {
  agente_id : string;
  agente_squad_id : string;
  nome : string;
  tipo : option string;
  soul : option string;
  regras : option AgentRules;
  limitadores : option AgentLimiters;
  gatilhos_bloqueio : option (list BlockTrigger);
  ativo : bool
}.

Record AgentMetrics : Type := mkAgentMetrics {
  tasksCompleted : float;
  tasksFailed : float;
  tasksBlocked : float;
  averageTaskDuration : float;
  tokensUsed : float
}.

Record AgentInstance : Type := mkAgentInstance {
  inst_id : string;
  agente : Agente;
  inst_status : AgentStatus;
  currentTask : option Task;
  lastActivity : option Z;
  metrics : AgentMetrics
}.

Inductive ExecStatus : Type :=
| ex_pending | ex_running | ex_completed | ex_failed | ex_blocked.

Definition ExecStatus_eqb (a b : ExecStatus) : bool :=
  match a, b with
  | ex_pending, ex_pending | ex_running, ex_running
  | ex_completed, ex_completed | ex_failed, ex_failed
  | ex_blocked, ex_blocked => true
  | _, _ => false
  end.

Inductive LogLevel : Type := lvl_info | lvl_warn | lvl_error | lvl_debug.

Record ExecutionLog : Type := mkExecutionLog {
  log_timestamp : Z;
  log_level : LogLevel;
  log_message : string;
  log_data : option jsval
}.

Record TaskExecution : Type := mkTaskExecution {
  exec_id : string;
  exec_taskId : string;
  exec_agentId : string;
  exec_status : ExecStatus;
  exec_progress : Z;
  exec_logs : list ExecutionLog;
  exec_result : option jsval;
  exec_error : option string;
  startedAt : Z;
  completedAt : option Z
}.

Record TaskProgress : Type := mkTaskProgress {
  tp_taskId : string;
  tp_agentId : string;
  tp_status : ExecStatus;
  tp_progress : Z;
  tp_message : option string;
  tp_timestamp : Z
}.

Record ExecuteTaskRequest : Type := mkExecuteTaskRequest {
  req_taskId : string;
  req_agentId : option string;
  req_priority : option Z;
  req_context : option (list (string * jsval))
}.

Record ExecuteTaskResponse : Type := mkExecuteTaskResponse {
  resp_executionId : string;
  resp_taskId : string;
  resp_agentId : string;
  resp_status : ExecStatus
}.

(* ================================================================== *)
(** * queue.ts *)
(* ================================================================== *)

Module Queue.
Import JsMap.

Record QueuedTask : Type := mkQueuedTask {
  qt_task : Task;
  qt_priority : Z;
  queuedAt : Z;
  attempts : nat;
  lastAttempt : option Z
}.

Record ExecutionState : Type := mkExecutionState {
  execution : TaskExecution;
  logs : list ExecutionLog;
  startTime : Z
}.

Record TaskQueue : Type := mkTaskQueue {
  queue : jsmap QueuedTask;
  executions : jsmap ExecutionState;
  maxRetries : nat;
  retryDelayMs : Z
}.

(** [new TaskQueue(options)] *)
Definition create (optMaxRetries : option nat) (optRetryDelayMs : option Z) : TaskQueue :=
  {| queue := [];
     executions := [];
     maxRetries := match optMaxRetries with Some n => n | None => 3%nat end;
     retryDelayMs := match optRetryDelayMs with Some d => d | None => 5000%Z end |}.

Definition with_queue (q : TaskQueue) (m : jsmap QueuedTask) : TaskQueue :=
  {| queue := m; executions := executions q;
     maxRetries := maxRetries q; retryDelayMs := retryDelayMs q |}.

Definition with_executions (q : TaskQueue) (m : jsmap ExecutionState) : TaskQueue :=
  {| queue := queue q; executions := m;
     maxRetries := maxRetries q; retryDelayMs := retryDelayMs q |}.

(** [priority ?? task.priority ?? 0] *)
Definition effectivePriority (task : Task) (priority : option Z) : Z :=
  match priority with
  | Some p => p
  | None => match task_priority task with Some p => p | None => 0%Z end
  end.

Definition enqueue (q : TaskQueue) (now : Z) (task : Task) (priority : option Z)
  : TaskQueue :=
  let queuedTask :=
    {| qt_task := task;
       qt_priority := effectivePriority task priority;
       queuedAt := now;
       attempts := 0;
       lastAttempt := None |} in
  with_queue q (set (queue q) (task_id task) queuedTask).

Definition dequeue (q : TaskQueue) (taskId : string) : TaskQueue * option Task :=
  match get (queue q) taskId with
  | Some queuedTask => (with_queue q (delete (queue q) taskId), Some (qt_task queuedTask))
  | None => (q, None)
  end.

(** The comparator of [getNext]: higher priority first, then older first. *)
Definition compareQueued (a b : QueuedTask) : comparison :=
  if negb (qt_priority b =? qt_priority a)%Z
  then (qt_priority b - qt_priority a ?= 0)%Z
  else (queuedAt a - queuedAt b ?= 0)%Z.

(** The callback of [sorted.find] in [getNext]. *)
Definition retryReady (retryDelay now : Z) (qt : QueuedTask) : bool :=
  if (attempts qt =? 0)%nat then true
  else match lastAttempt qt with
       | None => true
       | Some la => (now - la >=? retryDelay)%Z
       end.

Definition getNext (q : TaskQueue) (now : Z) : option Task :=
  if (size (queue q) =? 0)%nat then None
  else
    let sorted := js_sort compareQueued (values (queue q)) in
    match sorted with
    | next :: _ =>
        match (0 <? attempts next)%nat, lastAttempt next with
        | true, Some la =>
            let timeSinceLastAttempt := (now - la)%Z in
            if (timeSinceLastAttempt <? retryDelayMs q)%Z
            then option_map qt_task (find (retryReady (retryDelayMs q) now) sorted)
            else Some (qt_task next)
        | _, _ => Some (qt_task next)
        end
    | [] => None
    end.

(** The comparator of [getAll]: priority only. *)
Definition comparePriority (a b : QueuedTask) : comparison :=
  (qt_priority b - qt_priority a ?= 0)%Z.

Definition getAll (q : TaskQueue) : list Task :=
  map qt_task (js_sort comparePriority (values (queue q))).

Definition size (q : TaskQueue) : nat := JsMap.size (queue q).

Definition has (q : TaskQueue) (taskId : string) : bool := JsMap.has (queue q) taskId.

Definition updatePriority (q : TaskQueue) (taskId : string) (priority : Z)
  : TaskQueue * bool :=
  match get (queue q) taskId with
  | Some qt =>
      (with_queue q (set (queue q) taskId
         {| qt_task := qt_task qt; qt_priority := priority; queuedAt := queuedAt qt;
            attempts := attempts qt; lastAttempt := lastAttempt qt |}), true)
  | None => (q, false)
  end.

Definition markAttempt (q : TaskQueue) (now : Z) (taskId : string) : TaskQueue :=
  match get (queue q) taskId with
  | Some qt =>
      with_queue q (set (queue q) taskId
        {| qt_task := qt_task qt; qt_priority := qt_priority qt; queuedAt := queuedAt qt;
           attempts := S (attempts qt); lastAttempt := Some now |})
  | None => q
  end.

Definition canRetry (q : TaskQueue) (taskId : string) : bool :=
  match get (queue q) taskId with
  | None => false
  | Some qt => (attempts qt <? maxRetries q)%nat
  end.

(** Field updates on a [TaskExecution]. *)
Definition exec_set_status (e : TaskExecution) (s : ExecStatus) : TaskExecution :=
  {| exec_id := exec_id e; exec_taskId := exec_taskId e; exec_agentId := exec_agentId e;
     exec_status := s; exec_progress := exec_progress e; exec_logs := exec_logs e;
     exec_result := exec_result e; exec_error := exec_error e;
     startedAt := startedAt e; completedAt := completedAt e |}.

Definition exec_set_progress (e : TaskExecution) (p : Z) : TaskExecution :=
  {| exec_id := exec_id e; exec_taskId := exec_taskId e; exec_agentId := exec_agentId e;
     exec_status := exec_status e; exec_progress := p; exec_logs := exec_logs e;
     exec_result := exec_result e; exec_error := exec_error e;
     startedAt := startedAt e; completedAt := completedAt e |}.

Definition exec_set_logs (e : TaskExecution) (l : list ExecutionLog) : TaskExecution :=
  {| exec_id := exec_id e; exec_taskId := exec_taskId e; exec_agentId := exec_agentId e;
     exec_status := exec_status e; exec_progress := exec_progress e; exec_logs := l;
     exec_result := exec_result e; exec_error := exec_error e;
     startedAt := startedAt e; completedAt := completedAt e |}.

Definition exec_set_result (e : TaskExecution) (r : option jsval) : TaskExecution :=
  {| exec_id := exec_id e; exec_taskId := exec_taskId e; exec_agentId := exec_agentId e;
     exec_status := exec_status e; exec_progress := exec_progress e; exec_logs := exec_logs e;
     exec_result := r; exec_error := exec_error e;
     startedAt := startedAt e; completedAt := completedAt e |}.

Definition exec_set_error (e : TaskExecution) (err : string) : TaskExecution :=
  {| exec_id := exec_id e; exec_taskId := exec_taskId e; exec_agentId := exec_agentId e;
     exec_status := exec_status e; exec_progress := exec_progress e; exec_logs := exec_logs e;
     exec_result := exec_result e; exec_error := Some err;
     startedAt := startedAt e; completedAt := completedAt e |}.

Definition exec_set_completedAt (e : TaskExecution) (t : Z) : TaskExecution :=
  {| exec_id := exec_id e; exec_taskId := exec_taskId e; exec_agentId := exec_agentId e;
     exec_status := exec_status e; exec_progress := exec_progress e; exec_logs := exec_logs e;
     exec_result := exec_result e; exec_error := exec_error e;
     startedAt := startedAt e; completedAt := Some t |}.

Definition state_set_execution (st : ExecutionState) (e : TaskExecution) : ExecutionState :=
  {| execution := e; logs := logs st; startTime := startTime st |}.

Definition startExecution (q : TaskQueue) (now : Z) (taskId agentId : string)
  : TaskQueue * TaskExecution :=
  let executionId := ("exec_" ++ taskId ++ "_" ++ JsString.ofZ now)%string in
  let exec :=
    {| exec_id := executionId; exec_taskId := taskId; exec_agentId := agentId;
       exec_status := ex_running; exec_progress := 0; exec_logs := [];
       exec_result := None; exec_error := None;
       startedAt := now; completedAt := None |} in
  let q1 := with_executions q
              (set (executions q) executionId
                 {| execution := exec; logs := []; startTime := now |}) in
  (fst (dequeue q1 taskId), exec).

Definition addLog (q : TaskQueue) (now : Z) (executionId : string)
  (level : LogLevel) (msg : string) (data : option jsval) : TaskQueue :=
  match get (executions q) executionId with
  | Some st =>
      let log := {| log_timestamp := now; log_level := level;
                    log_message := msg; log_data := data |} in
      let logs' := logs st ++ [log] in
      with_executions q
        (set (executions q) executionId
           {| execution := exec_set_logs (execution st) logs';
              logs := logs'; startTime := startTime st |})
  | None => q
  end.

(** [progress] is a whole number, as the callers pass it; the clamp
    [Math.min(100, Math.max(0, progress))] would let a NaN through. *)
Definition updateProgress (q : TaskQueue) (now : Z) (executionId : string)
  (progress : Z) (msg : option string) : TaskQueue :=
  match get (executions q) executionId with
  | Some st =>
      let q1 := with_executions q
                  (set (executions q) executionId
                     (state_set_execution st
                        (exec_set_progress (execution st)
                           (Z.min 100 (Z.max 0 progress))))) in
      match msg with
      | Some m => if JsString.truthy m then addLog q1 now executionId lvl_info m None else q1
      | None => q1
      end
  | None => q
  end.

Definition completeExecution (q : TaskQueue) (now : Z) (executionId : string)
  (result : option jsval) : TaskQueue * option TaskExecution :=
  match get (executions q) executionId with
  | Some st =>
      let e := exec_set_completedAt
                 (exec_set_result
                    (exec_set_progress (exec_set_status (execution st) ex_completed) 100)
                    result) now in
      let q1 := with_executions q
                  (set (executions q) executionId (state_set_execution st e)) in
      let q2 := addLog q1 now executionId lvl_info "Task completed successfully" None in
      (q2, option_map execution (get (executions q2) executionId))
  | None => (q, None)
  end.

Definition failExecution (q : TaskQueue) (now : Z) (executionId : string)
  (error : string) : TaskQueue * option TaskExecution :=
  match get (executions q) executionId with
  | Some st =>
      let e := exec_set_completedAt
                 (exec_set_error (exec_set_status (execution st) ex_failed) error) now in
      let q1 := with_executions q
                  (set (executions q) executionId (state_set_execution st e)) in
      let q2 := addLog q1 now executionId lvl_error ("Task failed: " ++ error)%string None in
      (q2, option_map execution (get (executions q2) executionId))
  | None => (q, None)
  end.

Definition blockExecution (q : TaskQueue) (now : Z) (executionId : string)
  (reason : string) : TaskQueue * option TaskExecution :=
  match get (executions q) executionId with
  | Some st =>
      let e := exec_set_error (exec_set_status (execution st) ex_blocked) reason in
      let q1 := with_executions q
                  (set (executions q) executionId (state_set_execution st e)) in
      let q2 := addLog q1 now executionId lvl_warn ("Task blocked: " ++ reason)%string None in
      (q2, option_map execution (get (executions q2) executionId))
  | None => (q, None)
  end.

Definition getExecution (q : TaskQueue) (executionId : string) : option TaskExecution :=
  option_map execution (get (executions q) executionId).

(** The loop of [getExecutionByTaskId] over [executions.values()]. *)
Fixpoint firstByTaskId (states : list ExecutionState) (taskId : string)
  : option TaskExecution :=
  match states with
  | [] => None
  | st :: rest =>
      if String.eqb (exec_taskId (execution st)) taskId
      then Some (execution st)
      else firstByTaskId rest taskId
  end.

Definition getExecutionByTaskId (q : TaskQueue) (taskId : string) : option TaskExecution :=
  firstByTaskId (values (executions q)) taskId.

Definition getActiveExecutions (q : TaskQueue) : list TaskExecution :=
  map execution
    (filter (fun st => ExecStatus_eqb (exec_status (execution st)) ex_running)
       (values (executions q))).

Definition getExecutionLogs (q : TaskQueue) (executionId : string) : list ExecutionLog :=
  match get (executions q) executionId with
  | Some st => logs st
  | None => []
  end.

(** The filter of [cleanup]: completed or failed. *)
Definition isFinished (kv : string * ExecutionState) : bool :=
  ExecStatus_eqb (exec_status (execution (snd kv))) ex_completed ||
  ExecStatus_eqb (exec_status (execution (snd kv))) ex_failed.

(** [new Date(completedAt!).getTime()]; an absent timestamp yields NaN. *)
Definition completedTime (kv : string * ExecutionState) : option Z :=
  completedAt (execution (snd kv)).

(** The comparator of [cleanup]: most recently completed first.  A NaN
    difference counts as zero. *)
Definition compareCompleted (a b : string * ExecutionState) : comparison :=
  match completedTime b, completedTime a with
  | Some tb, Some ta => (tb - ta ?= 0)%Z
  | _, _ => Eq
  end.

(** The deletion loop of [cleanup], from index [keepLast] on. *)
Fixpoint deleteAll (m : jsmap ExecutionState) (doomed : list (string * ExecutionState))
  (removed : nat) : jsmap ExecutionState * nat :=
  match doomed with
  | [] => (m, removed)
  | kv :: rest => deleteAll (delete m (fst kv)) rest (S removed)
  end.

Definition cleanup (q : TaskQueue) (keepLast : nat) : TaskQueue * nat :=
  let states := js_sort compareCompleted (filter isFinished (executions q)) in
  let '(m, removed) := deleteAll (executions q) (skipn keepLast states) 0 in
  (with_executions q m, removed).

(** The loop body of [syncFromTasks]; [executingTaskIds] is computed once,
    before the loop. *)
Fixpoint syncLoop (q : TaskQueue) (now : Z) (executingTaskIds : list string)
  (tasks : list Task) : TaskQueue :=
  match tasks with
  | [] => q
  | task :: rest =>
      let q' :=
        if TaskStatus_eqb (task_status task) backlog
           && negb (has q (task_id task))
           && negb (existsb (String.eqb (task_id task)) executingTaskIds)
        then enqueue q now task None
        else q in
      syncLoop q' now executingTaskIds rest
  end.

Definition syncFromTasks (q : TaskQueue) (now : Z) (tasks : list Task) : TaskQueue :=
  syncLoop q now (map exec_taskId (getActiveExecutions q)) tasks.

(** The loop of [getTasksReadyForAssignment]; the check of the agent's
    allowed task types has an empty body. *)
Fixpoint readyLoop (sorted : list Task) (limit : nat) (tasks : list Task) : list Task :=
  match sorted with
  | [] => tasks
  | task :: rest =>
      if (limit <=? List.length tasks)%nat then tasks
      else readyLoop rest limit (tasks ++ [task])
  end.

Definition getTasksReadyForAssignment (q : TaskQueue) (agent : Agente) (limit : nat)
  : list Task :=
  readyLoop (map qt_task (js_sort comparePriority (values (queue q)))) limit [].

Record Stats : Type := mkStats {
  queueSize : nat;
  activeExecutions : nat;
  completedExecutions : nat;
  failedExecutions : nat;
  blockedExecutions : nat;
  averageExecutionTime : Q
}.

Definition withStatus (s : ExecStatus) (states : list ExecutionState)
  : list ExecutionState :=
  filter (fun st => ExecStatus_eqb (exec_status (execution st)) s) states.

(** The loop of [getStats] that adds up the run times of completed executions. *)
Definition totalTime (completed : list ExecutionState) : Z :=
  fold_left
    (fun total st =>
       match completedAt (execution st) with
       | Some finish => (total + (finish - startedAt (execution st)))%Z
       | None => total
       end)
    completed 0%Z.

Definition getStats (q : TaskQueue) : Stats :=
  let states := values (executions q) in
  let completed := withStatus ex_completed states in
  let failed := withStatus ex_failed states in
  let blocked := withStatus ex_blocked states in
  let active := withStatus ex_running states in
  let averageTime :=
    if (0 <? List.length completed)%nat
    then (inject_Z (totalTime completed)
          / inject_Z (Z.of_nat (List.length completed)))%Q
    else 0%Q in
  {| queueSize := JsMap.size (queue q);
     activeExecutions := List.length active;
     completedExecutions := List.length completed;
     failedExecutions := List.length failed;
     blockedExecutions := List.length blocked;
     averageExecutionTime := averageTime |}.

End Queue.

(* ================================================================== *)
(** * Decimal literals *)
(* ================================================================== *)

Module JsNumber.

Definition is_digit (c : ascii) : bool :=
  let n := nat_of_ascii c in (48 <=? n)%nat && (n <=? 57)%nat.

Definition digit_val (c : ascii) : Z := Z.of_nat (nat_of_ascii c - 48).

(** The leading digits of [s] and what follows them. *)
Fixpoint span_digits (s : string) : list ascii * string :=
  match s with
  | EmptyString => ([], EmptyString)
  | String c s' =>
      if is_digit c
      then let '(ds, rest) := span_digits s' in (c :: ds, rest)
      else ([], s)
  end.

Definition digits_val (ds : list ascii) : Z :=
  fold_left (fun acc c => (acc * 10 + digit_val c)%Z) ds 0%Z.

(** An unsigned decimal literal at the front of [s]: digits with an optional
    fraction, or a fraction alone.  Returns its value and the rest of [s];
    [None] when [s] does not start with a literal. *)
Definition read_decimal (s : string) : option (Q * string) :=
  let '(ip, rest) := span_digits s in
  match rest with
  | String "." rest' =>
      let '(fp, rest'') := span_digits rest' in
      match ip, fp with
      | [], [] => None
      | _, _ =>
          Some (Qred (inject_Z (digits_val ip) +
                      Qmake (digits_val fp) (Pos.pow 10 (Pos.of_nat (List.length fp)))),
                rest'')
      end
  | _ =>
      match ip with
      | [] => None
      | _ => Some (inject_Z (digits_val ip), rest)
      end
  end.

(** [parseFloat(s)] on an unsigned text: the longest decimal literal at the
    front of [s], NaN ([None]) when there is none.  The texts that reach it
    in persona.ts are runs of digits and dots, or the default ['0.8']. *)
Definition parseFloat (s : string) : option Q :=
  option_map fst (read_decimal (JsString.trimStart s)).

Definition gtb (a b : Q) : bool := match (a ?= b)%Q with Gt => true | _ => false end.

End JsNumber.

(* ================================================================== *)
(** * JavaScript numbers *)
(* ================================================================== *)

(** A JavaScript number is an IEEE 754 binary64 value, the primitive
    [float]; its arithmetic rounds to nearest, ties to even. *)
Module JsDouble.
Import JsString.

Definition isNaN (x : float) : bool := negb (x =? x)%float.

(** [Number.isFinite(x)] *)
Definition isFinite (x : float) : bool :=
  match Prim2SF x with
  | S754_zero _ | S754_finite _ _ _ => true
  | _ => false
  end.

(** The real number a finite double stands for; 0 for the others. *)
Definition exact (x : float) : Q :=
  match Prim2SF x with
  | S754_finite s m e => (inject_Z (cond_Zopp s (Z.pos m)) * Qpower 2 e)%Q
  | _ => 0%Q
  end.

(** The double nearest to an integer. *)
Definition ofZ (z : Z) : float := SF2Prim (binary_normalize prec emax z 0 false).

(** The double nearest to [n / d] for [0 <= n], with the given sign. *)
Definition ofRatio (negative : bool) (n : Z) (d : positive) : float :=
  match n with
  | Z.pos p =>
      SF2Prim (SFdiv prec emax (S754_finite negative p 0) (S754_finite false d 0))
  | _ => if negative then neg_zero else zero
  end.

(** The double nearest to [n * 10 ^ e] for [0 <= n]. *)
Definition ofDecimal (negative : bool) (n e : Z) : float :=
  if (0 <=? e)%Z then ofRatio negative (n * 10 ^ e) 1
  else ofRatio negative n (Z.to_pos (10 ^ (- e))).

(** ** [Number(text)] *)

Definition digitOf (c : ascii) : option Z :=
  let n := nat_of_ascii c in
  if (48 <=? n)%nat && (n <=? 57)%nat then Some (Z.of_nat (n - 48))
  else if (97 <=? n)%nat && (n <=? 102)%nat then Some (Z.of_nat (n - 87))
  else if (65 <=? n)%nat && (n <=? 70)%nat then Some (Z.of_nat (n - 55))
  else None.

(** The value of a text made of digits of the radix only. *)
Fixpoint radixVal (radix : Z) (s : string) (acc : Z) : option Z :=
  match s with
  | EmptyString => Some acc
  | String c s' =>
      match digitOf c with
      | Some d => if (d <? radix)%Z then radixVal radix s' (acc * radix + d) else None
      | None => None
      end
  end.

(** [0x], [0o] and [0b] literals. *)
Definition radixLiteral (t : string) : option (option Z) :=
  match t with
  | String "0" (String p body) =>
      let radix :=
        if Ascii.eqb p "x" || Ascii.eqb p "X" then Some 16%Z
        else if Ascii.eqb p "o" || Ascii.eqb p "O" then Some 8%Z
        else if Ascii.eqb p "b" || Ascii.eqb p "B" then Some 2%Z
        else None in
      match radix with
      | Some r =>
          Some (match body with
                | EmptyString => None
                | _ => radixVal r body 0
                end)
      | None => None
      end
  | _ => None
  end.

(** An exponent part after its [e]: an optional sign and digits to the end
    of the text. *)
Definition exponentPart (s : string) : option Z :=
  let '(negative, body) :=
    match s with
    | String "-" r => (true, r)
    | String "+" r => (false, r)
    | _ => (false, s)
    end in
  match JsNumber.span_digits body with
  | (c :: ds, EmptyString) =>
      let e := JsNumber.digits_val (c :: ds) in Some (if negative then (- e)%Z else e)
  | _ => None
  end.

(** An unsigned decimal literal that is the whole text: the integer made of
    its digits and the power of ten that scales it. *)
Definition decimalLiteral (s : string) : option (Z * Z) :=
  let '(ip, rest) := JsNumber.span_digits s in
  let '(fp, rest) :=
    match rest with
    | String "." r => JsNumber.span_digits r
    | _ => ([], rest)
    end in
  match (ip ++ fp)%list with
  | [] => None
  | ds =>
      let n := JsNumber.digits_val ds in
      let scale := (- Z.of_nat (List.length fp))%Z in
      match rest with
      | EmptyString => Some (n, scale)
      | String c r =>
          if Ascii.eqb c "e" || Ascii.eqb c "E"
          then option_map (fun e => (n, (e + scale)%Z)) (exponentPart r)
          else None
      end
  end.

(** [Number(s)]: the text without surrounding white space must be a numeric
    literal; the empty text is 0. *)
Definition ofString (s : string) : float :=
  let t := trim s in
  match t with
  | EmptyString => zero
  | String c t' =>
      match radixLiteral t with
      | Some (Some n) => ofZ n
      | Some None => nan
      | None =>
          let '(negative, body) :=
            if Ascii.eqb c "-" then (true, t')
            else if Ascii.eqb c "+" then (false, t')
            else (false, t) in
          if String.eqb body "Infinity"
          then (if negative then neg_infinity else infinity)
          else match decimalLiteral body with
               | Some (n, e) => ofDecimal negative n e
               | None => nan
               end
      end
  end.

(** ** [String(x)] *)

Definition pow10 (p : Z) : positive := Z.to_pos (10 ^ p).

(** [x * 10 ^ p] for the fraction [x = num / den]. *)
Definition scale10 (num : Z) (den : positive) (p : Z) : Z * positive :=
  if (0 <=? p)%Z then ((num * 10 ^ p)%Z, den)
  else (num, (den * pow10 (- p))%positive).

(** [10 ^ p <= num / den] *)
Definition atLeastPow10 (num : Z) (den : positive) (p : Z) : bool :=
  let '(n, d) := scale10 num den (- p) in (Z.pos d <=? n)%Z.

(** The [n] with [10 ^ (n - 1) <= num / den < 10 ^ n], reached from an
    estimate by steps of one. *)
Fixpoint magnitude (fuel : nat) (num : Z) (den : positive) (n : Z) : Z :=
  match fuel with
  | O => n
  | S k =>
      if negb (atLeastPow10 num den (n - 1)) then magnitude k num den (n - 1)%Z
      else if atLeastPow10 num den n then magnitude k num den (n + 1)%Z
      else n
  end.

Definition digitsOf (z : Z) : list ascii := list_ascii_of_string (JsString.ofZ z).

Fixpoint dropZeros (rev_digits : list ascii) : list ascii :=
  match rev_digits with
  | c :: rest => if Ascii.eqb c "0" then dropZeros rest else rev_digits
  | [] => []
  end.

(** The decimal with [k] significant digits that reads back as [x] and is
    nearest to it, if there is one: its digits as an integer [c], standing
    for [c * 10 ^ (n - k)]. *)
Definition candidate (x : float) (num : Z) (den : positive) (n k : Z) : option Z :=
  let '(num', den') := scale10 num den (k - n) in
  let lo := (num' / Z.pos den')%Z in
  let hi := (lo + 1)%Z in
  let reads c := (ofDecimal false c (n - k) =? x)%float in
  match reads lo && (0 <? lo)%Z, reads hi with
  | true, true =>
      match (2 * num' ?= (2 * lo + 1) * Z.pos den')%Z with
      | Lt => Some lo
      | Gt => Some hi
      | Eq => Some (if Z.even lo then lo else hi)
      end
  | true, false => Some lo
  | false, true => Some hi
  | false, false => None
  end.

(** The fewest digits that read back as [x], tried from [k] on. *)
Fixpoint shortest (fuel : nat) (x : float) (num : Z) (den : positive) (n k : Z)
  : Z * Z :=
  match fuel with
  | O => ((fst (scale10 num den (k - n)) / Z.pos (snd (scale10 num den (k - n))))%Z, k)
  | S f =>
      match candidate x num den n k with
      | Some c => (c, k)
      | None => shortest f x num den n (k + 1)%Z
      end
  end.

Definition zeros (n : Z) : string := string_of_list_ascii (repeat "0"%char (Z.to_nat n)).

(** The text of a positive finite double with mantissa [m] and exponent [e]. *)
Definition positiveToString (x : float) (m : positive) (e : Z) : string :=
  let '(num, den) :=
    if (0 <=? e)%Z then ((Z.pos m * 2 ^ e)%Z, 1%positive)
    else (Z.pos m, Z.to_pos (2 ^ (- e))) in
  let estimate := ((Z.log2 num - Z.log2 (Z.pos den)) * 30103 / 100000)%Z in
  let n0 := magnitude 8 num den estimate in
  let '(c, k0) := shortest 17 x num den n0 1 in
  let all := digitsOf c in
  let n := (n0 - k0 + Z.of_nat (List.length all))%Z in
  let ds := List.rev (dropZeros (List.rev all)) in
  let k := Z.of_nat (List.length ds) in
  let text := string_of_list_ascii ds in
  if (k <=? n)%Z && (n <=? 21)%Z then (text ++ zeros (n - k))%string
  else if (0 <? n)%Z && (n <=? 21)%Z
  then (substring 0 (Z.to_nat n) text ++ "." ++
        substring (Z.to_nat n) (Z.to_nat (k - n)) text)%string
  else if (-6 <? n)%Z && (n <=? 0)%Z then ("0." ++ zeros (- n) ++ text)%string
  else
    let exponent := (n - 1)%Z in
    let tail :=
      ((if (exponent <? 0)%Z then "e-" else "e+") ++ JsString.ofZ (Z.abs exponent))%string in
    if (k =? 1)%Z then (text ++ tail)%string
    else (substring 0 1 text ++ "." ++ substring 1 (Z.to_nat (k - 1)) text ++ tail)%string.

(** [String(x)]: the shortest decimal that reads back as [x]. *)
Definition toString (x : float) : string :=
  match Prim2SF x with
  | S754_nan => "NaN"
  | S754_zero _ => "0"
  | S754_infinity s => if s then "-Infinity" else "Infinity"
  | S754_finite s m e =>
      ((if s then "-" else EmptyString) ++ positiveToString (abs x) m e)%string
  end.

End JsDouble.

(* ================================================================== *)
(** * persona.ts *)
(* ================================================================== *)

Module Persona.
Import JsString.

Record PromptContext : Type := mkPromptContext {
  taskTitle : option string;
  taskDescription : option string
}.

Record Signals : Type := mkSignals {
  uncertainty : option Q;
  requiresExternalAccess : option bool;
  isDestructive : option bool;
  estimatedCost : option Q;
  costLimit : option Q
}.

(** [xs?.length] as a condition. *)
Definition hasItems {A : Type} (xs : option (list A)) : bool :=
  match xs with Some (_ :: _) => true | _ => false end.

Definition items {A : Type} (xs : option (list A)) : list A :=
  match xs with Some l => l | None => [] end.

Definition truthyStr (s : option string) : bool :=
  match s with Some t => truthy t | None => false end.

Definition truthyNum (n : option Z) : bool :=
  match n with Some z => negb (z =? 0)%Z | None => false end.

Definition truthyBool (b : option bool) : bool :=
  match b with Some true => true | _ => false end.

Definition str (s : option string) : string :=
  match s with Some t => t | None => EmptyString end.

Definition num (n : option Z) : Z :=
  match n with Some z => z | None => 0%Z end.

(** [parts.push(s)] *)
Definition push (parts : list string) (s : string) : list string := parts ++ [s].

Definition pushIf (c : bool) (parts : list string) (s : string) : list string :=
  if c then push parts s else parts.

Definition buildSystemPrompt (agente : Agente) (context : option PromptContext) : string :=
  let parts : list string := [] in
  (* Base soul/personality *)
  let parts := pushIf (truthyStr (soul agente)) parts (str (soul agente)) in
  (* Rules section *)
  let parts :=
    match regras agente with
    | Some r =>
        let parts := push parts (newline ++ "## Rules and Guidelines")%string in
        let parts := pushIf (hasItems (allowedTaskTypes r)) parts
          ("- You are specialized in: " ++ join ", " (items (allowedTaskTypes r)))%string in
        let parts := pushIf (hasItems (forbiddenActions r)) parts
          ("- You must NEVER: " ++ join ", " (items (forbiddenActions r)))%string in
        let parts := pushIf (hasItems (mustAskBefore r)) parts
          ("- You must ASK FOR APPROVAL before: " ++ join ", " (items (mustAskBefore r)))%string in
        if truthyBool (autoComplete r)
        then push parts "- You should complete tasks autonomously when possible"
        else push parts "- You should ask for confirmation before completing tasks"
    | None => parts
    end in
  (* Limiters section *)
  let parts :=
    match limitadores agente with
    | Some l =>
        let parts := push parts (newline ++ "## Constraints")%string in
        let parts := pushIf (truthyNum (maxDurationMinutes l)) parts
          ("- Maximum task duration: " ++ ofZ (num (maxDurationMinutes l)) ++ " minutes")%string in
        pushIf (truthyNum (lim_maxRetries l)) parts
          ("- Maximum retry attempts: " ++ ofZ (num (lim_maxRetries l)))%string
    | None => parts
    end in
  (* Block triggers section *)
  let parts :=
    if hasItems (gatilhos_bloqueio agente)
    then fold_left (fun parts trigger => push parts ("- " ++ message trigger)%string)
           (items (gatilhos_bloqueio agente))
           (push parts (newline ++ "## When to Stop and Ask")%string)
    else parts in
  (* Task context *)
  let title := match context with Some c => taskTitle c | None => None end in
  let description := match context with Some c => taskDescription c | None => None end in
  let parts :=
    if truthyStr title || truthyStr description
    then
      let parts := push parts (newline ++ "## Current Task")%string in
      let parts := pushIf (truthyStr title) parts ("**Title:** " ++ str title)%string in
      pushIf (truthyStr description) parts ("**Description:** " ++ str description)%string
    else parts in
  join newline parts.

Definition canHandleTaskType (agente : Agente) (taskType : option string) : bool :=
  if negb (truthyStr taskType) then true
  else
    match regras agente with
    | Some r =>
        if negb (hasItems (allowedTaskTypes r)) then true
        else existsb (String.eqb (str taskType)) (items (allowedTaskTypes r))
    | None => true
    end.

Definition requiresApprovalFor (agente : Agente) (action : string) : bool :=
  match regras agente with
  | Some r =>
      if negb (hasItems (mustAskBefore r)) then false
      else
        let actionLower := toLowerCase action in
        existsb (fun a => includes actionLower (toLowerCase a)) (items (mustAskBefore r))
  | None => false
  end.

Definition isForbidden (agente : Agente) (action : string) : bool :=
  match regras agente with
  | Some r =>
      if negb (hasItems (forbiddenActions r)) then false
      else
        let actionLower := toLowerCase action in
        existsb (fun a => includes actionLower (toLowerCase a)) (items (forbiddenActions r))
  | None => false
  end.

Definition is_digit_or_dot (c : ascii) : bool :=
  JsNumber.is_digit c || Ascii.eqb c ".".

Fixpoint takeRun (s : string) : string :=
  match s with
  | EmptyString => EmptyString
  | String c s' => if is_digit_or_dot c then String c (takeRun s') else EmptyString
  end.

(** [s.match(/[\d.]+/)?.[0]]: the first maximal run of digits and dots. *)
Fixpoint matchNumeric (s : string) : option string :=
  match s with
  | EmptyString => None
  | String c s' => if is_digit_or_dot c then Some (takeRun s) else matchNumeric s'
  end.

(** [parseFloat(condition.match(/[\d.]+/)?.[0] || '0.8')] *)
Definition threshold (condition : string) : option Q :=
  JsNumber.parseFloat
    (match matchNumeric condition with Some m => m | None => "0.8" end).

(** [x > t] on numbers, false when [t] is NaN. *)
Definition exceeds (x : Q) (t : option Q) : bool :=
  match t with Some t' => JsNumber.gtb x t' | None => false end.

(** The loop of [checkBlockTriggers]. *)
Fixpoint scanTriggers (triggers : list BlockTrigger) (context : Signals)
  : option BlockTrigger :=
  match triggers with
  | [] => None
  | trigger :: rest =>
      let condition := toLowerCase (condition trigger) in
      if match uncertainty context with
         | Some u => includes condition "uncertainty" && exceeds u (threshold condition)
         | None => false
         end
      then Some trigger
      else if includes condition "external_access" && truthyBool (requiresExternalAccess context)
      then Some trigger
      else if includes condition "destructive" && truthyBool (isDestructive context)
      then Some trigger
      else if match estimatedCost context, costLimit context with
              | Some cost, Some limit => includes condition "cost" && JsNumber.gtb cost limit
              | _, _ => false
              end
      then Some trigger
      else scanTriggers rest context
  end.

Definition checkBlockTriggers (agente : Agente) (context : Signals) : option BlockTrigger :=
  if negb (hasItems (gatilhos_bloqueio agente)) then None
  else scanTriggers (items (gatilhos_bloqueio agente)) context.

End Persona.

(* ================================================================== *)
(** * The store and notification collaborators *)
(* ================================================================== *)

(** The store is reached over HTTP; the model keeps its task rows and the
    sequence of write requests it has received.  Requests succeed. *)
Module Store.

Inductive Write : Type :=
| AssignTask (taskId agentId : string)
| UpdateTaskStatus (taskId : string) (status : TaskStatus) (motivo : option string)
| CreateMensagem (taskId : string) (agenteId : option string) (conteudo : string)
    (tipo : MessageType).

Record t : Type := mk {
  rows : list Task;
  writes : list Write
}.

Definition getTask (s : t) (id : string) : option Task :=
  find (fun row => String.eqb (task_id row) id) (rows s).

Definition patch (f : Task -> Task) (id : string) (rows : list Task) : list Task :=
  map (fun row => if String.eqb (task_id row) id then f row else row) rows.

Definition assignTask (s : t) (taskId agentId : string) : t :=
  {| rows := patch (fun row =>
                {| task_id := task_id row; task_squad_id := task_squad_id row;
                   task_titulo := task_titulo row; task_descricao := task_descricao row;
                   task_status := em_progresso;
                   task_motivo_bloqueio := task_motivo_bloqueio row;
                   task_assigned_agent_id := Some agentId;
                   task_priority := task_priority row |}) taskId (rows s);
     writes := writes s ++ [AssignTask taskId agentId] |}.

(** The field [motivo_bloqueio] is part of the request only for a blocked
    status with a non-empty reason: set to [undefined], it is left out of
    the request body, and the row keeps the reason it has. *)
Definition updateTaskStatus (s : t) (id : string) (status : TaskStatus)
  (motivo : option string) : t :=
  {| rows := patch (fun row =>
                {| task_id := task_id row; task_squad_id := task_squad_id row;
                   task_titulo := task_titulo row; task_descricao := task_descricao row;
                   task_status := status;
                   task_motivo_bloqueio :=
                     match motivo with
                     | Some m =>
                         if TaskStatus_eqb status bloqueado && JsString.truthy m
                         then Some m
                         else task_motivo_bloqueio row
                     | None => task_motivo_bloqueio row
                     end;
                   task_assigned_agent_id := task_assigned_agent_id row;
                   task_priority := task_priority row |}) id (rows s);
     writes := writes s ++ [UpdateTaskStatus id status motivo] |}.

Definition createMensagem (s : t) (taskId : string) (agenteId : option string)
  (conteudo : string) (tipo : MessageType) : t :=
  {| rows := rows s;
     writes := writes s ++ [CreateMensagem taskId agenteId conteudo tipo] |}.

End Store.

Inductive NotificationEvent : Type :=
| task_assigned | task_started | task_blocked | task_completed
| task_unblocked | execution_error.

Record Notification : Type := mkNotification {
  notif_squad : string;
  notif_event : NotificationEvent;
  notif_task : option string;
  notif_agent : option string
}.

(* ================================================================== *)
(** * orchestrator.ts *)
(* ================================================================== *)

Module Orchestrator.
Import JsMap.

(** A run handed to [runTaskExecution].  The call runs up to its first
    [await], the request that logs the start of the work; the rest of the run
    proceeds after [executeTask] has returned its handle. *)
Record LaunchedRun : Type := mkLaunchedRun {
  run_agent : string;
  run_task : Task;
  run_execution : TaskExecution;
  run_context : option (list (string * jsval))
}.

Record t : Type := mk {
  supabase : Store.t;
  queue : Queue.TaskQueue;
  personas : jsmap Agente;
  agents : jsmap AgentInstance;
  notifications : list Notification;
  launched : list LaunchedRun;
  isRunning : bool
}.

Inductive Error : Type :=
| TaskNotFound (taskId : string)
| AgentNotFound (agentId : string)
| NoAvailableAgent.

(** The message of the thrown [Error]. *)
Definition errorMessage (e : Error) : string :=
  match e with
  | TaskNotFound taskId => "Task " ++ taskId ++ " not found"
  | AgentNotFound agentId => "Agent " ++ agentId ++ " not found or not registered"
  | NoAvailableAgent => "No available agent to handle this task"
  end%string.

Definition create (supabase : Store.t) (optMaxRetries : option nat) : t :=
  {| supabase := supabase;
     queue := Queue.create (Some (match optMaxRetries with Some n => n | None => 3%nat end)) None;
     personas := [];
     agents := [];
     notifications := [];
     launched := [];
     isRunning := false |}.

Definition registerAgent (o : t) (a : Agente) : t * AgentInstance :=
  let instance :=
    {| inst_id := agente_id a; agente := a; inst_status := idle;
       currentTask := None; lastActivity := None;
       metrics := {| tasksCompleted := 0; tasksFailed := 0; tasksBlocked := 0;
                     averageTaskDuration := 0; tokensUsed := 0 |}%float |} in
  ({| supabase := supabase o; queue := queue o;
      personas := set (personas o) (agente_id a) a;
      agents := set (agents o) (agente_id a) instance;
      notifications := notifications o; launched := launched o;
      isRunning := isRunning o |}, instance).

Definition unregisterAgent (o : t) (agentId : string) : t * bool :=
  ({| supabase := supabase o; queue := queue o;
      personas := delete (personas o) agentId;
      agents := delete (agents o) agentId;
      notifications := notifications o; launched := launched o;
      isRunning := isRunning o |}, has (agents o) agentId).

(** The filter of [selectAgent] and [getAvailableAgents]. *)
Definition isAvailable (agent : AgentInstance) : bool :=
  AgentStatus_eqb (inst_status agent) idle && ativo (agente agent).

(** The literal [0.1]: the double nearest to one tenth. *)
Definition tenth : float := 0x1.999999999999ap-4%float.

(** The score computed in [selectAgent], operation by operation. *)
Definition score (agent : AgentInstance) : float :=
  let m := metrics agent in
  let score := 0%float in
  (* Prefer agents with fewer completed tasks *)
  let score := (score - tasksCompleted m * tenth)%float in
  (* Prefer agents with lower failure rate *)
  let totalTasks := (tasksCompleted m + tasksFailed m)%float in
  let score :=
    if (0 <? totalTasks)%float
    then let successRate := (tasksCompleted m / totalTasks)%float in
         (score + successRate * 10)%float
    else score in
  (* Prefer agents with faster average task duration *)
  if (0 <? averageTaskDuration m)%float
  then (score - averageTaskDuration m / 60000)%float
  else score.

(** The comparator of [scored.sort], [b.score - a.score], by the sign that
    the sort reads off it: higher score first. *)
Definition compareScored (a b : AgentInstance * float) : comparison :=
  let v := (snd b - snd a)%float in
  if (0 <? v)%float then Gt
  else if (v <? 0)%float then Lt
  else Eq.

Definition selectAgent (agents : jsmap AgentInstance) (task : Task)
  : option AgentInstance :=
  let availableAgents := filter isAvailable (values agents) in
  if (List.length availableAgents =? 0)%nat then None
  else
    let scored := map (fun agent => (agent, score agent)) availableAgents in
    match js_sort compareScored scored with
    | best :: _ => Some (fst best)
    | [] => None
    end.

Definition getAvailableAgents (o : t) : list AgentInstance :=
  filter isAvailable (values (agents o)).

Definition task_set_priority (task : Task) (p : Z) : Task :=
  {| task_id := task_id task; task_squad_id := task_squad_id task;
     task_titulo := task_titulo task; task_descricao := task_descricao task;
     task_status := task_status task;
     task_motivo_bloqueio := task_motivo_bloqueio task;
     task_assigned_agent_id := task_assigned_agent_id task;
     task_priority := Some p |}.

(** [executeTask] up to the point where it returns its handle.  An agent id
    counts as given when it is truthy, that is, a non-empty text.  Instances
    are stored under their own id ([registerAgent] is the only writer of the
    pool), so the update of the selected instance is a [set] at that id.
    Before the handle is returned the launched run has issued its first
    store request, the message that work on the task is starting. *)
Definition executeTask (o : t) (now : Z) (request : ExecuteTaskRequest)
  : t * (Error + ExecuteTaskResponse) :=
  match Store.getTask (supabase o) (req_taskId request) with
  | None => (o, inl (TaskNotFound (req_taskId request)))
  | Some task =>
      let selection :=
        if Persona.truthyStr (req_agentId request)
        then match get (agents o) (Persona.str (req_agentId request)) with
             | Some a => inr a
             | None => inl (AgentNotFound (Persona.str (req_agentId request)))
             end
        else match selectAgent (agents o) task with
             | Some a => inr a
             | None => inl NoAvailableAgent
             end in
      match selection with
      | inl err => (o, inl err)
      | inr selectedAgent =>
          let task :=
            match req_priority request with
            | Some p => task_set_priority task p
            | None => task
            end in
          let '(queue', execution) :=
            Queue.startExecution (queue o) now (task_id task) (inst_id selectedAgent) in
          let working :=
            {| inst_id := inst_id selectedAgent; agente := agente selectedAgent;
               inst_status := working; currentTask := Some task;
               lastActivity := Some now; metrics := metrics selectedAgent |} in
          let agents' := set (agents o) (inst_id selectedAgent) working in
          let supabase' := Store.assignTask (supabase o) (task_id task) (inst_id selectedAgent) in
          let supabase' :=
            Store.createMensagem supabase' (task_id task) (Some (inst_id selectedAgent))
              ("Starting work on task: " ++ task_titulo task) resposta in
          let notifications' :=
            notifications o ++
            [{| notif_squad := task_squad_id task; notif_event := task_assigned;
                notif_task := Some (task_id task);
                notif_agent := Some (agente_id (agente selectedAgent)) |}] in
          ({| supabase := supabase'; queue := queue'; personas := personas o;
              agents := agents'; notifications := notifications';
              launched := launched o ++
                [{| run_agent := inst_id selectedAgent; run_task := task;
                    run_execution := execution; run_context := req_context request |}];
              isRunning := isRunning o |},
           inr {| resp_executionId := exec_id execution; resp_taskId := task_id task;
                  resp_agentId := inst_id selectedAgent;
                  resp_status := exec_status execution |})
      end
  end.

(** The running average kept in the metrics, computed after
    [tasksCompleted] has been incremented. *)
Definition updateAverageTaskDuration (m : AgentMetrics) (duration : float)
  : AgentMetrics :=
  {| tasksCompleted := tasksCompleted m;
     tasksFailed := tasksFailed m;
     tasksBlocked := tasksBlocked m;
     averageTaskDuration :=
       if (tasksCompleted m =? 0)%float then duration
       else ((averageTaskDuration m * (tasksCompleted m - 1) + duration)
             / tasksCompleted m)%float;
     tokensUsed := tokensUsed m |}.

Definition with_queue (o : t) (q : Queue.TaskQueue) : t :=
  {| supabase := supabase o; queue := q; personas := personas o;
     agents := agents o; notifications := notifications o;
     launched := launched o; isRunning := isRunning o |}.

(** One tick of the background loop. *)
Definition processNextTask (o : t) (now : Z) : t :=
  if (List.length (getAvailableAgents o) =? 0)%nat then o
  else
    match Queue.getNext (queue o) now with
    | None => o
    | Some task =>
        match executeTask o now
                {| req_taskId := task_id task; req_agentId := None;
                   req_priority := None; req_context := None |} with
        | (o', inr _) => o'
        | (o', inl _) =>
            if Queue.canRetry (queue o') (task_id task)
            then
              let q1 := Queue.markAttempt (queue o') now (task_id task) in
              with_queue o' (Queue.enqueue q1 now task (task_priority task))
            else o'
        end
    end.

Definition lastMessage (logs : list ExecutionLog) : option string :=
  option_map log_message (List.last (map Some logs) None).

Definition getTaskProgress (o : t) (now : Z) (taskId : string) : option TaskProgress :=
  match Queue.getExecutionByTaskId (queue o) taskId with
  | None => None
  | Some execution =>
      Some {| tp_taskId := exec_taskId execution;
              tp_agentId := exec_agentId execution;
              tp_status := exec_status execution;
              tp_progress := exec_progress execution;
              tp_message := lastMessage (exec_logs execution);
              tp_timestamp := now |}
  end.

End Orchestrator.

(* ================================================================== *)
(** * workflow-engine.ts *)
(* ================================================================== *)

Module Workflow.
Import JsString.

(** A call either returns a value or throws an [Error] with a message. *)
Inductive outcome (A : Type) : Type :=
| Returned (a : A)
| Thrown (msg : string).
Arguments Returned {A} a.
Arguments Thrown {A} msg.

Record Context : Type := mkContext {
  input : list (string * jsval);
  stepResults : list (string * jsval)
}.

Record StepResult : Type := mkStepResult {
  success : bool;
  nextStepId : option string;
  error : option string;
  output : option jsval
}.

Record ConditionConfig : Type := mkConditionConfig {
  check : string;
  trueStep : string;
  falseStep : string
}.

Inductive Channel : Type := discord | email | webhook.

Record NotifyConfig : Type := mkNotifyConfig {
  channel : Channel;
  target : option string;
  template : string;
  embed : option jsval
}.

Record WorkflowStep : Type := mkWorkflowStep {
  step_id : string;
  onSuccess : option string;
  onFailure : option string;
  onBlock : option string
}.

(** ** Values *)

Definition isNullish (v : jsval) : bool :=
  match v with JUndefined | JNull => true | _ => false end.

(** [Boolean(v)] *)
Definition truthy (v : jsval) : bool :=
  match v with
  | JUndefined | JNull => false
  | JBool b => b
  | JNum x => negb ((x =? 0)%float || JsDouble.isNaN x)
  | JStr s => JsString.truthy s
  | JArr _ | JObj _ => true
  end.

Definition hasOwn (fields : list (string * jsval)) (key : string) : bool :=
  existsb (fun kv => String.eqb (fst kv) key) fields.

(** The message of the [TypeError] thrown when an object has no method that
    converts it to a primitive value. *)
Definition conversionError : string := "Cannot convert object to primitive value".

(** [String(v)].  An object converts through its [toString] method: by
    default the inherited one, but an own property of that name hides it,
    and as the value of such a property is data, not a function, the
    conversion throws.  An array joins the texts of its elements. *)
Fixpoint toStr (v : jsval) : outcome string :=
  match v with
  | JUndefined => Returned "undefined"
  | JNull => Returned "null"
  | JBool true => Returned "true"
  | JBool false => Returned "false"
  | JNum x => Returned (JsDouble.toString x)
  | JStr s => Returned s
  | JArr items =>
      (fix joined (items : list jsval) : outcome string :=
         match items with
         | [] => Returned EmptyString
         | x :: rest =>
             match (if isNullish x then Returned EmptyString else toStr x) with
             | Thrown msg => Thrown msg
             | Returned text =>
                 match rest with
                 | [] => Returned text
                 | _ =>
                     match joined rest with
                     | Thrown msg => Thrown msg
                     | Returned others => Returned (text ++ "," ++ others)%string
                     end
                 end
             end
         end) items
  | JObj fields =>
      if hasOwn fields "toString" then Thrown conversionError
      else Returned "[object Object]"
  end.

(** [Number(v)].  An object or array converts through its text. *)
Definition toNumber (v : jsval) : outcome float :=
  match v with
  | JUndefined => Returned nan
  | JNull => Returned 0%float
  | JBool true => Returned 1%float
  | JBool false => Returned 0%float
  | JNum x => Returned x
  | JStr s => Returned (JsDouble.ofString s)
  | JArr _ | JObj _ =>
      match toStr v with
      | Thrown msg => Thrown msg
      | Returned text => Returned (JsDouble.ofString text)
      end
  end.

(** [a === b] where [b] is a primitive: an object or array on the left is
    never identical to it. *)
Definition strictEq (a b : jsval) : bool :=
  match a, b with
  | JUndefined, JUndefined => true
  | JNull, JNull => true
  | JBool x, JBool y => Bool.eqb x y
  | JNum x, JNum y => (x =? y)%float
  | JStr x, JStr y => String.eqb x y
  | _, _ => false
  end.

Definition hexDigit (n : nat) : string :=
  String (ascii_of_nat (if (n <? 10)%nat then 48 + n else 87 + n)) EmptyString.

Fixpoint escape (s : string) : string :=
  match s with
  | EmptyString => EmptyString
  | String c s' =>
      let n := nat_of_ascii c in
      (if (n =? 34)%nat then "\" ++ dquote
       else if (n =? 92)%nat then "\\"
       else if (n =? 8)%nat then "\b"
       else if (n =? 9)%nat then "\t"
       else if (n =? 10)%nat then "\n"
       else if (n =? 12)%nat then "\f"
       else if (n =? 13)%nat then "\r"
       else if (n <? 32)%nat then "\u00" ++ hexDigit (n / 16) ++ hexDigit (n mod 16)
       else String c EmptyString) ++ escape s'
  end%string.

Definition quote (s : string) : string := (dquote ++ escape s ++ dquote)%string.

(** [JSON.stringify(v)]; [None] is [undefined]. *)
Fixpoint stringify (v : jsval) : option string :=
  match v with
  | JUndefined => None
  | JNull => Some "null"
  | JBool true => Some "true"
  | JBool false => Some "false"
  | JNum x => Some (if JsDouble.isFinite x then JsDouble.toString x else "null")
  | JStr s => Some (quote s)
  | JArr items =>
      Some ("[" ++
            join "," (map (fun x => match stringify x with
                                    | Some t => t
                                    | None => "null"
                                    end) items) ++ "]")%string
  | JObj fields =>
      Some ("{" ++
            join ","
              (flat_map (fun kv => match stringify (snd kv) with
                                   | Some t => [(quote (fst kv) ++ ":" ++ t)%string]
                                   | None => []
                                   end) fields) ++ "}")%string
  end.

(** ** Variable resolution *)

Fixpoint lookup (fields : list (string * jsval)) (key : string) : jsval :=
  match fields with
  | [] => JUndefined
  | (k, v) :: rest => if String.eqb k key then v else lookup rest key
  end.

Fixpoint all_digits (s : string) : bool :=
  match s with
  | EmptyString => true
  | String c s' => JsNumber.is_digit c && all_digits s'
  end.

(** An array index as a property name: decimal digits without a leading zero. *)
Definition arrayIndex (part : string) : option nat :=
  match part with
  | EmptyString => None
  | String c rest =>
      if all_digits part && (negb (Ascii.eqb c "0") || String.eqb rest EmptyString)
      then Some (Z.to_nat (JsNumber.digits_val (list_ascii_of_string part)))
      else None
  end.

(** What a path can arrive at: a value of the context, or something that
    every object or array inherits. *)
Inductive Resolved : Type :=
| Value (v : jsval)
| BuiltinFunction
| ObjectPrototype
| ArrayPrototype.

(** The methods of [Object.prototype], and those of [Array.prototype]
    (ECMAScript 2023); both prototypes also have [constructor]. *)
Definition objectMethods : list string :=
  ["constructor"; "hasOwnProperty"; "isPrototypeOf"; "propertyIsEnumerable";
   "toLocaleString"; "toString"; "valueOf"; "__defineGetter__";
   "__defineSetter__"; "__lookupGetter__"; "__lookupSetter__"].

Definition arrayMethods : list string :=
  ["constructor"; "at"; "concat"; "copyWithin"; "entries"; "every"; "fill";
   "filter"; "find"; "findIndex"; "findLast"; "findLastIndex"; "flat";
   "flatMap"; "forEach"; "includes"; "indexOf"; "join"; "keys";
   "lastIndexOf"; "map"; "pop"; "push"; "reduce"; "reduceRight"; "reverse";
   "shift"; "slice"; "some"; "sort"; "splice"; "toLocaleString";
   "toReversed"; "toSorted"; "toSpliced"; "toString"; "unshift"; "values";
   "with"].

Definition listed (names : list string) (part : string) : bool :=
  existsb (String.eqb part) names.

(** [current[part]] where [current] is [Object.prototype] or an object
    that has no own property [part]: [proto] is what [__proto__] gives. *)
Definition fromObjectPrototype (proto : Resolved) (part : string) : Resolved :=
  if String.eqb part "__proto__" then proto
  else if listed objectMethods part then BuiltinFunction
  else Value JUndefined.

(** The same for [Array.prototype] and for an array. *)
Definition fromArrayPrototype (proto : Resolved) (part : string) : Resolved :=
  if listed arrayMethods part then BuiltinFunction
  else fromObjectPrototype proto part.

(** [current[part]] on something of type ['object']. *)
Definition getProp (current : Resolved) (part : string) : Resolved :=
  match current with
  | Value (JObj fields) =>
      if hasOwn fields part then Value (lookup fields part)
      else fromObjectPrototype ObjectPrototype part
  | Value (JArr items) =>
      if String.eqb part "length"
      then Value (JNum (JsDouble.ofZ (Z.of_nat (List.length items))))
      else
        match arrayIndex part with
        | Some i =>
            if (i <? List.length items)%nat then Value (nth i items JUndefined)
            else fromArrayPrototype ArrayPrototype part
        | None => fromArrayPrototype ArrayPrototype part
        end
  | ObjectPrototype => fromObjectPrototype (Value JNull) part
  | ArrayPrototype =>
      if String.eqb part "length" then Value (JNum 0%float)
      else fromArrayPrototype ObjectPrototype part
  | _ => Value JUndefined
  end.

(** The loop of [getNestedValue]: it goes on through what is of type
    ['object'] and not [null]. *)
Fixpoint walk (parts : list string) (current : Resolved) : Resolved :=
  match parts with
  | [] => current
  | part :: rest =>
      match current with
      | Value (JObj _) | Value (JArr _) | ObjectPrototype | ArrayPrototype =>
          walk rest (getProp current part)
      | _ => Value JUndefined
      end
  end.

Definition getNestedValue (obj : list (string * jsval)) (path : string) : Resolved :=
  walk (split path ".") (Value (JObj obj)).

Definition resolveVariable (path : string) (context : Context) : Resolved :=
  let trimmed := trim path in
  if startsWith trimmed "input."
  then getNestedValue (input context) (replace trimmed "input." EmptyString)
  else if startsWith trimmed "results."
  then getNestedValue (stepResults context) (replace trimmed "results." EmptyString)
  else
    match getNestedValue (input context) trimmed with
    | Value JUndefined => getNestedValue (stepResults context) trimmed
    | value => value
    end.

(** [s.slice(1, -1)] *)
Definition sliceInner (s : string) : string :=
  substring 1 (String.length s - 2) s.

Definition parseValue (value : string) : jsval :=
  let trimmed := trim value in
  if String.eqb trimmed "true" then JBool true
  else if String.eqb trimmed "false" then JBool false
  else if String.eqb trimmed "null" then JNull
  else
    let num := JsDouble.ofString trimmed in
    if negb (JsDouble.isNaN num) then JNum num
    else if (startsWith trimmed dquote && endsWith trimmed dquote)
            || (startsWith trimmed squote && endsWith trimmed squote)
    then JStr (sliceInner trimmed)
    else JStr trimmed.

(** ** Condition evaluation *)

Definition operators : list string :=
  ["==="; "!=="; "=="; "!="; ">="; "<="; ">"; "<"].

(** [value !== undefined && value !== null] *)
Definition exists_ (r : Resolved) : bool :=
  match r with
  | Value v => negb (isNullish v)
  | _ => true
  end.

(** [Boolean(value)] *)
Definition truthyResolved (r : Resolved) : bool :=
  match r with
  | Value v => truthy v
  | _ => true
  end.

(** [leftValue === rightValue] for a primitive on the right. *)
Definition identical (r : Resolved) (b : jsval) : bool :=
  match r with
  | Value a => strictEq a b
  | _ => false
  end.

(** [Number(leftValue)]: a function and [Object.prototype] convert through
    a text that is no number, [Array.prototype] through the empty text. *)
Definition numberOf (r : Resolved) : outcome float :=
  match r with
  | Value v => toNumber v
  | BuiltinFunction | ObjectPrototype => Returned nan
  | ArrayPrototype => Returned 0%float
  end.

(** [Number(l) rel Number(r)]: the left conversion comes first. *)
Definition compareNumbers (rel : float -> float -> bool) (l : Resolved) (r : jsval)
  : outcome bool :=
  match numberOf l with
  | Thrown msg => Thrown msg
  | Returned a =>
      match toNumber r with
      | Thrown msg => Thrown msg
      | Returned b => Returned (rel a b)
      end
  end.

(** The [switch (op)] of [evaluateCondition]; [None] when no case matches. *)
Definition applyOperator (op : string) (leftValue : Resolved) (rightValue : jsval)
  : option (outcome bool) :=
  if String.eqb op "===" || String.eqb op "=="
  then Some (Returned (identical leftValue rightValue))
  else if String.eqb op "!==" || String.eqb op "!="
  then Some (Returned (negb (identical leftValue rightValue)))
  else if String.eqb op ">"
  then Some (compareNumbers (fun a b => (b <? a)%float) leftValue rightValue)
  else if String.eqb op "<"
  then Some (compareNumbers (fun a b => (a <? b)%float) leftValue rightValue)
  else if String.eqb op ">="
  then Some (compareNumbers (fun a b => (b <=? a)%float) leftValue rightValue)
  else if String.eqb op "<="
  then Some (compareNumbers (fun a b => (a <=? b)%float) leftValue rightValue)
  else None.

(** Calling [trim] on a missing piece of a split. *)
Definition typeError : string :=
  "Cannot read properties of undefined (reading 'trim')".

(** The loop over [operators]; [None] when it runs to its end. *)
Fixpoint scanOperators (ops : list string) (expression : string) (context : Context)
  : option (outcome bool) :=
  match ops with
  | [] => None
  | op :: rest =>
      if includes expression op
      then
        match map trim (split expression op) with
        | lhs :: rhs :: _ =>
            let leftValue := resolveVariable lhs context in
            let rightValue := parseValue rhs in
            match applyOperator op leftValue rightValue with
            | Some r => Some r
            | None => scanOperators rest expression context
            end
        | _ => Some (Thrown typeError)
        end
      else scanOperators rest expression context
  end.

Fixpoint removeQuotes (s : string) : string :=
  match s with
  | EmptyString => EmptyString
  | String c s' =>
      if (nat_of_ascii c =? 34)%nat || (nat_of_ascii c =? 39)%nat
      then removeQuotes s'
      else String c (removeQuotes s')
  end.

Definition evaluateCondition (expression : string) (context : Context) : outcome bool :=
  if endsWith expression ".exists"
  then
    let varName := replace expression ".exists" EmptyString in
    let value := resolveVariable varName context in
    Returned (exists_ value)
  else if includes expression " contains "
  then
    match map trim (split expression " contains ") with
    | varPart :: valuePart :: _ =>
        let variable := resolveVariable varPart context in
        let searchValue := removeQuotes valuePart in
        match variable with
        | Value (JArr items) =>
            Returned (existsb (fun x => strictEq x (JStr searchValue)) items)
        | Value (JStr s) => Returned (includes s searchValue)
        | _ => Returned false
        end
    | _ => Thrown typeError
    end
  else
    match scanOperators operators expression context with
    | Some r => r
    | None => Returned (truthyResolved (resolveVariable expression context))
    end.

Definition executeCondition (config : ConditionConfig) (context : Context) : StepResult :=
  match evaluateCondition (check config) context with
  | Returned result =>
      {| success := true;
         nextStepId := Some (if result then trueStep config else falseStep config);
         error := None;
         output := Some (JObj [("condition", JStr (check config));
                               ("result", JBool result)]) |}
  | Thrown msg =>
      {| success := false; nextStepId := None; error := Some msg; output := None |}
  end.

(** ** Notification *)

Record SendResult : Type := mkSendResult {
  sent : bool;
  sendError : option string
}.

(** The two interpolation loops of [executeNotify].  The first converts
    every value of the input to a text, whether or not the message has its
    token, and stops at a value that cannot be converted. *)
Fixpoint interpolateInput (message : string) (entries : list (string * jsval))
  : outcome string :=
  match entries with
  | [] => Returned message
  | kv :: rest =>
      match toStr (snd kv) with
      | Thrown msg => Thrown msg
      | Returned text =>
          interpolateInput (replace message ("{{" ++ fst kv ++ "}}")%string text) rest
      end
  end.

Definition interpolateResults (message : string) (entries : list (string * jsval)) : string :=
  fold_left
    (fun message kv =>
       replace message ("{{results." ++ fst kv ++ "}}")%string
         (match stringify (snd kv) with Some t => t | None => "undefined" end))
    entries message.

Definition channelName (c : Channel) : string :=
  match c with discord => "discord" | email => "email" | webhook => "webhook" end.

(** [send] stands for [sendDiscordNotification]: target, content, embed. *)
Definition executeNotify (send : string -> string -> option jsval -> SendResult)
  (config : NotifyConfig) (context : Context) : StepResult :=
  match interpolateInput (template config) (input context) with
  | Thrown msg =>
      {| success := false; nextStepId := None; error := Some msg; output := None |}
  | Returned message =>
      let message := interpolateResults message (stepResults context) in
      let failed :=
        match channel config, target config with
        | discord, Some t =>
            if JsString.truthy t
            then let result := send t message (embed config) in
                 if negb (sent result) then Some (sendError result) else None
            else None
        | _, _ => None
        end in
      match failed with
      | Some err =>
          {| success := false; nextStepId := None; error := err; output := None |}
      | None =>
          {| success := true; nextStepId := None; error := None;
             output := Some (JObj [("channel", JStr (channelName (channel config)));
                                   ("message", JStr message)]) |}
      end
  end.

(** ** Control transfer after a step *)

Fixpoint findIndex (steps : list WorkflowStep) (id : string) : option nat :=
  match steps with
  | [] => None
  | s :: rest =>
      if String.eqb (step_id s) id then Some 0%nat
      else option_map S (findIndex rest id)
  end.

Inductive Transfer : Type :=
| JumpOnFailure (index : nat)
| FailWorkflow (reason : string)
| JumpNextStepId (index : nat)
| JumpOnSuccess (index : nat)
| Advance (index : nat).

Definition named (steps : list WorkflowStep) (id : option string) : option nat :=
  match id with
  | Some s => if JsString.truthy s then findIndex steps s else None
  | None => None
  end.

(** What the loop of [runWorkflow] does with the result of the step at
    [currentStepIndex]. *)
Definition transfer (steps : list WorkflowStep) (currentStepIndex : nat)
  (step : WorkflowStep) (result : StepResult) : Transfer :=
  if negb (success result)
  then match named steps (onFailure step) with
       | Some failureIndex => JumpOnFailure failureIndex
       | None =>
           FailWorkflow (match error result with
                         | Some e => if JsString.truthy e then e else "Step failed"
                         | None => "Step failed"
                         end)
       end
  else match named steps (nextStepId result) with
       | Some nextIndex => JumpNextStepId nextIndex
       | None =>
           match named steps (onSuccess step) with
           | Some successIndex => JumpOnSuccess successIndex
           | None => Advance (S currentStepIndex)
           end
       end.

End Workflow.

(* ================================================================== *)
(** * persona.ts: templates, registry, merging, statistics *)
(* ================================================================== *)

Module PersonaMore.
Import JsString JsMap Persona.

(** [Partial<Agente>]: a field is present when it is defined. *)
Record PartialAgente : Type := mkPartialAgente {
  p_id : option string;
  p_squad_id : option string;
  p_nome : option string;
  p_tipo : option string;
  p_soul : option string;
  p_regras : option AgentRules;
  p_limitadores : option AgentLimiters;
  p_gatilhos_bloqueio : option (list BlockTrigger);
  p_ativo : option bool
}.

Definition noRules : AgentRules :=
  {| allowedTaskTypes := None; forbiddenActions := None; mustAskBefore := None;
     autoComplete := None; maxTasksPerDay := None |}.

Definition noLimiters : AgentLimiters :=
  {| maxTokensPerTask := None; maxApiCallsPerTask := None; maxDurationMinutes := None;
     cooldownMinutes := None; lim_maxRetries := None |}.

Definition noUpdates : PartialAgente :=
  {| p_id := None; p_squad_id := None; p_nome := None; p_tipo := None; p_soul := None;
     p_regras := None; p_limitadores := None; p_gatilhos_bloqueio := None;
     p_ativo := None |}.
(** [DEFAULT_PERSONAS] *)
Definition developer_template : PartialAgente :=
  {| p_id := None; p_squad_id := None; p_nome := None;
     p_tipo := Some "developer"%string;
     p_soul := Some "You are a senior software developer AI agent. Your role is to:
- Write clean, maintainable, and well-documented code
- Follow best practices and design patterns
- Consider edge cases and error handling
- Write tests when appropriate
- Ask for clarification when requirements are ambiguous

You communicate professionally and explain your technical decisions."%string;
     p_regras := Some {| allowedTaskTypes := Some ["coding"%string; "bugfix"%string; "refactor"%string; "feature"%string]; forbiddenActions := None; mustAskBefore := Some ["delete files"%string; "modify database schema"%string; "change API contracts"%string]; autoComplete := Some false; maxTasksPerDay := None |};
     p_limitadores := Some {| maxTokensPerTask := Some 50000%Z; maxApiCallsPerTask := None; maxDurationMinutes := Some 60%Z; cooldownMinutes := None; lim_maxRetries := Some 3%Z |};
     p_gatilhos_bloqueio := None; p_ativo := None |}.

Definition reviewer_template : PartialAgente :=
  {| p_id := None; p_squad_id := None; p_nome := None;
     p_tipo := Some "reviewer"%string;
     p_soul := Some "You are a code review AI agent. Your role is to:
- Review code changes for quality, security, and best practices
- Identify potential bugs, vulnerabilities, and performance issues
- Suggest improvements and alternatives
- Ensure code follows project conventions
- Be constructive and educational in your feedback

You are thorough but not pedantic. Focus on significant issues."%string;
     p_regras := Some {| allowedTaskTypes := Some ["review"%string; "audit"%string; "analysis"%string]; forbiddenActions := Some ["approve without review"%string; "merge without approval"%string]; mustAskBefore := None; autoComplete := Some true; maxTasksPerDay := None |};
     p_limitadores := Some {| maxTokensPerTask := Some 30000%Z; maxApiCallsPerTask := None; maxDurationMinutes := Some 30%Z; cooldownMinutes := None; lim_maxRetries := None |};
     p_gatilhos_bloqueio := None; p_ativo := None |}.

Definition tester_template : PartialAgente :=
  {| p_id := None; p_squad_id := None; p_nome := None;
     p_tipo := Some "tester"%string;
     p_soul := Some "You are a QA/testing AI agent. Your role is to:
- Write comprehensive test cases
- Execute tests and report results
- Identify edge cases and failure scenarios
- Verify bug fixes and new features
- Document test coverage and gaps

You are methodical and thorough in your testing approach."%string;
     p_regras := Some {| allowedTaskTypes := Some ["testing"%string; "qa"%string; "validation"%string]; forbiddenActions := None; mustAskBefore := Some ["skip tests"%string; "mark as pass without testing"%string]; autoComplete := None; maxTasksPerDay := None |};
     p_limitadores := Some {| maxTokensPerTask := None; maxApiCallsPerTask := None; maxDurationMinutes := Some 45%Z; cooldownMinutes := None; lim_maxRetries := Some 2%Z |};
     p_gatilhos_bloqueio := None; p_ativo := None |}.

Definition writer_template : PartialAgente :=
  {| p_id := None; p_squad_id := None; p_nome := None;
     p_tipo := Some "writer"%string;
     p_soul := Some "You are a technical writer AI agent. Your role is to:
- Write clear and comprehensive documentation
- Create user guides and API documentation
- Maintain README files and wikis
- Write helpful code comments
- Translate technical concepts for different audiences

You write clearly, concisely, and accurately."%string;
     p_regras := Some {| allowedTaskTypes := Some ["documentation"%string; "writing"%string; "translation"%string]; forbiddenActions := None; mustAskBefore := None; autoComplete := Some true; maxTasksPerDay := None |};
     p_limitadores := Some {| maxTokensPerTask := Some 20000%Z; maxApiCallsPerTask := None; maxDurationMinutes := Some 30%Z; cooldownMinutes := None; lim_maxRetries := None |};
     p_gatilhos_bloqueio := None; p_ativo := None |}.

Definition planner_template : PartialAgente :=
  {| p_id := None; p_squad_id := None; p_nome := None;
     p_tipo := Some "planner"%string;
     p_soul := Some "You are a project planning AI agent. Your role is to:
- Break down large tasks into smaller, actionable items
- Estimate effort and complexity
- Identify dependencies and blockers
- Prioritize tasks effectively
- Create project roadmaps and timelines

You think strategically and communicate plans clearly."%string;
     p_regras := Some {| allowedTaskTypes := Some ["planning"%string; "estimation"%string; "breakdown"%string]; forbiddenActions := None; mustAskBefore := Some ["commit to deadlines"%string; "change scope"%string]; autoComplete := None; maxTasksPerDay := None |};
     p_limitadores := Some {| maxTokensPerTask := None; maxApiCallsPerTask := None; maxDurationMinutes := Some 30%Z; cooldownMinutes := None; lim_maxRetries := None |};
     p_gatilhos_bloqueio := None; p_ativo := None |}.

Definition assistant_template : PartialAgente :=
  {| p_id := None; p_squad_id := None; p_nome := None;
     p_tipo := Some "assistant"%string;
     p_soul := Some "You are a helpful general-purpose AI assistant. Your role is to:
- Answer questions and provide information
- Help with various tasks as needed
- Coordinate with other agents when necessary
- Escalate issues that require human attention

You are friendly, helpful, and proactive."%string;
     p_regras := Some {| allowedTaskTypes := None; forbiddenActions := None; mustAskBefore := None; autoComplete := Some true; maxTasksPerDay := None |};
     p_limitadores := Some {| maxTokensPerTask := Some 10000%Z; maxApiCallsPerTask := None; maxDurationMinutes := Some 15%Z; cooldownMinutes := None; lim_maxRetries := None |};
     p_gatilhos_bloqueio := None; p_ativo := None |}.

Definition DEFAULT_PERSONAS : jsmap PartialAgente :=
  [("developer", developer_template); ("reviewer", reviewer_template);
   ("tester", tester_template); ("writer", writer_template);
   ("planner", planner_template); ("assistant", assistant_template)].

Definition DEFAULT_BLOCK_TRIGGERS : list BlockTrigger :=
  [{| condition := "uncertainty > 0.8";
      message := "High uncertainty - need clarification before proceeding";
      notifyChannel := None; requiresApproval := Some true |};
   {| condition := "requires_external_access";
      message := "This task requires access to external systems";
      notifyChannel := None; requiresApproval := Some true |};
   {| condition := "destructive_operation";
      message := "This operation could cause data loss";
      notifyChannel := Some "notifications"%string; requiresApproval := Some true |};
   {| condition := "cost_exceeds_limit";
      message := "Estimated cost exceeds configured limit";
      notifyChannel := None; requiresApproval := Some true |}].

(** Property names every object literal inherits from [Object.prototype]:
    reading one of them from a literal that does not define it gives a
    function (or the prototype itself), a truthy value without fields of an
    agent. *)
Definition inheritedNames : list string :=
  ["constructor"; "hasOwnProperty"; "isPrototypeOf"; "propertyIsEnumerable";
   "toLocaleString"; "toString"; "valueOf"; "__proto__"; "__defineGetter__";
   "__defineSetter__"; "__lookupGetter__"; "__lookupSetter__"].

Definition inherited (name : string) : bool :=
  existsb (String.eqb name) inheritedNames.

(** ** Registry *)

Definition register (personas : jsmap Agente) (agente : Agente) : jsmap Agente :=
  set personas (agente_id agente) agente.

Definition get (personas : jsmap Agente) (agentId : string) : option Agente :=
  JsMap.get personas agentId.

Definition unregister (personas : jsmap Agente) (agentId : string)
  : jsmap Agente * bool :=
  (delete personas agentId, has personas agentId).

Definition getAll (personas : jsmap Agente) : list Agente := values personas.

(** ** Templates and merging *)

(** [u ?? b] on an optional field of a spread: the later object wins where
    it has the field. *)
Definition orElse {A : Type} (u b : option A) : option A :=
  match u with Some x => Some x | None => b end.

(** [{ ...base, ...updates }] on rule sets and limiters. *)
Definition spreadRules (base updates : AgentRules) : AgentRules :=
  {| allowedTaskTypes := orElse (allowedTaskTypes updates) (allowedTaskTypes base);
     forbiddenActions := orElse (forbiddenActions updates) (forbiddenActions base);
     mustAskBefore := orElse (mustAskBefore updates) (mustAskBefore base);
     autoComplete := orElse (autoComplete updates) (autoComplete base);
     maxTasksPerDay := orElse (maxTasksPerDay updates) (maxTasksPerDay base) |}.

Definition spreadLimiters (base updates : AgentLimiters) : AgentLimiters :=
  {| maxTokensPerTask := orElse (maxTokensPerTask updates) (maxTokensPerTask base);
     maxApiCallsPerTask := orElse (maxApiCallsPerTask updates) (maxApiCallsPerTask base);
     maxDurationMinutes := orElse (maxDurationMinutes updates) (maxDurationMinutes base);
     cooldownMinutes := orElse (cooldownMinutes updates) (cooldownMinutes base);
     lim_maxRetries := orElse (lim_maxRetries updates) (lim_maxRetries base) |}.

Definition rulesOr (r : option AgentRules) : AgentRules :=
  match r with Some x => x | None => noRules end.

Definition limitersOr (l : option AgentLimiters) : AgentLimiters :=
  match l with Some x => x | None => noLimiters end.

(** What [createFromTemplate] returns: an agent without id and dates. *)
Record AgenteDraft : Type := mkAgenteDraft {
  d_squad_id : string;
  d_nome : string;
  d_tipo : string;
  d_soul : string;
  d_regras : AgentRules;
  d_limitadores : AgentLimiters;
  d_gatilhos_bloqueio : list BlockTrigger;
  d_ativo : bool
}.

Definition overridesOf (o : option PartialAgente) : PartialAgente :=
  match o with Some p => p | None => noUpdates end.

Definition createFromTemplate (name type squadId : string)
  (overrides : option PartialAgente) : AgenteDraft :=
  let template :=
    match JsMap.get DEFAULT_PERSONAS type with
    | Some t => t
    | None => if inherited type then noUpdates else assistant_template
    end in
  let o := overridesOf overrides in
  {| d_squad_id := squadId;
     d_nome := name;
     d_tipo := if truthyStr (p_tipo template) then str (p_tipo template) else type;
     d_soul := if truthyStr (p_soul template) then str (p_soul template) else EmptyString;
     d_regras := spreadRules (rulesOr (p_regras template)) (rulesOr (p_regras o));
     d_limitadores :=
       spreadLimiters (limitersOr (p_limitadores template)) (limitersOr (p_limitadores o));
     d_gatilhos_bloqueio :=
       match p_gatilhos_bloqueio o with
       | Some triggers => triggers
       | None => DEFAULT_BLOCK_TRIGGERS
       end;
     d_ativo := match p_ativo o with Some a => a | None => true end |}.

(** The stored agent a draft becomes once the store has given it an id. *)
Definition stored (id : string) (d : AgenteDraft) : Agente :=
  {| agente_id := id; agente_squad_id := d_squad_id d; nome := d_nome d;
     tipo := Some (d_tipo d); soul := Some (d_soul d);
     regras := Some (d_regras d); limitadores := Some (d_limitadores d);
     gatilhos_bloqueio := Some (d_gatilhos_bloqueio d); ativo := d_ativo d |}.

Definition mergePersona (base : Agente) (updates : PartialAgente) : Agente :=
  {| agente_id := match p_id updates with Some x => x | None => agente_id base end;
     agente_squad_id :=
       match p_squad_id updates with Some x => x | None => agente_squad_id base end;
     nome := match p_nome updates with Some x => x | None => nome base end;
     tipo := orElse (p_tipo updates) (tipo base);
     soul := orElse (p_soul updates) (soul base);
     regras :=
       match p_regras updates with
       | Some u => Some (spreadRules (rulesOr (regras base)) u)
       | None => regras base
       end;
     limitadores :=
       match p_limitadores updates with
       | Some u => Some (spreadLimiters (limitersOr (limitadores base)) u)
       | None => limitadores base
       end;
     gatilhos_bloqueio := orElse (p_gatilhos_bloqueio updates) (gatilhos_bloqueio base);
     ativo := match p_ativo updates with Some x => x | None => ativo base end |}.

(** ** Statistics *)

Record PersonaStats : Type := mkPersonaStats {
  total : nat;
  active : nat;
  byType : jsmap nat
}.

(** [byType[tipo] = (byType[tipo] || 0) + 1] on the object literal [byType],
    for a type name that is not inherited from [Object.prototype]. *)
Definition bump (byType : jsmap nat) (tipo : string) : jsmap nat :=
  set byType tipo
    ((match JsMap.get byType tipo with Some n => n | None => 0 end + 1)%nat).

Definition typeName (persona : Agente) : string :=
  if truthyStr (tipo persona) then str (tipo persona) else "unknown".

(** The loop of [getStats]. *)
Definition getStats (personas : jsmap Agente) : PersonaStats :=
  let all := getAll personas in
  let '(active, byType) :=
    fold_left
      (fun acc persona =>
         let '(active, byType) := acc in
         ((if ativo persona then S active else active),
          bump byType (typeName persona)))
      all (0%nat, []) in
  {| total := List.length all; active := active; byType := byType |}.

(** The type names [getStats] counts correctly. *)
Definition ordinaryType (persona : Agente) : Prop :=
  inherited (typeName persona) = false.

Definition sum (counts : list nat) : nat := fold_right Nat.add 0%nat counts.

(** ** Vocabulary of the properties *)


(** The actions an agent's rules list are texts of ASCII characters. *)
Definition asciiActions (agente : Agente) : Prop :=
  match regras agente with
  | Some r =>
      Forall (fun a => isAscii a = true) (items (forbiddenActions r)) /\
      Forall (fun a => isAscii a = true) (items (mustAskBefore r))
  | None => True
  end.

(** The part of an override [createFromTemplate] reads. *)
Definition readPart (o : PartialAgente) : PartialAgente :=
  {| p_id := None; p_squad_id := None; p_nome := None; p_tipo := None; p_soul := None;
     p_regras := p_regras o; p_limitadores := p_limitadores o;
     p_gatilhos_bloqueio := p_gatilhos_bloqueio o; p_ativo := p_ativo o |}.

End PersonaMore.

(* ================================================================== *)
(** * Specification vocabulary *)
(* ================================================================== *)

Module QueueProps.
Import JsMap Queue.

(** An entry is eligible when it was never attempted, or when its last
    attempt lies at least the retry delay in the past. *)
Definition eligible (retryDelay now : Z) (qt : QueuedTask) : Prop :=
  attempts qt = 0%nat \/
  exists la, lastAttempt qt = Some la /\ (now - la >= retryDelay)%Z.

(** An entry that counts an attempt also records when it happened. *)
Definition entry_wf (qt : QueuedTask) : Prop :=
  attempts qt <> 0%nat -> lastAttempt qt <> None.

Definition queue_wf (q : TaskQueue) : Prop :=
  Forall entry_wf (values (queue q)).

(** Priority order: higher priority first, equal priorities by enqueue time. *)
Definition precedes (a b : QueuedTask) : Prop :=
  (qt_priority b < qt_priority a)%Z \/
  (qt_priority a = qt_priority b /\ (queuedAt a <= queuedAt b)%Z).

(** Execution ids are distinct and every finished execution carries its
    completion time. *)
Definition ledger_wf (q : TaskQueue) : Prop :=
  JsMap.wf (executions q) /\
  Forall (fun kv => isFinished kv = true -> completedTime kv <> None) (executions q).

(** [a] completed no earlier than [b]. *)
Definition noOlder (a b : string * ExecutionState) : Prop :=
  forall ta tb, completedTime a = Some ta -> completedTime b = Some tb -> (tb <= ta)%Z.

(** The key of [kv] is among the keys that [cleanup] deletes. *)
Definition doomedKey (doomed : list (string * ExecutionState))
  (kv : string * ExecutionState) : bool :=
  existsb (String.eqb (fst kv)) (keys doomed).

(** The attempt count recorded for a queued task. *)
Definition attemptsOf (q : TaskQueue) (taskId : string) : option nat :=
  option_map attempts (get (queue q) taskId).

(** The calls a [TaskQueue] accepts, with the clock reading of each. *)
Inductive Call : Type :=
| CallEnqueue (now : Z) (task : Task) (priority : option Z)
| CallDequeue (taskId : string)
| CallUpdatePriority (taskId : string) (priority : Z)
| CallMarkAttempt (now : Z) (taskId : string)
| CallStartExecution (now : Z) (taskId agentId : string)
| CallUpdateProgress (now : Z) (executionId : string) (progress : Z) (msg : option string)
| CallAddLog (now : Z) (executionId : string) (level : LogLevel) (msg : string)
    (data : option jsval)
| CallCompleteExecution (now : Z) (executionId : string) (result : option jsval)
| CallFailExecution (now : Z) (executionId : string) (error : string)
| CallBlockExecution (now : Z) (executionId : string) (reason : string)
| CallCleanup (keepLast : nat)
| CallSyncFromTasks (now : Z) (tasks : list Task).

Definition perform (q : TaskQueue) (c : Call) : TaskQueue :=
  match c with
  | CallEnqueue now task priority => enqueue q now task priority
  | CallDequeue taskId => fst (dequeue q taskId)
  | CallUpdatePriority taskId priority => fst (updatePriority q taskId priority)
  | CallMarkAttempt now taskId => markAttempt q now taskId
  | CallStartExecution now taskId agentId => fst (startExecution q now taskId agentId)
  | CallUpdateProgress now executionId progress msg =>
      updateProgress q now executionId progress msg
  | CallAddLog now executionId level msg data => addLog q now executionId level msg data
  | CallCompleteExecution now executionId result =>
      fst (completeExecution q now executionId result)
  | CallFailExecution now executionId error => fst (failExecution q now executionId error)
  | CallBlockExecution now executionId reason =>
      fst (blockExecution q now executionId reason)
  | CallCleanup keepLast => fst (cleanup q keepLast)
  | CallSyncFromTasks now tasks => syncFromTasks q now tasks
  end.

(** The queue after a history of calls on a new [TaskQueue]. *)
Definition afterCalls (optMaxRetries : option nat) (optRetryDelayMs : option Z)
  (history : list Call) : TaskQueue :=
  fold_left perform history (create optMaxRetries optRetryDelayMs).

Definition finishedHasTime (kv : string * ExecutionState) : Prop :=
  isFinished kv = true -> completedTime kv <> None.

End QueueProps.

Module OrchestratorProps.
Import JsMap Orchestrator.

(** The score as the specification words it, in exact arithmetic on the
    values of the metrics: load, reliability and speed. *)
Definition successRate (agent : AgentInstance) : Q :=
  let m := metrics agent in
  let completed := JsDouble.exact (tasksCompleted m) in
  let failed := JsDouble.exact (tasksFailed m) in
  if Qeq_bool (completed + failed) 0 then 0%Q
  else (completed / (completed + failed))%Q.





(** Nothing observable changed between two orchestrator states: the store
    received no write, the ledger and the queue are the same, no agent
    changed and no run was launched. *)
Definition untouched (o o' : Orchestrator.t) : Prop :=
  Store.writes (supabase o') = Store.writes (supabase o) /\
  Store.rows (supabase o') = Store.rows (supabase o) /\
  Queue.executions (queue o') = Queue.executions (queue o) /\
  Queue.queue (queue o') = Queue.queue (queue o) /\
  agents o' = agents o /\
  notifications o' = notifications o /\
  launched o' = launched o.

(** C4 as it is worded: any given agent id that is not registered makes
    [executeTask] fail with AgentNotFound and leave everything untouched. *)
Definition rejectsUnregistered : Prop :=
  forall (o : Orchestrator.t) (now : Z) (request : ExecuteTaskRequest)
         (agentId : string) (task : Task),
    Store.getTask (supabase o) (req_taskId request) = Some task ->
    req_agentId request = Some agentId ->
    get (agents o) agentId = None ->
    snd (executeTask o now request) = inl (AgentNotFound agentId) /\
    untouched o (fst (executeTask o now request)).

End OrchestratorProps.

Module PersonaProps.
Import JsString Persona.

(** The five sections of the prompt, in the order the specification lists
    them. *)
Definition personaSection (agente : Agente) : list string :=
  if truthyStr (soul agente) then [str (soul agente)] else [].

Definition rulesSection (agente : Agente) : list string :=
  match regras agente with
  | None => []
  | Some r =>
      [(newline ++ "## Rules and Guidelines")%string] ++
      (if hasItems (allowedTaskTypes r)
       then [("- You are specialized in: " ++ join ", " (items (allowedTaskTypes r)))%string]
       else []) ++
      (if hasItems (forbiddenActions r)
       then [("- You must NEVER: " ++ join ", " (items (forbiddenActions r)))%string]
       else []) ++
      (if hasItems (mustAskBefore r)
       then [("- You must ASK FOR APPROVAL before: "
              ++ join ", " (items (mustAskBefore r)))%string]
       else []) ++
      [if truthyBool (autoComplete r)
       then "- You should complete tasks autonomously when possible"
       else "- You should ask for confirmation before completing tasks"]
  end.

Definition limitersSection (agente : Agente) : list string :=
  match limitadores agente with
  | None => []
  | Some l =>
      [(newline ++ "## Constraints")%string] ++
      (if truthyNum (maxDurationMinutes l)
       then [("- Maximum task duration: " ++ ofZ (num (maxDurationMinutes l))
              ++ " minutes")%string]
       else []) ++
      (if truthyNum (lim_maxRetries l)
       then [("- Maximum retry attempts: " ++ ofZ (num (lim_maxRetries l)))%string]
       else [])
  end.

Definition triggersSection (agente : Agente) : list string :=
  if hasItems (gatilhos_bloqueio agente)
  then [(newline ++ "## When to Stop and Ask")%string] ++
       map (fun trigger => ("- " ++ message trigger)%string)
           (items (gatilhos_bloqueio agente))
  else [].

Definition contextSection (context : option PromptContext) : list string :=
  let title := match context with Some c => taskTitle c | None => None end in
  let description := match context with Some c => taskDescription c | None => None end in
  if truthyStr title || truthyStr description
  then [(newline ++ "## Current Task")%string] ++
       (if truthyStr title then [("**Title:** " ++ str title)%string] else []) ++
       (if truthyStr description
        then [("**Description:** " ++ str description)%string] else [])
  else [].







End PersonaProps.

Module WorkflowProps.
Import JsString Workflow.

(** The first entry of the operator checklist that occurs in the expression. *)
Definition firstOperator (expression : string) : option string :=
  find (includes expression) operators.

(** The evaluator ends as the comparison [op] applied to the two sides of
    the expression split at [op] ends: with its answer, or with its error. *)
Definition comparesWith (op expression : string) (context : Context) : Prop :=
  exists lhs rhs rest,
    map trim (split expression op) = lhs :: rhs :: rest /\
    applyOperator op (resolveVariable lhs context) (parseValue rhs)
      = Some (evaluateCondition expression context).

(** C5 as it is worded: whenever some checklist operator occurs in the
    expression, the first such operator decides the answer. *)
Definition firstOperatorDecides : Prop :=
  forall (expression : string) (context : Context) (op : string),
    firstOperator expression = Some op -> comparesWith op expression context.

(** The operators that compare the two sides as numbers. *)
Definition relational (op : string) : bool :=
  existsb (String.eqb op) [">="; "<="; ">"; "<"].

(** The evaluation of the expression compares numbers and its left side
    cannot be converted to one. *)
Definition leftSideFails (expression : string) (context : Context) (msg : string)
  : Prop :=
  endsWith expression ".exists" = false /\
  includes expression " contains " = false /\
  exists op lhs rhs rest,
    firstOperator expression = Some op /\
    relational op = true /\
    map trim (split expression op) = lhs :: rhs :: rest /\
    numberOf (resolveVariable lhs context) = Thrown msg.

(** The transfers taken after a failed step. *)
Definition isFailure (t : Transfer) : bool :=
  match t with
  | JumpOnFailure _ | FailWorkflow _ => true
  | _ => false
  end.

(** The message a notify step reports. *)
Definition notifiedMessage (r : StepResult) : option string :=
  match output r with
  | Some (JObj fields) =>
      match lookup fields "message" with
      | JStr m => Some m
      | _ => None
      end
  | _ => None
  end.

End WorkflowProps.

(* ================================================================== *)
(** * Sample states *)
(* ================================================================== *)

Module Samples.
Import JsMap.

Definition task (id : string) (priority : option Z) : Task :=
  {| task_id := id; task_squad_id := "squad-1"; task_titulo := id;
     task_descricao := None; task_status := backlog;
     task_motivo_bloqueio := None; task_assigned_agent_id := None;
     task_priority := priority |}.

(** A queue whose top entry was attempted one second ago, followed by a
    fresh entry of lower priority. *)
Definition retryQueue : Queue.TaskQueue :=
  let q := Queue.create None None in
  let q := Queue.enqueue q 1000 (task "t1" (Some 5%Z)) None in
  let q := Queue.enqueue q 1100 (task "t2" (Some 1%Z)) None in
  Queue.markAttempt q 2000 "t1".

(** A ledger with two completed, one failed and one running execution. *)
Definition ledger : Queue.TaskQueue :=
  let q := Queue.create None None in
  let q := fst (Queue.startExecution q 1000 "t1" "a1") in
  let q := fst (Queue.completeExecution q 1500 "exec_t1_1000" None) in
  let q := fst (Queue.startExecution q 2000 "t2" "a1") in
  let q := fst (Queue.failExecution q 2500 "exec_t2_2000" "boom") in
  let q := fst (Queue.startExecution q 3000 "t3" "a1") in
  let q := fst (Queue.startExecution q 3500 "t4" "a2") in
  fst (Queue.completeExecution q 4000 "exec_t4_3500" None).

(** A ledger in which task t1 failed once and was started again. *)
Definition rerunLedger : Queue.TaskQueue :=
  let q := Queue.create None None in
  let q := fst (Queue.startExecution q 1000 "t1" "a1") in
  let q := fst (Queue.failExecution q 1500 "exec_t1_1000" "boom") in
  fst (Queue.startExecution q 2000 "t1" "a2").

Definition agent (id : string) : Agente :=
  {| agente_id := id; agente_squad_id := "squad-1"; nome := id; tipo := None;
     soul := None; regras := None; limitadores := None;
     gatilhos_bloqueio := None; ativo := true |}.

(** One idle agent, task t1 queued, and a store that no longer has t1. *)
Definition staleOrchestrator : Orchestrator.t :=
  let o := Orchestrator.create {| Store.rows := []; Store.writes := [] |} None in
  let o := fst (Orchestrator.registerAgent o (agent "a1")) in
  Orchestrator.with_queue o
    (Queue.enqueue (Orchestrator.queue o) 1000 (task "t1" (Some 5%Z)) None).

(** One idle agent and a store holding task t1. *)
Definition readyOrchestrator : Orchestrator.t :=
  let o := Orchestrator.create
             {| Store.rows := [task "t1" (Some 5%Z)]; Store.writes := [] |} None in
  fst (Orchestrator.registerAgent o (agent "a1")).

(** An orchestrator over [rerunLedger]. *)
Definition rerunOrchestrator : Orchestrator.t :=
  Orchestrator.with_queue readyOrchestrator rerunLedger.

(** Agent instances with given metrics. *)
Definition instance (id : string) (status : AgentStatus) (active : bool)
  (completed failed avg : float) : AgentInstance :=
  {| inst_id := id;
     agente := {| agente_id := id; agente_squad_id := "squad-1"; nome := id;
                  tipo := None; soul := None; regras := None; limitadores := None;
                  gatilhos_bloqueio := None; ativo := active |};
     inst_status := status; currentTask := None; lastActivity := None;
     metrics := {| tasksCompleted := completed; tasksFailed := failed;
                   tasksBlocked := 0; averageTaskDuration := avg; tokensUsed := 0 |} |}.

Definition pool : jsmap AgentInstance :=
  [("busy", instance "busy" working true 0 0 0);
   ("off", instance "off" idle false 0 0 0);
   ("slow", instance "slow" idle true 4 0 120000);
   ("good", instance "good" idle true 4 0 60000);
   ("twin", instance "twin" idle true 4 0 60000)]%float.


(** An agent that must never delete a database and asks before it
    deploys. *)
Definition guardedAgent : Agente :=
  {| agente_id := "a1"; agente_squad_id := "squad-1"; nome := "a1"; tipo := None;
     soul := None;
     regras := Some {| allowedTaskTypes := None;
                       forbiddenActions := Some ["delete database"];
                       mustAskBefore := Some ["Deploy"];
                       autoComplete := None; maxTasksPerDay := None |};
     limitadores := None; gatilhos_bloqueio := None; ativo := true |}.

(** A profile whose only trigger numbers its step before the threshold. *)
Definition numberedTrigger : BlockTrigger :=
  {| condition := "step2 uncertainty > 0.5";
     message := "Too uncertain to continue";
     notifyChannel := None; requiresApproval := Some true |}.

Definition cautiousAgent : Agente :=
  {| agente_id := "a1"; agente_squad_id := "squad-1"; nome := "a1"; tipo := None;
     soul := None; regras := None; limitadores := None;
     gatilhos_bloqueio := Some [numberedTrigger]; ativo := true |}.


(** A workflow context with a task title and a generated report. *)
Definition context : Workflow.Context :=
  {| Workflow.input :=
       [("taskId", JStr "t1"); ("taskTitle", JStr "Fix login");
        ("msg", JStr "a>b")];
     Workflow.stepResults :=
       [("generate", JObj [("report", JStr "All good")])] |}.

(** The notify messages of the task-assignment and daily-standup templates
    (the latter without its leading pictograph). *)
Definition completedTemplate : string :=
  ("Task " ++ JsString.dquote ++ "{{input.taskTitle}}" ++ JsString.dquote
   ++ " completed successfully!")%string.

Definition standupTemplate : string :=
  ("Daily Standup" ++ JsString.newline ++ "{{results.generate.report}}")%string.

Definition notifyStep (template : string) : Workflow.NotifyConfig :=
  {| Workflow.channel := Workflow.discord; Workflow.target := None;
     Workflow.template := template; Workflow.embed := None |}.

Definition delivered : string -> string -> option jsval -> Workflow.SendResult :=
  fun _ _ _ => {| Workflow.sent := true; Workflow.sendError := None |}.

Definition refused : string -> string -> option jsval -> Workflow.SendResult :=
  fun _ _ _ => {| Workflow.sent := false; Workflow.sendError := Some "Webhook not found" |}.

(** The same step with a Discord target. *)
Definition notifyTo (target template : string) : Workflow.NotifyConfig :=
  {| Workflow.channel := Workflow.discord; Workflow.target := Some target;
     Workflow.template := template; Workflow.embed := None |}.

(** An input whose field [x] is the object [{ toString: 1 }], as a request
    body can carry it. *)
Definition opaqueContext : Workflow.Context :=
  {| Workflow.input := [("x", JObj [("toString", JNum 1%float)])];
     Workflow.stepResults := [] |}.

Definition checkStep (check : string) : Workflow.ConditionConfig :=
  {| Workflow.check := check; Workflow.trueStep := "yes"; Workflow.falseStep := "no" |}.

End Samples.

(* ================================================================== *)
(** * Further vocabulary *)
(* ================================================================== *)

Module LedgerProps.
Import JsMap Queue QueueProps.

(** The state a new execution starts in. *)
Definition freshState (now : Z) (taskId agentId : string) : ExecutionState :=
  {| execution :=
       {| exec_id := ("exec_" ++ taskId ++ "_" ++ JsString.ofZ now)%string;
          exec_taskId := taskId; exec_agentId := agentId;
          exec_status := ex_running; exec_progress := 0; exec_logs := [];
          exec_result := None; exec_error := None;
          startedAt := now; completedAt := None |};
     logs := []; startTime := now |}.

(** The five ways a method rewrites a state of the ledger. *)
Definition progressed (progress : Z) (st : ExecutionState) : ExecutionState :=
  state_set_execution st
    (exec_set_progress (execution st) (Z.min 100 (Z.max 0 progress))).

Definition logged (log : ExecutionLog) (st : ExecutionState) : ExecutionState :=
  {| execution := exec_set_logs (execution st) (logs st ++ [log]);
     logs := logs st ++ [log];
     startTime := startTime st |}.

Definition completed (now : Z) (result : option jsval) (st : ExecutionState)
  : ExecutionState :=
  state_set_execution st
    (exec_set_completedAt
       (exec_set_result
          (exec_set_progress (exec_set_status (execution st) ex_completed) 100)
          result) now).

Definition failed (now : Z) (error : string) (st : ExecutionState) : ExecutionState :=
  state_set_execution st
    (exec_set_completedAt
       (exec_set_error (exec_set_status (execution st) ex_failed) error) now).

Definition blockedWith (reason : string) (st : ExecutionState) : ExecutionState :=
  state_set_execution st
    (exec_set_error (exec_set_status (execution st) ex_blocked) reason).

(** A property of ledger entries that every rewrite keeps and every new
    execution has. *)
Record Kept (P : string * ExecutionState -> Prop) : Prop := mkKept {
  kept_fresh : forall now taskId agentId,
    P (exec_id (execution (freshState now taskId agentId)),
       freshState now taskId agentId);
  kept_progressed : forall k st p, P (k, st) -> P (k, progressed p st);
  kept_logged : forall k st log, P (k, st) -> P (k, logged log st);
  kept_completed : forall k st now r, P (k, st) -> P (k, completed now r st);
  kept_failed : forall k st now e, P (k, st) -> P (k, failed now e st);
  kept_blocked : forall k st r, P (k, st) -> P (k, blockedWith r st)
}.

(** Properties of single ledger entries. *)
Definition ownId (kv : string * ExecutionState) : Prop :=
  fst kv = exec_id (execution (snd kv)).

Definition progressInRange (kv : string * ExecutionState) : Prop :=
  (0 <= exec_progress (execution (snd kv)) <= 100)%Z.

Definition logsShared (kv : string * ExecutionState) : Prop :=
  exec_logs (execution (snd kv)) = logs (snd kv).

Definition notPending (kv : string * ExecutionState) : Prop :=
  exec_status (execution (snd kv)) <> ex_pending.

(** Queue entries are stored under the id of their task. *)
Definition keyedByTask (kv : string * QueuedTask) : Prop :=
  fst kv = task_id (qt_task (snd kv)).

(** [markAttempt] called once per clock reading of [times]. *)
Definition markAttempts (q : TaskQueue) (times : list Z) (taskId : string) : TaskQueue :=
  fold_left (fun q now => markAttempt q now taskId) times q.

(** A task that [syncFromTasks] would add to [q]. *)
Definition syncable (q : TaskQueue) (task : Task) : Prop :=
  task_status task = backlog /\
  ~ In (task_id task) (map exec_taskId (getActiveExecutions q)).

(** The pending queue is well formed: ids are distinct and every entry is
    stored under the id of its task. *)
Definition pending_wf (q : TaskQueue) : Prop :=
  JsMap.wf (queue q) /\ Forall keyedByTask (queue q).

End LedgerProps.

Module MoreSamples.
Import JsMap Samples.

(** A queue holding the single task t1, enqueued at time 1000. *)
Definition oneTask : Queue.TaskQueue :=
  Queue.enqueue (Queue.create None None) 1000 (task "t1" None) None.

Definition oneTaskEntry : Queue.QueuedTask :=
  Queue.mkQueuedTask (task "t1" None) 0 1000 0 None.

End MoreSamples.

(* ================================================================== *)
(** * orchestrator.ts: pausing, resuming, initialisation *)
(* ================================================================== *)

Module OrchestratorMore.
Import JsMap Orchestrator.

(** [agent.status = 'idle'; agent.currentTask = undefined] *)
Definition release (agent : AgentInstance) : AgentInstance :=
  {| inst_id := inst_id agent; agente := agente agent; inst_status := idle;
     currentTask := None; lastActivity := lastActivity agent;
     metrics := metrics agent |}.

(** What the call of [pauseTask] itself does.  A run launched for the task
    is not stopped by it and goes on as [runTaskExecution] describes. *)
Definition pauseTask (o : t) (now : Z) (taskId : string) : t * bool :=
  match Queue.getExecutionByTaskId (queue o) taskId with
  | None => (o, false)
  | Some execution =>
      if negb (ExecStatus_eqb (exec_status execution) ex_running) then (o, false)
      else
        let queue' :=
          fst (Queue.blockExecution (queue o) now (exec_id execution) "Paused by user") in
        let supabase' :=
          Store.updateTaskStatus (supabase o) taskId bloqueado (Some "Paused by user") in
        let agents' :=
          match get (agents o) (exec_agentId execution) with
          | Some agent => set (agents o) (exec_agentId execution) (release agent)
          | None => agents o
          end in
        ({| supabase := supabase'; queue := queue'; personas := personas o;
            agents := agents'; notifications := notifications o;
            launched := launched o; isRunning := isRunning o |}, true)
  end.

(** [resumeTask]: [inr None] is the [null] answer, [inl] the error thrown by
    [executeTask]. *)
Definition resumeTask (o : t) (now : Z) (taskId : string)
  : t * (Error + option ExecuteTaskResponse) :=
  match Store.getTask (supabase o) taskId with
  | None => (o, inr None)
  | Some task =>
      if negb (TaskStatus_eqb (task_status task) bloqueado) then (o, inr None)
      else
        let o1 :=
          {| supabase := supabase o; queue := queue o; personas := personas o;
             agents := agents o;
             notifications :=
               notifications o ++
               [{| notif_squad := task_squad_id task; notif_event := task_unblocked;
                   notif_task := Some (task_id task); notif_agent := None |}];
             launched := launched o; isRunning := isRunning o |} in
        match executeTask o1 now
                {| req_taskId := task_id task; req_agentId := None;
                   req_priority := None; req_context := None |} with
        | (o2, inl err) => (o2, inl err)
        | (o2, inr response) => (o2, inr (Some response))
        end
  end.

(** [initialize], given what the store answers for the squad's active agents
    and backlog tasks. *)
Definition initialize (o : t) (now : Z) (agentes : list Agente) (tasks : list Task) : t :=
  let o := fold_left (fun o agente => fst (registerAgent o agente)) agentes o in
  with_queue o (Queue.syncFromTasks (queue o) now tasks).

Definition with_isRunning (o : t) (b : bool) : t :=
  {| supabase := supabase o; queue := queue o; personas := personas o;
     agents := agents o; notifications := notifications o;
     launched := launched o; isRunning := b |}.

Definition start (o : t) : t := if isRunning o then o else with_isRunning o true.

Definition stop (o : t) : t := if negb (isRunning o) then o else with_isRunning o false.

(** The line of [getStatus] for one agent. *)
Record AgentLine : Type := mkAgentLine {
  line_id : string;
  line_name : string;
  line_status : AgentStatus;
  line_currentTask : option string
}.

Record Status : Type := mkStatus {
  status_isRunning : bool;
  status_agents : list AgentLine;
  status_queue : Queue.Stats
}.

Definition getStatus (o : t) : Status :=
  {| status_isRunning := isRunning o;
     status_agents :=
       map (fun agent =>
              {| line_id := inst_id agent; line_name := nome (agente agent);
                 line_status := inst_status agent;
                 line_currentTask := option_map task_titulo (currentTask agent) |})
           (values (agents o));
     status_queue := Queue.getStats (queue o) |}.

(** The signal snapshot [runTaskExecution] passes to [checkBlockTriggers]. *)
Definition runSnapshot : Persona.Signals :=
  {| Persona.uncertainty := Some 0%Q;
     Persona.requiresExternalAccess := Some false;
     Persona.isDestructive := Some false;
     Persona.estimatedCost := None; Persona.costLimit := None |}.

(** The state and the answer of an [executeTask] that starts [task] (its
    priority already overridden) on [selectedAgent]. *)
Definition started (o : t) (now : Z) (task : Task) (selectedAgent : AgentInstance)
  (context : option (list (string * jsval))) : t * (Error + ExecuteTaskResponse) :=
  let started := Queue.startExecution (queue o) now (task_id task) (inst_id selectedAgent) in
  ({| supabase :=
        Store.createMensagem
          (Store.assignTask (supabase o) (task_id task) (inst_id selectedAgent))
          (task_id task) (Some (inst_id selectedAgent))
          ("Starting work on task: " ++ task_titulo task) resposta;
      queue := fst started;
      personas := personas o;
      agents :=
        set (agents o) (inst_id selectedAgent)
          {| inst_id := inst_id selectedAgent; agente := agente selectedAgent;
             inst_status := working; currentTask := Some task;
             lastActivity := Some now; metrics := metrics selectedAgent |};
      notifications :=
        notifications o ++
        [{| notif_squad := task_squad_id task; notif_event := task_assigned;
            notif_task := Some (task_id task);
            notif_agent := Some (agente_id (agente selectedAgent)) |}];
      launched :=
        launched o ++
        [{| run_agent := inst_id selectedAgent; run_task := task;
            run_execution := snd started; run_context := context |}];
      isRunning := isRunning o |},
   inr {| resp_executionId := exec_id (snd started); resp_taskId := task_id task;
          resp_agentId := inst_id selectedAgent;
          resp_status := exec_status (snd started) |}).

(** The task [executeTask] works with: the stored row, with the priority of
    the request when it gives one. *)
Definition requested (task : Task) (request : ExecuteTaskRequest) : Task :=
  match req_priority request with
  | Some p => task_set_priority task p
  | None => task
  end.

(** ** Histories of method calls *)

Inductive Call : Type :=
| Initialize (now : Z) (agentes : list Agente) (tasks : list Task)
| RegisterAgent (agente : Agente)
| UnregisterAgent (agentId : string)
| ExecuteTask (now : Z) (request : ExecuteTaskRequest)
| PauseTask (now : Z) (taskId : string)
| ResumeTask (now : Z) (taskId : string)
| Start
| Stop
| ProcessNextTask (now : Z).

Definition perform (o : t) (c : Call) : t :=
  match c with
  | Initialize now agentes tasks => initialize o now agentes tasks
  | RegisterAgent agente => fst (registerAgent o agente)
  | UnregisterAgent agentId => fst (unregisterAgent o agentId)
  | ExecuteTask now request => fst (executeTask o now request)
  | PauseTask now taskId => fst (pauseTask o now taskId)
  | ResumeTask now taskId => fst (resumeTask o now taskId)
  | Start => start o
  | Stop => stop o
  | ProcessNextTask now => processNextTask o now
  end.

(** The orchestrator after a history of calls on a new instance. *)
Definition afterCalls (supabase : Store.t) (optMaxRetries : option nat)
  (history : list Call) : t :=
  fold_left perform history (create supabase optMaxRetries).

(** Every instance of the pool is stored under its own id, which is the id
    of its persona, and the persona registry holds that persona under the
    same id. *)
Definition mirrored (o : t) : Prop :=
  keys (agents o) = keys (personas o) /\
  wf (agents o) /\
  Forall (fun kv =>
            inst_id (snd kv) = fst kv /\
            agente_id (agente (snd kv)) = fst kv /\
            get (personas o) (fst kv) = Some (agente (snd kv)))
         (agents o).

End OrchestratorMore.

(* ================================================================== *)
(** * workflow-engine.ts: steps, the execution loop, templates *)
(* ================================================================== *)

Module WorkflowRun.
Import JsString JsMap Workflow.

Record AgentTaskConfig : Type := mkAgentTaskConfig {
  agentType : option string;
  cfg_agentId : option string;
  action : string;
  cfg_input : option (list (string * jsval));
  timeout : option Z
}.

Record ParallelConfig : Type := mkParallelConfig {
  par_steps : list string;
  waitAll : option bool
}.

Record WaitConfig : Type := mkWaitConfig {
  duration : option Z;
  until : option string;
  event : option string
}.

(** The [type] of a step together with its [config], which [executeStep]
    reads at the type the [type] field names. *)
Inductive StepConfig : Type :=
| AgentTask (config : AgentTaskConfig)
| Condition (config : ConditionConfig)
| Parallel (config : ParallelConfig)
| Wait (config : WaitConfig)
| Notify (config : NotifyConfig)
| Other (type : string).

(** A step of a workflow: the fields the loop reads, its name, and its type
    and configuration. *)
Record Step : Type := mkStep {
  step : WorkflowStep;
  step_name : string;
  config : StepConfig
}.

(** ** Agent task steps *)

(** The ways [executeAgentTask] ends. *)
Inductive AgentOutcome : Type :=
| Recorded
| Threw (message : string)
| SawCompleted (executionId : string)
| SawFailed (executionId : string)
| SawBlocked (executionId : string)
| TimedOut.

(** The [StepResult] returned at each of these ends. *)
Definition agentTaskResult (config : AgentTaskConfig) (o : AgentOutcome) : StepResult :=
  match o with
  | Recorded =>
      {| success := true; nextStepId := None; error := None;
         output := Some (JObj [("action", JStr (action config));
                               ("message", JStr "Action recorded")]) |}
  | Threw message =>
      {| success := false; nextStepId := None; error := Some message; output := None |}
  | SawCompleted executionId =>
      {| success := true; nextStepId := None; error := None;
         output := Some (JObj [("executionId", JStr executionId);
                               ("status", JStr "completed")]) |}
  | SawFailed executionId =>
      {| success := false; nextStepId := None; error := Some "Task execution failed";
         output := Some (JObj [("executionId", JStr executionId);
                               ("status", JStr "failed")]) |}
  | SawBlocked executionId =>
      {| success := true; nextStepId := None; error := None;
         output := Some (JObj [("executionId", JStr executionId);
                               ("status", JStr "blocked");
                               ("blocked", JBool true)]) |}
  | TimedOut =>
      {| success := false; nextStepId := None; error := Some "Task execution timed out";
         output := None |}
  end.

(** [{ ...base, ...extra }] *)
Definition spread (base extra : list (string * jsval)) : list (string * jsval) :=
  fold_left (fun acc kv => set acc (fst kv) (snd kv)) extra base.

(** [orchestrator.getTaskProgress(taskId)] for the value found under
    [input.taskId]: only a text is identical to the task id of an
    execution. *)
Definition progressOf (o : Orchestrator.t) (now : Z) (taskId : jsval)
  : option TaskProgress :=
  match taskId with
  | JStr s => Orchestrator.getTaskProgress o now s
  | _ => None
  end.

(** The polling loop.  The [k]-th pass reads the clock and the orchestrator
    as [observe k] gives them; between two passes lie the two seconds of
    [delay].  [None] when [fuel] passes have not decided. *)
Fixpoint poll (fuel : nat) (observe : nat -> Z * Orchestrator.t) (k : nat)
  (startTime timeout : Z) (taskId : jsval) (executionId : string)
  : option AgentOutcome :=
  match fuel with
  | O => None
  | S fuel' =>
      let '(now, o) := observe k in
      if (now - startTime <? timeout)%Z
      then
        match progressOf o now taskId with
        | None => Some TimedOut
        | Some progress =>
            match tp_status progress with
            | ex_completed => Some (SawCompleted executionId)
            | ex_failed => Some (SawFailed executionId)
            | ex_blocked => Some (SawBlocked executionId)
            | _ => poll fuel' observe (S k) startTime timeout taskId executionId
            end
        end
      else Some TimedOut
  end.

(** [config.timeout || 300000] *)
Definition timeoutOf (config : AgentTaskConfig) : Z :=
  match timeout config with
  | Some ms => if (ms =? 0)%Z then 300000%Z else ms
  | None => 300000%Z
  end.

(** The request [executeAgentTask] passes to [executeTask]; the store
    looks the task up under the text of the id. *)
Definition taskRequest (config : AgentTaskConfig) (context : Context)
  : ExecuteTaskRequest :=
  {| req_taskId :=
       match toStr (lookup (input context) "taskId") with
       | Returned id => id
       | Thrown _ => EmptyString
       end;
     req_agentId := cfg_agentId config;
     req_priority := None;
     req_context :=
       Some (spread (input context)
               (match cfg_input config with Some i => i | None => [] end)) |}.

(** [executeAgentTask]: [now] is the clock of [executeTask], [startTime] the
    reading taken when the polling starts.  A task id that has no text makes
    the lookup of the task throw. *)
Definition executeAgentTask (o : Orchestrator.t) (now startTime : Z)
  (observe : nat -> Z * Orchestrator.t) (fuel : nat)
  (config : AgentTaskConfig) (context : Context)
  : Orchestrator.t * option AgentOutcome :=
  let taskId := lookup (input context) "taskId" in
  if truthy taskId
  then
    match toStr taskId with
    | Thrown msg => (o, Some (Threw msg))
    | Returned _ =>
        match Orchestrator.executeTask o now (taskRequest config context) with
        | (o', inl err) => (o', Some (Threw (Orchestrator.errorMessage err)))
        | (o', inr result) =>
            (o', poll fuel observe 0 startTime (timeoutOf config) taskId
                   (resp_executionId result))
        end
    end
  else (o, Some Recorded).

(** ** Other steps *)

Definition executeParallel (config : ParallelConfig) : StepResult :=
  {| success := true; nextStepId := None; error := None;
     output := Some (JObj [("parallelSteps", JArr (map JStr (par_steps config)));
                           ("message", JStr "Parallel execution placeholder")]) |}.

Definition executeWait (config : WaitConfig) : StepResult :=
  if Persona.truthyNum (duration config)
  then {| success := true; nextStepId := None; error := None;
          output := Some (JObj [("waited",
                                 JNum (JsDouble.ofZ (Persona.num (duration config))))]) |}
  else if Persona.truthyStr (until config)
  then {| success := true; nextStepId := None; error := None;
          output := Some (JObj [("until", JStr (Persona.str (until config)))]) |}
  else if Persona.truthyStr (event config)
  then {| success := true; nextStepId := None; error := None;
          output := Some (JObj [("event", JStr (Persona.str (event config)))]) |}
  else {| success := true; nextStepId := None; error := None; output := None |}.

(** What a pass of the loop finds outside the engine: how an agent task
    ends, what the Discord forward answers, and whether the execution is
    still registered as active. *)
Record World : Type := mkWorld {
  agentTask : AgentTaskConfig -> Context -> AgentOutcome;
  send : string -> string -> option jsval -> SendResult;
  active : bool
}.

Definition executeStep (w : World) (s : Step) (context : Context) : StepResult :=
  match config s with
  | AgentTask c => agentTaskResult c (agentTask w c context)
  | Condition c => executeCondition c context
  | Parallel c => executeParallel c
  | Wait c => executeWait c
  | Notify c => executeNotify (send w) c context
  | Other type =>
      {| success := false; nextStepId := None;
         error := Some ("Unknown step type: " ++ type)%string; output := None |}
  end.

(** ** The loop of [runWorkflow] *)

Inductive Ending : Type :=
| Completed (results : list (string * jsval))
| Failed (reason : string)
| Stopped
| Unfinished.

(** A run: the indices of the steps executed, in order, and how it ended;
    [Unfinished] when the loop is still going after [fuel] passes. *)
Record Run : Type := mkRun {
  visited : list nat;
  ending : Ending
}.

Definition visit (i : nat) (r : Run) : Run :=
  {| visited := i :: visited r; ending := ending r |}.

(** [context.stepResults[step.id] = result.output], for a step id other than
    ['__proto__'] (assigning to that name sets the prototype of the object and
    adds no entry). *)
Definition record (context : Context) (s : Step) (result : StepResult) : Context :=
  {| input := input context;
     stepResults :=
       set (stepResults context) (step_id (step s))
         (match output result with Some v => v | None => JUndefined end) |}.

Fixpoint runLoop (steps : list Step) (world : nat -> World) (fuel pass : nat)
  (currentStepIndex : nat) (context : Context) : Run :=
  match fuel with
  | O => {| visited := []; ending := Unfinished |}
  | S fuel' =>
      match nth_error steps currentStepIndex with
      | None => {| visited := []; ending := Completed (stepResults context) |}
      | Some s =>
          if negb (active (world pass))
          then {| visited := []; ending := Stopped |}
          else
            let result := executeStep (world pass) s context in
            let context' := record context s result in
            match transfer (map step steps) currentStepIndex (step s) result with
            | FailWorkflow reason =>
                {| visited := [currentStepIndex]; ending := Failed reason |}
            | JumpOnFailure index | JumpNextStepId index
            | JumpOnSuccess index | Advance index =>
                visit currentStepIndex
                  (runLoop steps world fuel' (S pass) index context')
            end
      end
  end.

(** [runWorkflow] on an execution created by [startWorkflow]: from step 0,
    with the given input and no step results. *)
Definition runWorkflow (steps : list Step) (world : nat -> World) (fuel : nat)
  (input : list (string * jsval)) : Run :=
  runLoop steps world fuel 0 0 {| input := input; stepResults := [] |}.

(** ** Templates *)

Definition agentStep (id name : string) (agentType : option string) (action : string)
  (timeout : option Z) (onSuccess onFailure onBlock : option string) : Step :=
  {| step := {| step_id := id; onSuccess := onSuccess; onFailure := onFailure;
                onBlock := onBlock |};
     step_name := name;
     config := AgentTask {| agentType := agentType; cfg_agentId := None;
                            action := action; cfg_input := None;
                            timeout := timeout |} |}.

Definition notifyStep (id name message : string) : Step :=
  {| step := {| step_id := id; onSuccess := None; onFailure := None; onBlock := None |};
     step_name := name;
     config := Notify {| channel := discord; target := None; template := message;
                         embed := None |} |}.

(** [WORKFLOW_TEMPLATES['code-review'].steps] *)
Definition codeReview : list Step :=
  [agentStep "analyze" "Analyze Code" (Some "reviewer") "analyze_code" (Some 300000%Z)
     (Some "test") (Some "notify_failure") None;
   agentStep "test" "Run Tests" (Some "tester") "run_tests" (Some 600000%Z)
     (Some "check_results") (Some "notify_failure") None;
   {| step := {| step_id := "check_results"; onSuccess := None; onFailure := None;
                 onBlock := None |};
      step_name := "Check Test Results";
      config := Condition {| check := "results.test.success == true";
                             trueStep := "approve";
                             falseStep := "notify_failure" |} |};
   notifyStep "approve" "Notify Approval" "Code review passed! Ready for merge.";
   notifyStep "notify_failure" "Notify Failure"
     "Code review failed. Please check the issues."].

(** [WORKFLOW_TEMPLATES['task-assignment'].steps] *)
Definition taskAssignment : list Step :=
  [agentStep "assign" "Assign Task" None "auto_assign" None (Some "execute") None None;
   agentStep "execute" "Execute Task" None "execute" (Some 900000%Z)
     (Some "notify_complete") None (Some "notify_blocked");
   notifyStep "notify_complete" "Notify Completion"
     ("Task " ++ dquote ++ "{{input.taskTitle}}" ++ dquote ++ " completed successfully!");
   notifyStep "notify_blocked" "Notify Blocked"
     ("Task " ++ dquote ++ "{{input.taskTitle}}" ++ dquote
      ++ " is blocked and needs attention.")].

(** ** Vocabulary of the properties *)

(** The index a transfer continues at, if it continues. *)
Definition targetOf (t : Transfer) : option nat :=
  match t with
  | FailWorkflow _ => None
  | JumpOnFailure i | JumpNextStepId i | JumpOnSuccess i | Advance i => Some i
  end.

(** A step id names no step, or a step after position [i]. *)
Definition after (steps : list Step) (i : nat) (id : option string) : bool :=
  match named (map step steps) id with
  | Some j => (i <? j)%nat
  | None => true
  end.

(** Every jump that the step at position [i] can cause goes forward. *)
Definition stepForward (steps : list Step) (i : nat) (s : Step) : bool :=
  after steps i (onSuccess (step s)) && after steps i (onFailure (step s)) &&
  match config s with
  | Condition c => after steps i (Some (trueStep c)) && after steps i (Some (falseStep c))
  | _ => true
  end.

Fixpoint allForward (steps : list Step) (i : nat) (rest : list Step) : bool :=
  match rest with
  | [] => true
  | s :: rest' => stepForward steps i s && allForward steps (S i) rest'
  end.

Definition jumpsForward (steps : list Step) : bool := allForward steps 0 steps.

(** A step with another [onBlock]. *)
Definition withOnBlock (onBlock : Step -> option string) (s : Step) : Step :=
  {| step := {| step_id := step_id (step s); onSuccess := onSuccess (step s);
                onFailure := onFailure (step s); onBlock := onBlock s |};
     step_name := step_name s; config := config s |}.

(** The step ids under which the loop can store a result. *)
Definition storable (s : Step) : Prop := step_id (step s) <> "__proto__".

(** Every value of the input has a text: none is an object with an own
    [toString] property, or an array holding one. *)
Definition allConvertible (input : list (string * jsval)) : bool :=
  forallb (fun kv => match toStr (snd kv) with
                     | Returned _ => true
                     | Thrown _ => false
                     end) input.

Definition isCompleted (e : Ending) : bool :=
  match e with Completed _ => true | _ => false end.

Definition isFailed (e : Ending) : bool :=
  match e with Failed _ => true | _ => false end.

End WorkflowRun.

Module WorkflowSamples.
Import Workflow WorkflowRun.

(** A world in which agent tasks are only recorded, the Discord forward
    succeeds and nobody stops the execution. *)
Definition calm : nat -> World :=
  fun _ =>
    {| agentTask := fun _ _ => Recorded;
       send := fun _ _ _ => {| sent := true; sendError := None |};
       active := true |}.

(** A wait step that names itself as its successor. *)
Definition again : Step :=
  {| step := {| step_id := "again"; onSuccess := Some "again"; onFailure := None;
                onBlock := None |};
     step_name := "Again";
     config := Wait {| duration := None; until := None; event := Some "tick" |} |}.

Definition spinning : list Step := [again].

(** The request [executeAgentTask] makes for task t1 without configured
    agent or input. *)
Definition plainConfig : AgentTaskConfig :=
  {| agentType := None; cfg_agentId := None; action := "execute"; cfg_input := None;
     timeout := None |}.

Definition t1Context : Context :=
  {| input := [("taskId", JStr "t1")]; stepResults := [] |}.

(** The orchestrator as every pass of the polling sees it when nothing else
    happens after [executeTask] at time 5000. *)
Definition still : nat -> Z * Orchestrator.t :=
  fun _ =>
    (5000%Z,
     fst (Orchestrator.executeTask Samples.rerunOrchestrator 5000
            (taskRequest plainConfig t1Context))).

End WorkflowSamples.

(* ================================================================== *)
(** * Facts about maps and sorting *)
(* ================================================================== *)

Section JsMapFacts.
Import JsMap.
Context {V : Type}.

Lemma keys_set_in (m : jsmap V) k v x :
  In x (keys (set m k v)) <-> x = k \/ In x (keys m).
Proof.
  induction m as [|[k' v'] r IH]; simpl.
  - intuition.
  - destruct (String.eqb_spec k' k) as [->|Hne]; simpl.
    + intuition.
    + rewrite IH. intuition.
Qed.

Lemma wf_set (m : jsmap V) k v : wf m -> wf (set m k v).
Proof.
  unfold wf. induction m as [|[k' v'] r IH]; simpl; intros Hnd.
  - constructor; [intros []|constructor].
  - inversion Hnd as [|? ? Hnotin Hnd']; subst.
    destruct (String.eqb_spec k' k) as [->|Hne]; simpl.
    + constructor; assumption.
    + constructor; [|apply IH; assumption].
      intros Hin. apply keys_set_in in Hin. destruct Hin as [->|Hin]; auto.
Qed.

Lemma keys_delete (m : jsmap V) k :
  keys (delete m k) = filter (fun x => negb (String.eqb x k)) (keys m).
Proof.
  unfold keys, delete. induction m as [|[k' v'] r IH]; simpl; [reflexivity|].
  destruct (String.eqb k' k); simpl; rewrite IH; reflexivity.
Qed.

Lemma wf_delete (m : jsmap V) k : wf m -> wf (delete m k).
Proof.
  unfold wf. rewrite keys_delete. apply NoDup_filter.
Qed.

Lemma get_In (m : jsmap V) k v : get m k = Some v -> In (k, v) m.
Proof.
  induction m as [|[k' v'] r IH]; simpl; [discriminate|].
  destruct (String.eqb_spec k' k) as [->|Hne].
  - intros [= ->]. now left.
  - intros H. right. auto.
Qed.

Lemma In_get (m : jsmap V) k v : wf m -> In (k, v) m -> get m k = Some v.
Proof.
  unfold wf. induction m as [|[k' v'] r IH]; simpl; [intros _ []|].
  intros Hnd Hin. inversion Hnd as [|? ? Hnotin Hnd']; subst.
  destruct Hin as [[= -> ->]|Hin].
  - now rewrite String.eqb_refl.
  - destruct (String.eqb_spec k' k) as [->|Hne]; [|auto].
    exfalso. apply Hnotin. change k with (fst (k, v)). now apply in_map.
Qed.

Lemma get_set_same (m : jsmap V) k v : get (set m k v) k = Some v.
Proof.
  induction m as [|[k' v'] r IH]; simpl.
  - now rewrite String.eqb_refl.
  - destruct (String.eqb_spec k' k) as [->|Hne]; simpl.
    + now rewrite String.eqb_refl.
    + destruct (String.eqb_spec k' k); [contradiction|assumption].
Qed.

Lemma get_set_other (m : jsmap V) k k' v : k' <> k -> get (set m k v) k' = get m k'.
Proof.
  intros Hne. induction m as [|[k0 v0] r IH]; simpl.
  - destruct (String.eqb_spec k k'); [congruence|reflexivity].
  - destruct (String.eqb_spec k0 k) as [->|Hne0]; simpl.
    + destruct (String.eqb_spec k k'); [congruence|reflexivity].
    + destruct (String.eqb_spec k0 k'); [reflexivity|assumption].
Qed.

Lemma values_set_In (m : jsmap V) k v x :
  In x (values (set m k v)) -> x = v \/ In x (values m).
Proof.
  unfold values. induction m as [|[k' v'] r IH]; simpl.
  - intuition.
  - destruct (String.eqb_spec k' k) as [->|Hne]; simpl.
    + intuition.
    + intros [<-|H]; [now right; left|]. destruct (IH H); auto.
Qed.

Lemma values_delete_In (m : jsmap V) k x :
  In x (values (delete m k)) -> In x (values m).
Proof.
  unfold values, delete. rewrite !in_map_iff.
  intros ((k', v') & <- & Hin). apply filter_In in Hin.
  exists (k', v'). tauto.
Qed.

End JsMapFacts.

Section StableSortFacts.
Context {A : Type}.
Variable cmp : A -> A -> comparison.
Local Abbreviation notAfter := (notAfter cmp).
Local Abbreviation sort_insert := (sort_insert cmp).
Local Abbreviation js_sort := (js_sort cmp).

Lemma sort_insert_perm x l : Permutation (x :: l) (sort_insert x l).
Proof.
  induction l as [|y ys IH]; simpl; [reflexivity|].
  destruct (notAfter x y); [reflexivity|].
  rewrite perm_swap. now constructor.
Qed.

Lemma js_sort_perm l : Permutation l (js_sort l).
Proof.
  induction l as [|x xs IH]; simpl; [constructor|].
  rewrite <- sort_insert_perm. now constructor.
Qed.

Lemma js_sort_In l x : In x (js_sort l) <-> In x l.
Proof.
  split; apply Permutation_in; [symmetry|]; apply js_sort_perm.
Qed.

Lemma js_sort_length l : List.length (js_sort l) = List.length l.
Proof. symmetry. apply Permutation_length, js_sort_perm. Qed.

(** The comparator is consistent on the elements satisfying [P] when
    "not after" is total and transitive there. *)
Variable P : A -> Prop.
Hypothesis total :
  forall a b, P a -> P b -> notAfter a b = false -> notAfter b a = true.
Hypothesis trans :
  forall a b c, P a -> P b -> P c ->
    notAfter a b = true -> notAfter b c = true -> notAfter a c = true.

Lemma notAfter_refl a : P a -> notAfter a a = true.
Proof.
  intros Ha. destruct (notAfter a a) eqn:E; [reflexivity|].
  now rewrite (total _ _ Ha Ha E) in E.
Qed.

Lemma sort_insert_sorted x l :
  P x -> Forall P l ->
  StronglySorted (fun a b => notAfter a b = true) l ->
  StronglySorted (fun a b => notAfter a b = true) (sort_insert x l).
Proof.
  intros Hx Hl Hs. induction Hs as [|y ys Hs IH Hall]; simpl.
  - constructor; constructor.
  - inversion Hl as [|? ? Hy Hys]; subst.
    destruct (notAfter x y) eqn:E.
    + constructor; [constructor; assumption|].
      constructor; [assumption|].
      rewrite Forall_forall in *. intros z Hz. eapply (trans x y z); eauto.
    + constructor; [auto|].
      rewrite Forall_forall in *. intros z Hz.
      apply (Permutation_in _ (Permutation_sym (sort_insert_perm x ys))) in Hz.
      destruct Hz as [<-|Hz]; auto.
Qed.

Lemma js_sort_sorted l :
  Forall P l -> StronglySorted (fun a b => notAfter a b = true) (js_sort l).
Proof.
  induction l as [|x xs IH]; simpl; intros Hl; [constructor|].
  inversion Hl as [|? ? Hx Hxs]; subst. apply sort_insert_sorted.
  - exact Hx.
  - apply Forall_forall. intros z Hz. apply (proj1 (js_sort_In _ _)) in Hz.
    rewrite Forall_forall in Hxs. now apply Hxs.
  - apply IH. exact Hxs.
Qed.

(** The first element satisfying [p] in a sorted list: nothing before it
    satisfies [p], everything after it is not before it. *)
Lemma find_sorted_first (p : A -> bool) s e :
  StronglySorted (fun a b => notAfter a b = true) s ->
  find p s = Some e ->
  exists pre post,
    s = pre ++ e :: post /\ p e = true /\
    Forall (fun x => p x = false) pre /\
    Forall (fun x => notAfter e x = true) post.
Proof.
  induction 1 as [|y ys Hs IH Hall]; simpl; [discriminate|].
  destruct (p y) eqn:Ep.
  - intros [= <-]. exists [], ys. repeat split; auto.
  - intros Hf. destruct (IH Hf) as (pre & post & -> & He & Hpre & Hpost).
    exists (y :: pre), post. repeat split; auto.
Qed.

(** Elements of a prefix of a sorted list are not after those of the rest. *)
Lemma sorted_firstn_skipn k s a b :
  StronglySorted (fun a b => notAfter a b = true) s ->
  In a (firstn k s) -> In b (skipn k s) -> notAfter a b = true.
Proof.
  intros Hs. revert k. induction Hs as [|y ys Hs IH Hall]; intros k.
  - destruct k; simpl; intros [].
  - destruct k; simpl; [intros []|].
    intros [<-|Ha] Hb.
    + rewrite Forall_forall in Hall. apply Hall.
      rewrite <- (firstn_skipn k ys). apply in_or_app. now right.
    + eapply IH; eauto.
Qed.


End StableSortFacts.

(* ================================================================== *)
(** * The task queue *)
(* ================================================================== *)

Section QueueFacts.
Import JsMap Queue QueueProps.

Lemma notAfter_compareQueued a b :
  notAfter compareQueued a b = true <-> precedes a b.
Proof.
  unfold notAfter, compareQueued, precedes.
  destruct (Z.eqb_spec (qt_priority b) (qt_priority a)) as [E|E]; simpl.
  - destruct (Z.compare_spec (queuedAt a - queuedAt b) 0) as [C|C|C];
      split; intros H; try reflexivity; try discriminate; lia.
  - destruct (Z.compare_spec (qt_priority b - qt_priority a) 0) as [C|C|C];
      split; intros H; try reflexivity; try discriminate; lia.
Qed.

Lemma compareQueued_total a b :
  True -> True ->
  notAfter compareQueued a b = false -> notAfter compareQueued b a = true.
Proof.
  intros _ _ H. apply notAfter_compareQueued.
  assert (Hn : ~ precedes a b).
  { intros Hp. apply notAfter_compareQueued in Hp. congruence. }
  unfold precedes in *. lia.
Qed.

Lemma compareQueued_trans a b c :
  True -> True -> True ->
  notAfter compareQueued a b = true -> notAfter compareQueued b c = true ->
  notAfter compareQueued a c = true.
Proof.
  intros _ _ _. rewrite !notAfter_compareQueued. unfold precedes. lia.
Qed.

Lemma retryReady_eligible d now qt :
  entry_wf qt -> (retryReady d now qt = true <-> eligible d now qt).
Proof.
  unfold entry_wf, retryReady, eligible. intros Hwf.
  destruct (Nat.eqb_spec (attempts qt) 0) as [E|E].
  - split; auto.
  - destruct (lastAttempt qt) as [la|] eqn:El.
    + rewrite Z.geb_le. split.
      * intros H. right. exists la. split; [reflexivity|lia].
      * intros [H|(la' & [= <-] & H)]; [contradiction|lia].
    + exfalso. now apply Hwf.
Qed.

(** In every case [getNext] answers with the first retry-ready entry of the
    sorted queue. *)
Lemma getNext_find q now :
  getNext q now =
  option_map qt_task
    (find (retryReady (retryDelayMs q) now) (js_sort compareQueued (values (queue q)))).
Proof.
  unfold getNext, JsMap.size.
  destruct (queue q) as [|kv m] eqn:Eq; [reflexivity|].
  cbn [List.length Nat.eqb].
  destruct (js_sort compareQueued (values (kv :: m))) as [|next rest] eqn:Es;
    [reflexivity|].
  cbn [find].
  assert (Hr : retryReady (retryDelayMs q) now next =
               match (0 <? attempts next)%nat, lastAttempt next with
               | true, Some la => negb (now - la <? retryDelayMs q)%Z
               | _, _ => true
               end).
  { unfold retryReady. destruct (attempts next); [reflexivity|].
    cbn [Nat.eqb Nat.ltb Nat.leb]. destruct (lastAttempt next); [|reflexivity].
    now rewrite Z.geb_leb, Z.ltb_antisym, negb_involutive. }
  destruct (0 <? attempts next)%nat; destruct (lastAttempt next) as [la|];
    try (rewrite Hr; reflexivity).
  destruct (now - la <? retryDelayMs q)%Z; cbn [negb] in Hr; rewrite Hr; reflexivity.
Qed.

(** ** Claim C1 *)

(** C1. On a queue holding an eligible entry, [getNext] returns the task of
    the first eligible entry met in priority order (higher priority first,
    equal priorities by earlier enqueue time): no eligible entry precedes it,
    whether or not the top entry of the queue is itself eligible.  When no
    entry is eligible, in particular on an empty queue, it returns nothing. *)
Theorem getNext_first_eligible (q : TaskQueue) (now : Z) :
  queue_wf q ->
  let entries := values (queue q) in
  let sorted := js_sort compareQueued entries in
  StronglySorted precedes sorted /\
  ((exists e, In e entries /\ eligible (retryDelayMs q) now e) ->
   exists e pre post,
     getNext q now = Some (qt_task e) /\
     In e entries /\ eligible (retryDelayMs q) now e /\
     (forall e', In e' entries -> eligible (retryDelayMs q) now e' -> precedes e e') /\
     sorted = pre ++ e :: post /\
     Forall (fun x => ~ eligible (retryDelayMs q) now x) pre) /\
  ((forall e, In e entries -> ~ eligible (retryDelayMs q) now e) ->
   getNext q now = None).
Proof.
  intros Hwf entries sorted.
  assert (Hsorted : StronglySorted (fun a b => notAfter compareQueued a b = true) sorted).
  { apply (js_sort_sorted compareQueued (fun _ => True));
      [apply compareQueued_total|apply compareQueued_trans|].
    apply Forall_forall. trivial. }
  assert (Hwf' : forall x, In x sorted -> entry_wf x).
  { intros x Hx. apply js_sort_In in Hx. unfold queue_wf in Hwf.
    rewrite Forall_forall in Hwf. now apply Hwf. }
  split; [|split].
  - clear -Hsorted. induction Hsorted as [|a l Hs IH Hall]; constructor; auto.
    eapply Forall_impl; [|exact Hall]. intros b. apply notAfter_compareQueued.
  - intros (e0 & Hin0 & Hel0).
    rewrite getNext_find. fold entries. fold sorted.
    destruct (find (retryReady (retryDelayMs q) now) sorted) as [e|] eqn:Ef.
    + destruct (find_sorted_first compareQueued _ _ _ Hsorted Ef)
        as (pre & post & Hsplit & Hpe & Hpre & Hpost).
      assert (Hine : In e sorted) by (rewrite Hsplit; apply in_or_app; right; now left).
      exists e, pre, post. split; [reflexivity|].
      split; [now apply js_sort_In in Hine|].
      split; [apply retryReady_eligible; auto|].
      split; [|split; [exact Hsplit|]].
      * intros e' Hin' Hel'. apply notAfter_compareQueued.
        apply (js_sort_In compareQueued) in Hin'. fold entries in Hin'. fold sorted in Hin'.
        rewrite Hsplit in Hin'. apply in_app_or in Hin'.
        destruct Hin' as [Hin'|[<-|Hin']].
        -- exfalso. rewrite Forall_forall in Hpre. specialize (Hpre _ Hin').
           assert (Hw : entry_wf e').
           { apply Hwf'. rewrite Hsplit. apply in_or_app. now left. }
           apply (retryReady_eligible _ _ _ Hw) in Hel'. congruence.
        -- apply (notAfter_refl compareQueued (fun _ => True));
             [apply compareQueued_total|trivial].
        -- rewrite Forall_forall in Hpost. now apply Hpost.
      * rewrite Forall_forall in *. intros x Hx Hel.
        assert (Hw : entry_wf x).
        { apply Hwf'. rewrite Hsplit. apply in_or_app. now left. }
        apply (retryReady_eligible _ _ _ Hw) in Hel. rewrite (Hpre _ Hx) in Hel.
        discriminate.
    + exfalso. apply (js_sort_In compareQueued) in Hin0.
      fold entries in Hin0. fold sorted in Hin0.
      pose proof (find_none _ _ Ef _ Hin0) as Hn.
      apply (retryReady_eligible _ _ _ (Hwf' _ Hin0)) in Hel0. congruence.
  - intros Hnone. rewrite getNext_find. fold entries. fold sorted.
    destruct (find (retryReady (retryDelayMs q) now) sorted) as [e|] eqn:Ef; [|reflexivity].
    exfalso. apply find_some in Ef. destruct Ef as [Hin He].
    apply (Hnone e); [now apply js_sort_In in Hin|].
    apply retryReady_eligible; auto.
Qed.

End QueueFacts.

(* ================================================================== *)
(** * The execution ledger: cleanup *)
(* ================================================================== *)

Section CleanupFacts.
Import JsMap Queue QueueProps.

Lemma deleteAll_spec doomed : forall m n,
  deleteAll m doomed n =
  (filter (fun kv => negb (doomedKey doomed kv)) m, (n + List.length doomed)%nat).
Proof.
  induction doomed as [|d rest IH]; intros m n; simpl.
  - f_equal; [|lia]. induction m as [|x m IHm]; simpl; [reflexivity|].
    now rewrite <- IHm.
  - rewrite IH. f_equal; [|lia].
    unfold delete, doomedKey. induction m as [|x m IHm]; simpl; [reflexivity|].
    destruct (String.eqb (fst x) (fst d)); simpl; [exact IHm|].
    destruct (existsb (String.eqb (fst x)) (keys rest)); simpl; [exact IHm|].
    now rewrite IHm.
Qed.

Lemma filter_all {T : Type} (f : T -> bool) (l : list T) :
  (forall x, f x = true) -> filter f l = l.
Proof.
  intros Hf. induction l as [|x l IH]; simpl; [reflexivity|].
  now rewrite Hf, IH.
Qed.

Lemma key_unique {V : Type} (m : jsmap V) a b :
  wf m -> In a m -> In b m -> fst a = fst b -> a = b.
Proof.
  unfold wf, keys. induction m as [|x m IH]; simpl; [intros _ []|].
  intros Hnd Ha Hb E. inversion Hnd as [|? ? Hnotin Hnd']; subst.
  destruct Ha as [->|Ha], Hb as [->|Hb]; auto.
  - exfalso. apply Hnotin. rewrite E. now apply in_map.
  - exfalso. apply Hnotin. rewrite <- E. now apply in_map.
Qed.

Lemma NoDup_app_disjoint_l {T : Type} (l1 l2 : list T) x :
  NoDup (l1 ++ l2) -> In x l1 -> In x l2 -> False.
Proof.
  induction l1 as [|y l1 IH]; simpl; [intros _ []|].
  intros Hnd [->|Hin] Hin2; inversion Hnd as [|? ? Hnotin Hnd']; subst.
  - apply Hnotin. apply in_or_app. now right.
  - eauto.
Qed.

Lemma compareCompleted_noOlder a b :
  notAfter compareCompleted a b = true -> noOlder a b.
Proof.
  unfold notAfter, compareCompleted, noOlder. intros H ta tb Ea Eb.
  rewrite Ea, Eb in H.
  destruct (Z.compare_spec (tb - ta) 0) as [C|C|C]; first [lia|discriminate].
Qed.

Lemma compareCompleted_total a b :
  completedTime a <> None -> completedTime b <> None ->
  notAfter compareCompleted a b = false -> notAfter compareCompleted b a = true.
Proof.
  unfold notAfter, compareCompleted.
  destruct (completedTime a) as [ta|], (completedTime b) as [tb|]; try congruence.
  intros _ _.
  destruct (Z.compare_spec (tb - ta) 0) as [C|C|C]; try discriminate.
  destruct (Z.compare_spec (ta - tb) 0) as [C'|C'|C']; first [reflexivity|lia].
Qed.

Lemma compareCompleted_trans a b c :
  completedTime a <> None -> completedTime b <> None -> completedTime c <> None ->
  notAfter compareCompleted a b = true -> notAfter compareCompleted b c = true ->
  notAfter compareCompleted a c = true.
Proof.
  unfold notAfter, compareCompleted.
  destruct (completedTime a) as [ta|], (completedTime b) as [tb|],
    (completedTime c) as [tc|]; try congruence.
  intros _ _ _.
  destruct (Z.compare_spec (tb - ta) 0) as [C|C|C]; try discriminate;
  destruct (Z.compare_spec (tc - tb) 0) as [C'|C'|C']; try discriminate;
  destruct (Z.compare_spec (tc - ta) 0) as [C''|C''|C'']; first [reflexivity|lia].
Qed.

(** ** Claim C8 *)

(** C8. [cleanup(keepLast)] keeps exactly the first [keepLast] finished
    (completed or failed) executions in order of completion, most recent
    first: every finished execution it keeps completed no earlier than any
    execution it removes.  It removes the other finished executions and
    nothing else, and returns how many it removed.  Executions that are not
    finished, running ones in particular, always stay; on a ledger of running
    executions only it removes nothing. *)
Theorem cleanup_keeps_most_recent (q : TaskQueue) (keepLast : nat) :
  ledger_wf q ->
  let before := executions q in
  let after := executions (fst (cleanup q keepLast)) in
  let removed := snd (cleanup q keepLast) in
  let finished := filter isFinished before in
  let ranked := js_sort compareCompleted finished in
  (forall kv, In kv after /\ isFinished kv = true <-> In kv (firstn keepLast ranked)) /\
  (forall kv, In kv before /\ ~ In kv after <-> In kv (skipn keepLast ranked)) /\
  (forall kept gone,
     In kept after -> isFinished kept = true ->
     In gone before -> ~ In gone after -> noOlder kept gone) /\
  (forall kv, In kv before -> isFinished kv = false -> In kv after) /\
  (forall kv, In kv after -> In kv before) /\
  List.length (firstn keepLast ranked) = Nat.min keepLast (List.length finished) /\
  removed = (List.length finished - keepLast)%nat /\
  (removed + List.length after = List.length before)%nat /\
  queue (fst (cleanup q keepLast)) = queue q /\
  (Forall (fun kv => exec_status (execution (snd kv)) = ex_running) before ->
   removed = 0%nat /\ after = before).
Proof.
  intros [Hnd Htimes] before after removed finished ranked.
  set (doomed := skipn keepLast ranked).
  assert (Hafter : after = filter (fun kv => negb (doomedKey doomed kv)) before).
  { unfold after, cleanup. fold before. fold finished. fold ranked. fold doomed.
    rewrite deleteAll_spec. reflexivity. }
  assert (Hremoved : removed = List.length doomed).
  { unfold removed, cleanup. fold before. fold finished. fold ranked. fold doomed.
    rewrite deleteAll_spec. reflexivity. }
  assert (Hranked : forall kv, In kv ranked <-> In kv before /\ isFinished kv = true).
  { intros kv. unfold ranked. rewrite js_sort_In. unfold finished. apply filter_In. }
  assert (HndRanked : NoDup ranked).
  { apply (Permutation_NoDup (js_sort_perm compareCompleted finished)).
    apply NoDup_filter. apply (NoDup_map_inv fst). exact Hnd. }
  assert (Hsplit : ranked = firstn keepLast ranked ++ doomed)
    by (symmetry; apply firstn_skipn).
  assert (Hdoomed : forall kv, In kv before -> (doomedKey doomed kv = true <-> In kv doomed)).
  { intros kv Hin. unfold doomedKey. rewrite existsb_exists. split.
    - intros (k & Hk & E). apply String.eqb_eq in E. unfold keys in Hk.
      apply in_map_iff in Hk. destruct Hk as (d & <- & Hd).
      assert (Hdb : In d before).
      { apply Hranked. rewrite Hsplit. apply in_or_app. now right. }
      now rewrite (key_unique before kv d Hnd Hin Hdb E).
    - intros Hd. exists (fst kv). split; [now apply in_map|apply String.eqb_refl]. }
  assert (Hsorted : StronglySorted (fun a b => notAfter compareCompleted a b = true) ranked).
  { apply (js_sort_sorted compareCompleted (fun kv => completedTime kv <> None)).
    - apply compareCompleted_total.
    - apply compareCompleted_trans.
    - apply Forall_forall. intros kv Hkv. apply filter_In in Hkv.
      rewrite Forall_forall in Htimes. destruct Hkv. now apply Htimes. }
  assert (Hgone : forall kv, In kv before /\ ~ In kv after <-> In kv doomed).
  { intros kv. rewrite Hafter, filter_In. split.
    - intros [Hin Hn]. apply Hdoomed; [exact Hin|].
      destruct (doomedKey doomed kv); [reflexivity|]. exfalso. apply Hn. now split.
    - intros Hd.
      assert (Hin : In kv before).
      { apply Hranked. rewrite Hsplit. apply in_or_app. now right. }
      split; [exact Hin|]. intros [_ Hn].
      apply (Hdoomed kv Hin) in Hd. rewrite Hd in Hn. discriminate. }
  assert (Hkept : forall kv,
            In kv after /\ isFinished kv = true <-> In kv (firstn keepLast ranked)).
  { intros kv. split.
    - intros [Hin Hf]. rewrite Hafter in Hin. apply filter_In in Hin.
      destruct Hin as [Hin Hn].
      assert (Hr : In kv ranked) by (apply Hranked; now split).
      rewrite Hsplit in Hr. apply in_app_or in Hr. destruct Hr as [Hr|Hr]; [exact Hr|].
      apply (Hdoomed kv Hin) in Hr. rewrite Hr in Hn. discriminate.
    - intros Hk.
      assert (Hr : In kv ranked) by (rewrite Hsplit; apply in_or_app; now left).
      apply Hranked in Hr. destruct Hr as [Hin Hf]. split; [|exact Hf].
      rewrite Hafter. apply filter_In. split; [exact Hin|].
      destruct (doomedKey doomed kv) eqn:E; [|reflexivity].
      exfalso. apply (Hdoomed kv Hin) in E. rewrite Hsplit in HndRanked.
      exact (NoDup_app_disjoint_l _ _ kv HndRanked Hk E). }
  split; [exact Hkept|]. split; [exact Hgone|]. split.
  { intros kept gone Hk Hf Hg Hn. apply compareCompleted_noOlder.
    apply (sorted_firstn_skipn compareCompleted keepLast ranked); [exact Hsorted| |].
    - apply Hkept. now split.
    - apply Hgone. now split. }
  split.
  { intros kv Hin Hf. rewrite Hafter. apply filter_In. split; [exact Hin|].
    destruct (doomedKey doomed kv) eqn:E; [|reflexivity].
    apply (Hdoomed kv Hin) in E.
    assert (Hr : In kv ranked) by (rewrite Hsplit; apply in_or_app; now right).
    apply Hranked in Hr. destruct Hr as [_ Hr]. congruence. }
  split.
  { intros kv. rewrite Hafter, filter_In. tauto. }
  split.
  { rewrite length_firstn. unfold ranked. now rewrite js_sort_length. }
  split.
  { rewrite Hremoved. unfold doomed. rewrite length_skipn. unfold ranked.
    now rewrite js_sort_length. }
  split.
  { rewrite Hremoved, Hafter.
    rewrite <- (filter_length (fun kv => negb (doomedKey doomed kv)) before).
    rewrite Nat.add_comm. f_equal.
    apply Permutation_length. apply NoDup_Permutation.
    - rewrite Hsplit in HndRanked. now apply NoDup_app_remove_l in HndRanked.
    - apply NoDup_filter. apply (NoDup_map_inv fst). exact Hnd.
    - intros kv. rewrite filter_In, negb_involutive. split.
      + intros Hd. assert (Hin : In kv before) by (now apply Hgone).
        split; [exact Hin|]. now apply (Hdoomed kv Hin).
      + intros [Hin E]. now apply (Hdoomed kv Hin). }
  split.
  { unfold cleanup. fold before. fold finished. fold ranked. fold doomed.
    rewrite deleteAll_spec. reflexivity. }
  intros Hrunning.
  assert (Hnone : finished = []).
  { unfold finished. clear -Hrunning. induction before as [|x m IH]; [reflexivity|].
    inversion Hrunning as [|? ? Hx Hm]; subst. simpl. unfold isFinished at 1.
    rewrite Hx. simpl. now apply IH. }
  assert (Hd : doomed = []).
  { unfold doomed, ranked. rewrite Hnone. simpl. now destruct keepLast. }
  split; [now rewrite Hremoved, Hd|].
  rewrite Hafter, Hd. apply filter_all. reflexivity.
Qed.

End CleanupFacts.

Section LedgerSamples.
Import JsMap Queue QueueProps Samples.

Lemma getNext_first_eligible_witness :
  exists e, getNext retryQueue 3000 = Some (qt_task e) /\
            eligible (retryDelayMs retryQueue) 3000 e.
Proof.
  assert (Hwf : queue_wf retryQueue).
  { unfold queue_wf. repeat constructor; unfold entry_wf; simpl; congruence. }
  destruct (getNext_first_eligible retryQueue 3000 Hwf) as (_ & Hsome & _).
  destruct Hsome as (e & pre & post & Hnext & _ & Hel & _).
  - exists (mkQueuedTask (task "t2" (Some 1%Z)) 1 1100 0 None).
    split; [simpl; auto|]. left. reflexivity.
  - exists e. split; assumption.
Defined.

Lemma cleanup_keeps_most_recent_witness :
  snd (cleanup ledger 1) =
  (List.length (filter isFinished (executions ledger)) - 1)%nat.
Proof.
  assert (Hwf : ledger_wf ledger).
  { split.
    - unfold wf. vm_compute. repeat constructor; simpl; intuition discriminate.
    - vm_compute. repeat constructor; intros H; first [discriminate H|discriminate]. }
  destruct (cleanup_keeps_most_recent ledger 1 Hwf) as (_ & _ & _ & _ & _ & _ & H & _).
  exact H.
Defined.

End LedgerSamples.

(* ================================================================== *)
(** * Invariants of the queue and the ledger *)
(* ================================================================== *)

Section QueueInvariants.
Import JsMap Queue QueueProps.

Lemma set_Forall {V : Type} (P : string * V -> Prop) (m : jsmap V) k v :
  Forall P m -> P (k, v) -> Forall P (set m k v).
Proof.
  intros Hm Hv. induction Hm as [|[k' v'] r Hx Hr IH]; simpl.
  - constructor; [exact Hv|constructor].
  - destruct (String.eqb k' k); constructor; auto.
Qed.

Lemma set_values_Forall {V : Type} (P : V -> Prop) (m : jsmap V) k v :
  Forall P (values m) -> P v -> Forall P (values (set m k v)).
Proof.
  intros Hm Hv. apply Forall_forall. intros x Hx.
  apply values_set_In in Hx. destruct Hx as [->|Hx]; [exact Hv|].
  rewrite Forall_forall in Hm. now apply Hm.
Qed.

Lemma delete_values_Forall {V : Type} (P : V -> Prop) (m : jsmap V) k :
  Forall P (values m) -> Forall P (values (delete m k)).
Proof.
  intros Hm. apply Forall_forall. intros x Hx. apply values_delete_In in Hx.
  rewrite Forall_forall in Hm. now apply Hm.
Qed.

Lemma get_values_In {V : Type} (m : jsmap V) k v : get m k = Some v -> In v (values m).
Proof.
  intros H. apply get_In in H. unfold values. change v with (snd (k, v)).
  now apply in_map.
Qed.

Lemma wf_filter {V : Type} (f : string * V -> bool) (m : jsmap V) :
  wf m -> wf (filter f m).
Proof.
  unfold wf, keys. induction m as [|x m IH]; simpl; intros Hnd; [constructor|].
  inversion Hnd as [|? ? Hnotin Hnd']; subst.
  destruct (f x); simpl; [|now apply IH].
  constructor; [|now apply IH].
  intros Hin. apply Hnotin. apply in_map_iff in Hin.
  destruct Hin as (y & Ey & Hy). apply filter_In in Hy.
  rewrite <- Ey. apply in_map. tauto.
Qed.

Lemma enqueue_queue_wf q now task priority :
  queue_wf q -> queue_wf (enqueue q now task priority).
Proof.
  unfold queue_wf, enqueue. simpl. intros H. apply set_values_Forall; [exact H|].
  intros Hne. now contradiction Hne.
Qed.

Lemma dequeue_queue_wf q taskId : queue_wf q -> queue_wf (fst (dequeue q taskId)).
Proof.
  unfold queue_wf, dequeue. intros H.
  destruct (get (queue q) taskId); simpl; [|exact H].
  now apply delete_values_Forall.
Qed.

Lemma ledger_wf_only_executions q q' :
  executions q' = executions q -> ledger_wf q -> ledger_wf q'.
Proof. unfold ledger_wf. now intros ->. Qed.

Lemma queue_wf_only_queue q q' : queue q' = queue q -> queue_wf q -> queue_wf q'.
Proof. unfold queue_wf. now intros ->. Qed.

(** Replacing a state by one that has its completion time when it is
    finished keeps the ledger well formed. *)
Lemma set_ledger_wf q executionId st :
  ledger_wf q -> finishedHasTime (executionId, st) ->
  ledger_wf (with_executions q (set (executions q) executionId st)).
Proof.
  unfold ledger_wf. simpl. intros [Hnd Hf] Hst. split.
  - now apply wf_set.
  - now apply set_Forall.
Qed.

Lemma get_finishedHasTime q executionId st :
  ledger_wf q -> get (executions q) executionId = Some st ->
  finishedHasTime (executionId, st).
Proof.
  intros [_ Hf] Hget. rewrite Forall_forall in Hf.
  exact (Hf _ (get_In _ _ _ Hget)).
Qed.

Lemma addLog_ledger_wf q now executionId level msg data :
  ledger_wf q -> ledger_wf (addLog q now executionId level msg data).
Proof.
  intros Hwf. unfold addLog. destruct (get (executions q) executionId) as [st|] eqn:E;
    [|exact Hwf].
  apply set_ledger_wf; [exact Hwf|].
  exact (get_finishedHasTime q executionId st Hwf E).
Qed.

Lemma syncLoop_executions now ids tasks : forall q,
  executions (syncLoop q now ids tasks) = executions q.
Proof.
  induction tasks as [|t tasks IH]; intros q; simpl; [reflexivity|].
  rewrite IH.
  destruct (TaskStatus_eqb (task_status t) backlog && negb (has q (task_id t))
            && negb (existsb (String.eqb (task_id t)) ids)); reflexivity.
Qed.

Lemma perform_queue_wf q c : queue_wf q -> queue_wf (perform q c).
Proof.
  intros Hwf. destruct c; simpl.
  - now apply enqueue_queue_wf.
  - now apply dequeue_queue_wf.
  - unfold updatePriority. destruct (get (queue q) taskId) as [qt|] eqn:E; [|exact Hwf].
    simpl. unfold queue_wf in *. simpl. apply set_values_Forall; [exact Hwf|].
    rewrite Forall_forall in Hwf. exact (Hwf qt (get_values_In _ _ _ E)).
  - unfold markAttempt. destruct (get (queue q) taskId) as [qt|]; [|exact Hwf].
    unfold queue_wf in *. simpl. apply set_values_Forall; [exact Hwf|].
    intros _. simpl. discriminate.
  - unfold startExecution. apply dequeue_queue_wf. exact Hwf.
  - unfold updateProgress. destruct (get (executions q) executionId); [|exact Hwf].
    destruct msg as [m|]; [destruct (JsString.truthy m)|]; try exact Hwf.
    unfold addLog. simpl.
    destruct (get (set (executions q) executionId _) executionId); exact Hwf.
  - unfold addLog. destruct (get (executions q) executionId); exact Hwf.
  - unfold completeExecution. destruct (get (executions q) executionId); [|exact Hwf].
    simpl. unfold addLog. simpl.
    destruct (get (set (executions q) executionId _) executionId); exact Hwf.
  - unfold failExecution. destruct (get (executions q) executionId); [|exact Hwf].
    simpl. unfold addLog. simpl.
    destruct (get (set (executions q) executionId _) executionId); exact Hwf.
  - unfold blockExecution. destruct (get (executions q) executionId); [|exact Hwf].
    simpl. unfold addLog. simpl.
    destruct (get (set (executions q) executionId _) executionId); exact Hwf.
  - unfold cleanup.
    destruct (deleteAll (executions q)
                (skipn keepLast (js_sort compareCompleted (filter isFinished (executions q))))
                0). exact Hwf.
  - unfold syncFromTasks.
    generalize (map exec_taskId (getActiveExecutions q)). intros ids.
    revert q Hwf. induction tasks as [|t tasks IH]; intros q Hwf; simpl; [exact Hwf|].
    apply IH.
    destruct (TaskStatus_eqb (task_status t) backlog && negb (has q (task_id t))
              && negb (existsb (String.eqb (task_id t)) ids)); [|exact Hwf].
    now apply enqueue_queue_wf.
Qed.

Lemma perform_ledger_wf q c : ledger_wf q -> ledger_wf (perform q c).
Proof.
  intros Hwf. destruct c; simpl.
  - exact Hwf.
  - unfold dequeue. destruct (get (queue q) taskId); exact Hwf.
  - unfold updatePriority. destruct (get (queue q) taskId); exact Hwf.
  - unfold markAttempt. destruct (get (queue q) taskId); exact Hwf.
  - unfold startExecution. cbn [fst].
    match goal with |- ledger_wf (fst (dequeue ?q1 _)) =>
      assert (H1 : ledger_wf q1)
    end.
    { apply set_ledger_wf; [exact Hwf|].
      intros H. unfold isFinished in H. simpl in H. discriminate H. }
    unfold dequeue.
    match goal with |- ledger_wf (fst (match ?g with _ => _ end)) => destruct g end;
      [|exact H1].
    eapply ledger_wf_only_executions; [|exact H1]. reflexivity.
  - unfold updateProgress.
    destruct (get (executions q) executionId) as [st|] eqn:E; [|exact Hwf].
    assert (H1 : ledger_wf
                   (with_executions q
                      (set (executions q) executionId
                         (state_set_execution st
                            (exec_set_progress (execution st)
                               (Z.min 100 (Z.max 0 progress))))))).
    { apply set_ledger_wf; [exact Hwf|].
      exact (get_finishedHasTime q executionId st Hwf E). }
    destruct msg as [m|]; [destruct (JsString.truthy m)|]; try exact H1.
    now apply addLog_ledger_wf.
  - now apply addLog_ledger_wf.
  - unfold completeExecution.
    destruct (get (executions q) executionId) as [st|] eqn:E; [|exact Hwf].
    simpl. apply addLog_ledger_wf. apply set_ledger_wf; [exact Hwf|].
    intros _ Hc. unfold completedTime in Hc. simpl in Hc. discriminate Hc.
  - unfold failExecution.
    destruct (get (executions q) executionId) as [st|] eqn:E; [|exact Hwf].
    simpl. apply addLog_ledger_wf. apply set_ledger_wf; [exact Hwf|].
    intros _ Hc. unfold completedTime in Hc. simpl in Hc. discriminate Hc.
  - unfold blockExecution.
    destruct (get (executions q) executionId) as [st|] eqn:E; [|exact Hwf].
    simpl. apply addLog_ledger_wf. apply set_ledger_wf; [exact Hwf|].
    intros H. unfold isFinished in H. simpl in H. discriminate H.
  - unfold cleanup. rewrite deleteAll_spec. simpl.
    destruct Hwf as [Hnd Hf]. split; simpl.
    + now apply wf_filter.
    + rewrite Forall_forall in *. intros kv Hkv. apply filter_In in Hkv.
      apply Hf. tauto.
  - eapply ledger_wf_only_executions; [|exact Hwf].
    apply syncLoop_executions.
Qed.

(** Every queue obtained from a new [TaskQueue] by calling its methods
    satisfies both invariants. *)
Lemma afterCalls_wf optMaxRetries optRetryDelayMs history :
  queue_wf (afterCalls optMaxRetries optRetryDelayMs history) /\
  ledger_wf (afterCalls optMaxRetries optRetryDelayMs history).
Proof.
  unfold afterCalls.
  assert (H0 : queue_wf (create optMaxRetries optRetryDelayMs) /\
               ledger_wf (create optMaxRetries optRetryDelayMs)).
  { split; [constructor|]. split; constructor. }
  revert H0. generalize (create optMaxRetries optRetryDelayMs).
  induction history as [|c history IH]; intros q [Hq Hl]; simpl; [now split|].
  apply IH. split; [now apply perform_queue_wf|now apply perform_ledger_wf].
Qed.

End QueueInvariants.

(* ================================================================== *)
(** * Doubles *)
(* ================================================================== *)

Section DoubleFacts.
Import JsDouble.
Local Open Scope Z_scope.



















End DoubleFacts.

(* ================================================================== *)
(** * Retry bookkeeping *)
(* ================================================================== *)

Section RetryFacts.
Import JsMap Queue QueueProps Samples.

(** ** Claim C2 *)

(** C2 (defect in the code). [enqueue] always stores a fresh entry, so
    enqueueing a task id that is already queued sets its attempt count back
    to 0.  The retry path of the background tick does exactly that right
    after [markAttempt]: the count it has just raised to 1 is 0 again when the
    tick ends, however many ticks fail. *)
Theorem enqueue_resets_attempts :
  (forall q now task priority,
     attemptsOf (enqueue q now task priority) (task_id task) = Some 0%nat) /\
  attemptsOf retryQueue "t1" = Some 1%nat /\
  attemptsOf (enqueue retryQueue 3000 (task "t1" (Some 5%Z)) (Some 5%Z)) "t1"
    = Some 0%nat /\
  attemptsOf
    (markAttempt (Orchestrator.queue staleOrchestrator) 2000 "t1") "t1" = Some 1%nat /\
  attemptsOf
    (Orchestrator.queue (Orchestrator.processNextTask staleOrchestrator 2000)) "t1"
    = Some 0%nat /\
  attemptsOf
    (Orchestrator.queue
       (Orchestrator.processNextTask
          (Orchestrator.processNextTask
             (Orchestrator.processNextTask
                (Orchestrator.processNextTask staleOrchestrator 2000) 7000) 12000) 17000))
    "t1" = Some 0%nat.
Proof.
  split; [|repeat split; reflexivity].
  intros q now task priority. unfold attemptsOf, enqueue. simpl.
  now rewrite get_set_same.
Qed.

End RetryFacts.

(* ================================================================== *)
(** * The orchestrator *)
(* ================================================================== *)

Section OrchestratorFacts.
Import JsMap Orchestrator OrchestratorProps Samples.

Lemma firstByTaskId_first states taskId : forall pre st post,
  states = pre ++ st :: post ->
  exec_taskId (Queue.execution st) = taskId ->
  Forall (fun s => exec_taskId (Queue.execution s) <> taskId) pre ->
  Queue.firstByTaskId states taskId = Some (Queue.execution st).
Proof.
  intros pre st post -> Hst Hpre. induction Hpre as [|s pre Hs Hpre IH]; simpl.
  - rewrite Hst. now rewrite String.eqb_refl.
  - destruct (String.eqb_spec (exec_taskId (Queue.execution s)) taskId); [contradiction|].
    exact IH.
Qed.

(** ** Claim C10 *)

(** C10. When the ledger lists an execution of a task before any other
    execution of that task, [getExecutionByTaskId] returns that first one,
    whatever later executions of the task follow it, and [getTaskProgress]
    reports the agent, status and progress of that first execution. *)
Theorem getExecutionByTaskId_first_inserted
  (o : Orchestrator.t) (now : Z) (taskId : string)
  (pre post : list Queue.ExecutionState) (st : Queue.ExecutionState) :
  values (Queue.executions (queue o)) = pre ++ st :: post ->
  exec_taskId (Queue.execution st) = taskId ->
  Forall (fun s => exec_taskId (Queue.execution s) <> taskId) pre ->
  Queue.getExecutionByTaskId (queue o) taskId = Some (Queue.execution st) /\
  exists p,
    getTaskProgress o now taskId = Some p /\
    tp_agentId p = exec_agentId (Queue.execution st) /\
    tp_status p = exec_status (Queue.execution st) /\
    tp_progress p = exec_progress (Queue.execution st).
Proof.
  intros Hsplit Hst Hpre.
  assert (H : Queue.getExecutionByTaskId (queue o) taskId = Some (Queue.execution st)).
  { unfold Queue.getExecutionByTaskId. eapply firstByTaskId_first; eauto. }
  split; [exact H|].
  unfold getTaskProgress. rewrite H. eexists. split; [reflexivity|].
  simpl. auto.
Qed.

Lemma getExecutionByTaskId_first_inserted_witness :
  exists p,
    getTaskProgress rerunOrchestrator 5000 "t1" = Some p /\
    tp_agentId p = "a1" /\ tp_status p = ex_failed /\ tp_progress p = 0%Z.
Proof.
  destruct (getExecutionByTaskId_first_inserted rerunOrchestrator 5000 "t1" []
              (tl (values (Queue.executions rerunLedger)))
              (hd {| Queue.execution :=
                       mkTaskExecution EmptyString EmptyString EmptyString ex_pending 0 [] None None 0 None;
                     Queue.logs := []; Queue.startTime := 0 |}
                  (values (Queue.executions rerunLedger))))
    as (_ & p & Hp & Ha & Hs & Hg).
  - reflexivity.
  - reflexivity.
  - constructor.
  - exists p. repeat split; assumption.
Defined.




(** ** Claim C3 *)




(** ** Claim C4 *)

(** C4 as worded fails: the empty text is a given agent id that is not
    registered, yet [executeTask] treats it as absent, selects an agent and
    writes the assignment to the store. *)
Lemma rejectsUnregistered_fails : ~ rejectsUnregistered.
Proof.
  intros H.
  destruct (H readyOrchestrator 2000%Z
              {| req_taskId := "t1"; req_agentId := Some EmptyString;
                 req_priority := None; req_context := None |}
              EmptyString (task "t1" (Some 5%Z)) eq_refl eq_refl eq_refl) as [Hres _].
  discriminate Hres.
Qed.

(** C4. When the request names a non-empty agent id that is not registered in
    the pool, and the store has the task, [executeTask] fails with
    AgentNotFound and changes nothing: no store write, no execution in the
    ledger, no change to queue or agents, no notification, no run launched. *)
Theorem executeTask_unregistered_agent
  (o : Orchestrator.t) (now : Z) (request : ExecuteTaskRequest)
  (agentId : string) (task : Task) :
  Store.getTask (supabase o) (req_taskId request) = Some task ->
  req_agentId request = Some agentId ->
  agentId <> EmptyString ->
  get (agents o) agentId = None ->
  executeTask o now request = (o, inl (AgentNotFound agentId)) /\
  untouched o (fst (executeTask o now request)).
Proof.
  intros Htask Hreq Hne Hget.
  assert (H : executeTask o now request = (o, inl (AgentNotFound agentId))).
  { unfold executeTask. rewrite Htask, Hreq. simpl.
    destruct agentId as [|c s]; [contradiction|]. simpl.
    now rewrite Hget. }
  split; [exact H|]. rewrite H. simpl. unfold untouched. repeat split.
Qed.

Lemma executeTask_unregistered_agent_witness :
  executeTask readyOrchestrator 2000
    {| req_taskId := "t1"; req_agentId := Some "ghost";
       req_priority := None; req_context := None |}
  = (readyOrchestrator, inl (AgentNotFound "ghost")).
Proof.
  refine (proj1 (executeTask_unregistered_agent readyOrchestrator 2000 _ "ghost"
                   (task "t1" (Some 5%Z)) _ _ _ _));
    [reflexivity|reflexivity|discriminate|reflexivity].
Defined.

End OrchestratorFacts.

(* ================================================================== *)
(** * The persona manager *)
(* ================================================================== *)

Section PersonaFacts.
Import JsString Persona PersonaProps Samples.

Lemma fold_push {T : Type} (f : T -> string) (l : list T) : forall init,
  fold_left (fun parts x => push parts (f x)) l init = init ++ map f l.
Proof.
  induction l as [|x l IH]; intros init; simpl.
  - now rewrite app_nil_r.
  - rewrite IH. unfold push. now rewrite <- app_assoc.
Qed.

Lemma pushIf_app (c : bool) (parts : list string) (s : string) :
  pushIf c parts s = parts ++ (if c then [s] else []).
Proof. unfold pushIf, push. destruct c; [reflexivity|now rewrite app_nil_r]. Qed.

(** ** Claim C7 *)

(** C7. [buildSystemPrompt] reads nothing but its two arguments: its text is
    the persona narrative, the rules section, the limiters section, the
    block-triggers section and the task context, in this order, joined by
    line breaks; equal arguments give equal text. *)
Theorem buildSystemPrompt_sections (agente : Agente) (context : option PromptContext) :
  buildSystemPrompt agente context =
  join newline
    (personaSection agente ++ rulesSection agente ++ limitersSection agente ++
     triggersSection agente ++ contextSection context) /\
  (forall agente' context',
     agente' = agente -> context' = context ->
     buildSystemPrompt agente' context' = buildSystemPrompt agente context).
Proof.
  split; [|intros ? ? -> ->; reflexivity].
  unfold buildSystemPrompt. f_equal.
  unfold personaSection, rulesSection, limitersSection, triggersSection, contextSection.
  rewrite !pushIf_app.
  destruct (regras agente) as [r|]; [destruct (truthyBool (autoComplete r))|];
    destruct (limitadores agente) as [l|];
    destruct (hasItems (gatilhos_bloqueio agente));
    destruct (truthyStr
                match context with Some c => taskTitle c | None => None end
              || truthyStr
                match context with Some c => taskDescription c | None => None end);
    rewrite ?fold_push, ?pushIf_app; unfold push;
    repeat rewrite <- app_assoc; rewrite ?app_nil_l, ?app_nil_r;
    repeat rewrite <- app_assoc; rewrite ?app_nil_l, ?app_nil_r;
    reflexivity.
Qed.




(** ** Claim C6 *)



End PersonaFacts.

(* ================================================================== *)
(** * The workflow engine *)
(* ================================================================== *)

Section WorkflowFacts.
Import JsString Workflow WorkflowProps Samples.

Lemma split_aux_nonempty sep s : forall k cur, split_aux sep s k cur <> [].
Proof.
  induction s as [|c s IH]; intros k cur; cbn [split_aux]; [congruence|].
  destruct k; [|apply IH].
  destruct (startsWith (String c s) sep); [congruence|apply IH].
Qed.

(** A text that includes a non-empty separator splits in at least two. *)
Lemma includes_split (sep s : string) :
  sep <> EmptyString -> includes s sep = true ->
  exists a b rest, split s sep = a :: b :: rest.
Proof.
  intros Hsep. unfold split. generalize EmptyString as cur.
  induction s as [|c s IH]; intros cur Hinc.
  - destruct sep; [contradiction|simpl in Hinc; discriminate].
  - cbn [includes] in Hinc. cbn [split_aux].
    destruct (startsWith (String c s) sep) eqn:E.
    + destruct (split_aux sep s (String.length sep - 1) EmptyString) as [|b rest] eqn:Er.
      * now apply split_aux_nonempty in Er.
      * now exists cur, b, rest.
    + cbn [orb] in Hinc. now apply IH.
Qed.

Lemma map_trim_split (sep s : string) :
  sep <> EmptyString -> includes s sep = true ->
  exists a b rest, map trim (split s sep) = a :: b :: rest.
Proof.
  intros Hsep Hinc. destruct (includes_split sep s Hsep Hinc) as (a & b & rest & ->).
  simpl. eauto.
Qed.

Lemma applyOperator_total op l r :
  In op operators -> exists b, applyOperator op l r = Some b.
Proof.
  unfold operators. simpl.
  intros [<-|[<-|[<-|[<-|[<-|[<-|[<-|[<-|[]]]]]]]]]; eexists; reflexivity.
Qed.

Lemma operators_nonempty op : In op operators -> op <> EmptyString.
Proof.
  unfold operators. simpl.
  intros [<-|[<-|[<-|[<-|[<-|[<-|[<-|[<-|[]]]]]]]]]; discriminate.
Qed.

(** The loop stops at the first listed operator that the expression
    includes, and ends as that comparison ends. *)
Lemma scanOperators_first (expression : string) (context : Context) :
  forall ops,
    (forall op, In op ops -> In op operators) ->
    match find (includes expression) ops with
    | Some op =>
        exists lhs rhs rest r,
          map trim (split expression op) = lhs :: rhs :: rest /\
          applyOperator op (resolveVariable lhs context) (parseValue rhs) = Some r /\
          scanOperators ops expression context = Some r
    | None => scanOperators ops expression context = None
    end.
Proof.
  induction ops as [|op ops IH]; intros Hops; simpl; [reflexivity|].
  destruct (includes expression op) eqn:E.
  - assert (Hop : In op operators) by (apply Hops; now left).
    destruct (map_trim_split op expression (operators_nonempty op Hop) E)
      as (lhs & rhs & rest & Hs).
    destruct (applyOperator_total op (resolveVariable lhs context) (parseValue rhs) Hop)
      as (b & Hb).
    exists lhs, rhs, rest, b. rewrite Hs, Hb. auto.
  - apply IH. intros op' Hin. apply Hops. now right.
Qed.

(** The right side of a comparison is a primitive value: its conversion to
    a number returns. *)
Lemma toNumber_parseValue (value : string) :
  exists x, toNumber (parseValue value) = Returned x.
Proof.
  unfold parseValue.
  destruct (String.eqb (trim value) "true"); [eexists; reflexivity|].
  destruct (String.eqb (trim value) "false"); [eexists; reflexivity|].
  destruct (String.eqb (trim value) "null"); [eexists; reflexivity|].
  destruct (negb (JsDouble.isNaN (JsDouble.ofString (trim value))));
    [eexists; reflexivity|].
  destruct (_ || _); eexists; reflexivity.
Qed.

(** A comparison throws exactly when it compares numbers and its left side
    has no number. *)
Lemma applyOperator_thrown (op : string) (l : Resolved) (value msg : string) :
  applyOperator op l (parseValue value) = Some (Thrown msg)
  <-> relational op = true /\ numberOf l = Thrown msg.
Proof.
  destruct (toNumber_parseValue value) as (x & Hx).
  unfold applyOperator, relational, compareNumbers. rewrite Hx. cbn [existsb].
  destruct (String.eqb_spec op "===") as [->|N1]; [cbn; intuition discriminate|].
  destruct (String.eqb_spec op "==") as [->|N2]; [cbn; intuition discriminate|].
  destruct (String.eqb_spec op "!==") as [->|N3]; [cbn; intuition discriminate|].
  destruct (String.eqb_spec op "!=") as [->|N4]; [cbn; intuition discriminate|].
  cbn [orb].
  destruct (String.eqb_spec op ">") as [->|N5];
    [cbn; destruct (numberOf l); intuition congruence|].
  destruct (String.eqb_spec op "<") as [->|N6];
    [cbn; destruct (numberOf l); intuition congruence|].
  destruct (String.eqb_spec op ">=") as [->|N7];
    [cbn; destruct (numberOf l); intuition congruence|].
  destruct (String.eqb_spec op "<=") as [->|N8];
    [cbn; destruct (numberOf l); intuition congruence|].
  cbn. intuition discriminate.
Qed.

(** The evaluator throws exactly when the first checklist operator of a
    plain comparison is relational and the left side has no number. *)
Lemma evaluateCondition_thrown (expression : string) (context : Context) (msg : string) :
  evaluateCondition expression context = Thrown msg
  <-> leftSideFails expression context msg.
Proof.
  unfold evaluateCondition, leftSideFails.
  destruct (endsWith expression ".exists"); [intuition discriminate|].
  destruct (includes expression " contains ") eqn:E.
  - destruct (map_trim_split " contains " expression) as (a & b & rest & ->);
      [discriminate|exact E|].
    split; [|intuition discriminate].
    destruct (resolveVariable a context) as [[]| | |]; discriminate.
  - pose proof (scanOperators_first expression context operators (fun _ H => H)) as H.
    unfold firstOperator.
    destruct (find (includes expression) operators) as [op|].
    + destruct H as (lhs & rhs & rest & r & Hs & Ha & ->). split.
      * intros ->. apply applyOperator_thrown in Ha. destruct Ha as [Hrel Hnum].
        split; [reflexivity|]. split; [reflexivity|].
        exists op, lhs, rhs, rest. auto.
      * intros (_ & _ & op' & lhs' & rhs' & rest' & [= <-] & Hrel & Hs' & Hnum).
        rewrite Hs in Hs'. injection Hs' as <- <- _.
        assert (Ht : applyOperator op (resolveVariable lhs context) (parseValue rhs)
                     = Some (Thrown msg)) by (apply applyOperator_thrown; auto).
        congruence.
    + rewrite H. split; [discriminate|].
      intros (_ & _ & op' & _ & _ & _ & Hop & _). discriminate Hop.
Qed.

(** ** Claim C5 *)

(** C5 as worded fails: in "input.msg contains '>'" the first checklist
    operator present is ">", but the expression is a membership test and is
    evaluated as one; on a message "a>b" it is true, while the comparison
    at ">" is false. *)
Lemma firstOperatorDecides_fails : ~ firstOperatorDecides.
Proof.
  intros H.
  destruct (H "input.msg contains '>'"%string context ">"%string eq_refl)
    as (lhs & rhs & rest & Hs & Ha).
  vm_compute in Hs. injection Hs as <- <- _.
  vm_compute in Ha. discriminate Ha.
Qed.

(** C5. For an expression that is neither an [.exists] test nor a
    [contains] test and in which some checklist operator occurs, the
    evaluator applies the first operator of the checklist
    [===, !==, ==, !=, >=, <=, >, <] that occurs in it, to the two sides of
    the expression split at that operator.  When the evaluation returns,
    the condition step reports success, names [trueStep] as next step when
    the expression holds and [falseStep] otherwise, never takes the failure
    transfer, and jumps to the named step whenever the workflow has it.  The
    evaluation throws exactly when that first operator is one of
    [>=, <=, >, <] and the left side cannot be converted to a number, as an
    object with an own [toString] property cannot; the step then reports
    failure with the error and takes the failure transfer.  The condition
    [input.x > 1] on the input [{ x: { toString: 1 } }] is such a step. *)
Theorem condition_first_operator :
  (forall expression context op,
     endsWith expression ".exists" = false ->
     includes expression " contains " = false ->
     firstOperator expression = Some op ->
     comparesWith op expression context) /\
  (forall config context b,
     evaluateCondition (check config) context = Returned b ->
     success (executeCondition config context) = true /\
     nextStepId (executeCondition config context)
       = Some (if b then trueStep config else falseStep config) /\
     forall steps index step,
       isFailure (transfer steps index step (executeCondition config context)) = false /\
       forall j,
         named steps (Some (if b then trueStep config else falseStep config)) = Some j ->
         transfer steps index step (executeCondition config context) = JumpNextStepId j) /\
  (forall config context msg,
     evaluateCondition (check config) context = Thrown msg ->
     success (executeCondition config context) = false /\
     error (executeCondition config context) = Some msg /\
     nextStepId (executeCondition config context) = None /\
     forall steps index step,
       isFailure (transfer steps index step (executeCondition config context)) = true /\
       forall j,
         named steps (onFailure step) = Some j ->
         transfer steps index step (executeCondition config context) = JumpOnFailure j) /\
  (forall expression context msg,
     evaluateCondition expression context = Thrown msg
     <-> leftSideFails expression context msg) /\
  evaluateCondition "input.x > 1" opaqueContext = Thrown conversionError /\
  success (executeCondition (checkStep "input.x > 1") opaqueContext) = false.
Proof.
  split; [|split; [|split; [|split; [|split; reflexivity]]]].
  - intros expression context op Hex Hco Hop. unfold comparesWith, firstOperator in *.
    pose proof (scanOperators_first expression context operators (fun _ H => H)) as H.
    rewrite Hop in H. destruct H as (lhs & rhs & rest & r & Hs & Ha & Hscan).
    exists lhs, rhs, rest. split; [exact Hs|].
    unfold evaluateCondition. now rewrite Hex, Hco, Hscan.
  - intros config context b Hb. unfold executeCondition. rewrite Hb.
    cbn [success nextStepId]. repeat split.
    + unfold transfer. cbn [success negb nextStepId].
      destruct (named steps (Some (if b then trueStep config else falseStep config)));
        [reflexivity|].
      destruct (named steps (onSuccess step)); reflexivity.
    + intros j Hj. unfold transfer. cbn [success negb nextStepId]. now rewrite Hj.
  - intros config context msg Hm. unfold executeCondition. rewrite Hm.
    cbn [success error nextStepId]. repeat split.
    + unfold transfer. cbn [success negb]. destruct (named steps (onFailure step));
        reflexivity.
    + intros j Hj. unfold transfer. cbn [success negb]. now rewrite Hj.
  - exact evaluateCondition_thrown.
Qed.

Lemma condition_first_operator_witness :
  comparesWith ">=" "input.score >= 1"
    {| input := [("score", JNum 3%float)]; stepResults := [] |}.
Proof.
  apply (proj1 condition_first_operator); reflexivity.
Defined.

(** ** Claim C9 *)

(** C9 (defect in the code). The interpolation loops look for [{{key}}] and
    [{{results.step}}]: a token [{{input.x}}] or [{{results.step.x}}], as the
    engine's own workflow templates write them, is left in the message as it
    is, while [{{taskTitle}}] is replaced.  On the sample context a step
    with a Discord target succeeds with the interpolated message when the
    forward succeeds, and fails with the error of the forward when it
    fails. *)
Theorem notify_leaves_namespaced_tokens :
  notifiedMessage (executeNotify delivered (notifyStep completedTemplate) context)
    = Some completedTemplate /\
  notifiedMessage (executeNotify delivered (notifyStep standupTemplate) context)
    = Some standupTemplate /\
  notifiedMessage (executeNotify delivered (notifyStep "Task {{taskTitle}}") context)
    = Some "Task Fix login"%string /\
  executeNotify delivered (notifyTo "general" "Task {{taskTitle}}") context
    = {| success := true; nextStepId := None; error := None;
         output := Some (JObj [("channel", JStr "discord");
                               ("message", JStr "Task Fix login")]) |} /\
  executeNotify refused (notifyTo "general" "Task {{taskTitle}}") context
    = {| success := false; nextStepId := None; error := Some "Webhook not found";
         output := None |} /\
  notifiedMessage (executeNotify delivered (notifyTo "general" completedTemplate) context)
    = Some completedTemplate.
Proof. repeat split; reflexivity. Qed.

End WorkflowFacts.

(* ================================================================== *)
(** * Scenarios *)
(* ================================================================== *)

Section Scenarios.
Import JsMap Samples.

(** Two tasks of priorities 5 and 1: the first is next; once its execution
    has started it is no longer queued and exactly one running execution
    exists for it. *)
Example scenario_priority_then_start :
  let q := Queue.enqueue (Queue.create None None) 1000 (task "t1" (Some 5%Z)) None in
  let q := Queue.enqueue q 1100 (task "t2" (Some 1%Z)) None in
  let q' := fst (Queue.startExecution q 2000 "t1" "agentA") in
  option_map task_id (Queue.getNext q 1500) = Some "t1"%string /\
  map task_id (Queue.getAll q') = ["t2"%string] /\
  Queue.has q' "t1" = false /\
  map exec_taskId (Queue.getActiveExecutions q') = ["t1"%string].
Proof. repeat split; reflexivity. Qed.

(** Equal priorities: the task enqueued first is next. *)
Example scenario_ties_fifo :
  let q := Queue.enqueue (Queue.create None None) 1100 (task "late" (Some 3%Z)) None in
  let q := Queue.enqueue q 1000 (task "early" (Some 3%Z)) None in
  option_map task_id (Queue.getNext q 1500) = Some "early"%string.
Proof. reflexivity. Qed.

(** The top entry is waiting for its retry delay: the next eligible entry is
    returned; once the delay has passed the top entry is returned again. *)
Example scenario_retry_delay :
  option_map task_id (Queue.getNext retryQueue 3000) = Some "t2"%string /\
  option_map task_id (Queue.getNext retryQueue 7000) = Some "t1"%string.
Proof. split; reflexivity. Qed.

(** [canRetry] holds while attempts are below [maxRetries]. *)
Example scenario_canRetry :
  let q := Queue.enqueue (Queue.create (Some 2%nat) None) 1000 (task "t1" None) None in
  let q1 := Queue.markAttempt q 2000 "t1" in
  let q2 := Queue.markAttempt q1 3000 "t1" in
  Queue.canRetry q "t1" = true /\ Queue.canRetry q1 "t1" = true /\
  Queue.canRetry q2 "t1" = false /\ Queue.canRetry q "absent" = false.
Proof. repeat split; reflexivity. Qed.

(** [cleanup(0)] on running executions only removes nothing. *)
Example scenario_cleanup_running_only :
  let q := fst (Queue.startExecution (Queue.create None None) 1000 "t1" "a1") in
  let q := fst (Queue.startExecution q 2000 "t2" "a2") in
  snd (Queue.cleanup q 0) = 0%nat /\
  keys (Queue.executions (fst (Queue.cleanup q 0))) = keys (Queue.executions q).
Proof. split; reflexivity. Qed.

(** [cleanup(1)] on the sample ledger keeps the latest finished execution and
    the running one. *)
Example scenario_cleanup_keep_one :
  snd (Queue.cleanup ledger 1) = 2%nat /\
  keys (Queue.executions (fst (Queue.cleanup ledger 1)))
    = ["exec_t3_3000"%string; "exec_t4_3500"%string].
Proof. split; reflexivity. Qed.

(** An empty agent id is a request for automatic selection: the task is
    assigned to the idle agent, and the assignment and the message of the
    starting run are written to the store. *)
Example scenario_empty_agent_id :
  let r := Orchestrator.executeTask readyOrchestrator 2000
             {| req_taskId := "t1"; req_agentId := Some EmptyString;
                req_priority := None; req_context := None |} in
  option_map resp_agentId (match snd r with inr x => Some x | inl _ => None end)
    = Some "a1"%string /\
  Store.writes (Orchestrator.supabase (fst r))
    = [Store.AssignTask "t1" "a1";
       Store.CreateMensagem "t1" (Some "a1") "Starting work on task: t1" resposta] /\
  map exec_taskId (Queue.getActiveExecutions (Orchestrator.queue (fst r)))
    = ["t1"%string].
Proof. repeat split; reflexivity. Qed.

(** The sample pool: the busy and the inactive agent are skipped, the slower
    agent scores less, and of the two equal agents the first listed wins. *)
Example scenario_selectAgent :
  option_map inst_id (Orchestrator.selectAgent pool (task "t1" None))
    = Some "good"%string /\
  Orchestrator.selectAgent
    [("busy", instance "busy" working true 0 0 0%float);
     ("off", instance "off" idle false 0 0 0%float)] (task "t1" None) = None.
Proof. split; reflexivity. Qed.

(** A condition on a step result routes to [trueStep]. *)
Example scenario_condition_routes :
  let ctx := {| Workflow.input := [];
                Workflow.stepResults :=
                  [("test", JObj [("success", JBool true)])] |} in
  let cfg := {| Workflow.check := "results.test.success == true";
                Workflow.trueStep := "approve";
                Workflow.falseStep := "notify_failure" |} in
  Workflow.evaluateCondition (Workflow.check cfg) ctx = Workflow.Returned true /\
  Workflow.nextStepId (Workflow.executeCondition cfg ctx) = Some "approve"%string.
Proof. split; reflexivity. Qed.

(** Expressions with several operator substrings: the checklist order
    decides. *)
Example scenario_operator_order :
  WorkflowProps.firstOperator "input.n >= 5" = Some ">="%string /\
  WorkflowProps.firstOperator "input.n !== 5" = Some "!=="%string /\
  WorkflowProps.firstOperator "input.a < 3 == true" = Some "=="%string /\
  Workflow.evaluateCondition "input.n >= 5"
    {| Workflow.input := [("n", JNum 5)]; Workflow.stepResults := [] |}
    = Workflow.Returned true.
Proof. repeat split; reflexivity. Qed.

(** Steps [A (onSuccess = C); B; C]: a successful A transfers to C. *)
Example scenario_onSuccess_skips :
  let a := {| Workflow.step_id := "A"; Workflow.onSuccess := Some "C"%string;
              Workflow.onFailure := None; Workflow.onBlock := None |} in
  let b := {| Workflow.step_id := "B"; Workflow.onSuccess := None;
              Workflow.onFailure := None; Workflow.onBlock := None |} in
  let c := {| Workflow.step_id := "C"; Workflow.onSuccess := None;
              Workflow.onFailure := None; Workflow.onBlock := None |} in
  Workflow.transfer [a; b; c] 0 a
    {| Workflow.success := true; Workflow.nextStepId := None;
       Workflow.error := None; Workflow.output := None |}
  = Workflow.JumpOnSuccess 2.
Proof. reflexivity. Qed.

(** The cost trigger of the default list fires on a cost above its limit. *)
Example scenario_cost_trigger :
  let trigger := {| condition := "cost_exceeds_limit";
                    message := "Estimated cost exceeds configured limit";
                    notifyChannel := None; requiresApproval := Some true |} in
  let profile := {| agente_id := "a1"; agente_squad_id := "squad-1"; nome := "a1";
                    tipo := None; soul := None; regras := None; limitadores := None;
                    gatilhos_bloqueio := Some [trigger]; ativo := true |} in
  Persona.checkBlockTriggers profile
    {| Persona.uncertainty := None; Persona.requiresExternalAccess := None;
       Persona.isDestructive := None;
       Persona.estimatedCost := Some 100%Q; Persona.costLimit := Some 50%Q |}
  = Some trigger.
Proof. reflexivity. Qed.

(** The prompt of a small profile. *)
Example scenario_prompt :
  Persona.buildSystemPrompt
    {| agente_id := "a1"; agente_squad_id := "squad-1"; nome := "a1"; tipo := None;
       soul := Some "You are careful."%string;
       regras := Some {| allowedTaskTypes := Some ["review"%string; "test"%string];
                         forbiddenActions := None; mustAskBefore := None;
                         autoComplete := Some true; maxTasksPerDay := None |};
       limitadores := Some {| maxTokensPerTask := None; maxApiCallsPerTask := None;
                              maxDurationMinutes := Some 15%Z;
                              cooldownMinutes := None; lim_maxRetries := None |};
       gatilhos_bloqueio := None; ativo := true |}
    (Some {| Persona.taskTitle := Some "Fix login"%string;
             Persona.taskDescription := None |})
  = JsString.join JsString.newline
      ["You are careful."%string;
       (JsString.newline ++ "## Rules and Guidelines")%string;
       "- You are specialized in: review, test"%string;
       "- You should complete tasks autonomously when possible"%string;
       (JsString.newline ++ "## Constraints")%string;
       "- Maximum task duration: 15 minutes"%string;
       (JsString.newline ++ "## Current Task")%string;
       "**Title:** Fix login"%string].
Proof. reflexivity. Qed.

End Scenarios.

(* ================================================================== *)
(** * More on the queue and the ledger *)
(* ================================================================== *)

Section MoreMapFacts.
Import JsMap.
Context {V : Type}.

Lemma get_delete_same (m : jsmap V) k : get (delete m k) k = None.
Proof.
  unfold delete. induction m as [|[k' v'] r IH]; simpl; [reflexivity|].
  destruct (String.eqb_spec k' k) as [->|Hne]; simpl; [exact IH|].
  destruct (String.eqb_spec k' k); [contradiction|exact IH].
Qed.

Lemma get_delete_other (m : jsmap V) k k' : k' <> k -> get (delete m k) k' = get m k'.
Proof.
  intros Hne. unfold delete. induction m as [|[k0 v0] r IH]; simpl; [reflexivity|].
  destruct (String.eqb_spec k0 k) as [->|Hne0]; simpl.
  - destruct (String.eqb_spec k k'); [congruence|exact IH].
  - destruct (String.eqb_spec k0 k'); [reflexivity|exact IH].
Qed.

Lemma keys_set (m : jsmap V) k v :
  keys (set m k v) = if has m k then keys m else keys m ++ [k].
Proof.
  unfold has, keys. induction m as [|[k' v'] r IH]; simpl; [reflexivity|].
  destruct (String.eqb_spec k' k) as [->|Hne]; simpl; [reflexivity|].
  rewrite IH. destruct (get r k); reflexivity.
Qed.

Lemma has_keys (m : jsmap V) k : has m k = true <-> In k (keys m).
Proof.
  unfold has, keys. induction m as [|[k' v'] r IH]; simpl.
  - split; [discriminate|intros []].
  - destruct (String.eqb_spec k' k) as [->|Hne].
    + split; auto.
    + rewrite IH. split; [auto|]. intros [H|H]; [contradiction|exact H].
Qed.

Lemma get_None_set (m : jsmap V) k v : get m k = None -> set m k v = m ++ [(k, v)].
Proof.
  induction m as [|[k' v'] r IH]; simpl; [reflexivity|].
  destruct (String.eqb_spec k' k) as [->|Hne]; [discriminate|].
  intros H. now rewrite IH.
Qed.

End MoreMapFacts.

Section MoreQueueFacts.
Import JsMap Queue QueueProps LedgerProps.

(** X1. A task that is enqueued and then dequeued comes back as it was given,
    the queue no longer has it, and every other entry is as before the two
    calls. *)
Theorem enqueue_dequeue_roundtrip (q : TaskQueue) (now : Z) (task : Task)
  (priority : option Z) :
  let q' := enqueue q now task priority in
  has q' (task_id task) = true /\
  snd (dequeue q' (task_id task)) = Some task /\
  has (fst (dequeue q' (task_id task))) (task_id task) = false /\
  (forall other, other <> task_id task ->
     get (queue (fst (dequeue q' (task_id task)))) other = get (queue q) other) /\
  executions (fst (dequeue q' (task_id task))) = executions q.
Proof.
  intros q'. unfold has, JsMap.has, dequeue. subst q'. unfold enqueue. simpl.
  rewrite get_set_same. simpl. rewrite get_delete_same.
  repeat split.
  intros other Hne. rewrite get_delete_other, get_set_other; auto.
Qed.

(** X2. [enqueue] is an upsert keyed by the task id: a queued id keeps its
    place and the queue its size, a new id goes last; the stored entry has the
    explicit priority, else the task's own, else 0, no attempts and no last
    attempt; other entries are untouched. *)
Theorem enqueue_upsert (q : TaskQueue) (now : Z) (task : Task) (priority : option Z) :
  let q' := enqueue q now task priority in
  keys (queue q') =
    (if has q (task_id task) then keys (queue q)
     else keys (queue q) ++ [task_id task]) /\
  size q' = (if has q (task_id task) then size q else S (size q)) /\
  get (queue q') (task_id task) =
    Some {| qt_task := task;
            qt_priority :=
              match priority, task_priority task with
              | Some p, _ => p
              | None, Some p => p
              | None, None => 0%Z
              end;
            queuedAt := now; attempts := 0; lastAttempt := None |} /\
  (forall other, other <> task_id task ->
     get (queue q') other = get (queue q) other).
Proof.
  intros q'. subst q'. unfold enqueue, has, size, JsMap.size. simpl.
  split; [apply keys_set|]. split.
  - rewrite <- !(length_map fst). change (map fst) with (@keys QueuedTask).
    rewrite keys_set. destruct (JsMap.has (queue q) (task_id task)); [reflexivity|].
    rewrite length_app. simpl. lia.
  - split.
    + rewrite get_set_same. unfold effectivePriority.
      destruct priority, (task_priority task); reflexivity.
    + intros other Hne. now apply get_set_other.
Qed.

(** X3. [startExecution] takes the task out of the pending queue and records
    a running execution with progress 0 for it: the execution it returns can
    be looked up by its id and is listed among the active executions; other
    queue entries and other executions are untouched. *)
Theorem startExecution_moves_task (q : TaskQueue) (now : Z) (taskId agentId : string) :
  let q' := fst (startExecution q now taskId agentId) in
  let e := snd (startExecution q now taskId agentId) in
  has q' taskId = false /\
  getExecution q' (exec_id e) = Some e /\
  exec_taskId e = taskId /\ exec_agentId e = agentId /\
  exec_status e = ex_running /\ exec_progress e = 0%Z /\
  In e (getActiveExecutions q') /\
  (forall other, other <> taskId -> get (queue q') other = get (queue q) other) /\
  (forall other, other <> exec_id e ->
     get (executions q') other = get (executions q) other).
Proof.
  intros q' e. subst q' e. unfold startExecution. cbn [fst snd].
  set (id := ("exec_" ++ taskId ++ "_" ++ JsString.ofZ now)%string).
  set (exec := {| exec_id := id; exec_taskId := taskId; exec_agentId := agentId;
                  exec_status := ex_running; exec_progress := 0; exec_logs := [];
                  exec_result := None; exec_error := None;
                  startedAt := now; completedAt := None |}).
  set (st := {| execution := exec; logs := []; startTime := now |}).
  set (q1 := with_executions q (set (executions q) id st)).
  assert (Hex : executions (fst (dequeue q1 taskId)) = set (executions q) id st).
  { unfold dequeue. destruct (get (queue q1) taskId); reflexivity. }
  assert (Hq : queue (fst (dequeue q1 taskId)) = delete (queue q) taskId).
  { unfold dequeue. destruct (get (queue q1) taskId) eqn:E; simpl; [reflexivity|].
    subst q1. simpl in *. clear -E. unfold delete.
    induction (queue q) as [|[k v] r IH]; simpl in *; [reflexivity|].
    destruct (String.eqb k taskId); [discriminate|]. simpl. now rewrite <- IH. }
  repeat split.
  - unfold has, JsMap.has. rewrite Hq. now rewrite get_delete_same.
  - unfold getExecution. rewrite Hex. cbn [exec_id exec]. now rewrite get_set_same.
  - unfold getActiveExecutions. rewrite Hex. apply in_map_iff. exists st.
    split; [reflexivity|]. apply filter_In. split; [|reflexivity].
    unfold values. apply in_map_iff. exists (id, st). split; [reflexivity|].
    apply get_In. apply get_set_same.
  - intros other Hne. rewrite Hq. now apply get_delete_other.
  - intros other Hne. rewrite Hex. now apply get_set_other.
Qed.

(** Every rewrite of the ledger by a method keeps a property that is [Kept]. *)
Lemma perform_keeps (P : string * ExecutionState -> Prop) (q : TaskQueue) (c : Call) :
  Kept P -> Forall P (executions q) -> Forall P (executions (perform q c)).
Proof.
  intros HP Hall.
  assert (Hget : forall k st, get (executions q) k = Some st -> P (k, st)).
  { intros k st H. rewrite Forall_forall in Hall. apply Hall. now apply get_In. }
  assert (Hlog : forall q0 now k level msg data,
            Forall P (executions q0) ->
            Forall P (executions (addLog q0 now k level msg data))).
  { intros q0 now k level msg data H0. unfold addLog.
    destruct (get (executions q0) k) as [st|] eqn:E; [|exact H0].
    simpl. apply set_Forall; [exact H0|].
    apply (kept_logged P HP). rewrite Forall_forall in H0. apply H0. now apply get_In. }
  destruct c; simpl.
  - exact Hall.
  - unfold dequeue. destruct (get (queue q) taskId); exact Hall.
  - unfold updatePriority. destruct (get (queue q) taskId); exact Hall.
  - unfold markAttempt. destruct (get (queue q) taskId); exact Hall.
  - unfold startExecution. cbn [fst].
    match goal with |- Forall P (executions (fst (dequeue ?q1 _))) =>
      assert (H1 : Forall P (executions q1))
    end.
    { simpl. apply set_Forall; [exact Hall|]. apply (kept_fresh P HP now taskId agentId). }
    unfold dequeue.
    match goal with |- Forall P (executions (fst (match ?g with _ => _ end))) =>
      destruct g end; exact H1.
  - unfold updateProgress.
    destruct (get (executions q) executionId) as [st|] eqn:E; [|exact Hall].
    assert (H1 : Forall P (set (executions q) executionId (progressed progress st))).
    { apply set_Forall; [exact Hall|]. apply (kept_progressed P HP). now apply Hget. }
    destruct msg as [m|]; [destruct (JsString.truthy m)|]; try exact H1.
    apply Hlog. exact H1.
  - now apply Hlog.
  - unfold completeExecution.
    destruct (get (executions q) executionId) as [st|] eqn:E; [|exact Hall].
    cbn [fst]. apply Hlog. simpl. apply set_Forall; [exact Hall|].
    apply (kept_completed P HP). now apply Hget.
  - unfold failExecution.
    destruct (get (executions q) executionId) as [st|] eqn:E; [|exact Hall].
    cbn [fst]. apply Hlog. simpl. apply set_Forall; [exact Hall|].
    apply (kept_failed P HP). now apply Hget.
  - unfold blockExecution.
    destruct (get (executions q) executionId) as [st|] eqn:E; [|exact Hall].
    cbn [fst]. apply Hlog. simpl. apply set_Forall; [exact Hall|].
    apply (kept_blocked P HP). now apply Hget.
  - unfold cleanup. rewrite deleteAll_spec. simpl.
    rewrite Forall_forall in *. intros kv Hkv. apply filter_In in Hkv. apply Hall. tauto.
  - unfold syncFromTasks. rewrite syncLoop_executions. exact Hall.
Qed.

Lemma afterCalls_keeps (P : string * ExecutionState -> Prop) a b history :
  Kept P -> Forall P (executions (afterCalls a b history)).
Proof.
  intros HP. unfold afterCalls.
  assert (H0 : Forall P (executions (create a b))) by constructor.
  revert H0. generalize (create a b).
  induction history as [|c history IH]; intros q Hq; simpl; [exact Hq|].
  apply IH. now apply perform_keeps.
Qed.

Lemma Kept_ownId : Kept ownId.
Proof. constructor; unfold ownId; simpl; auto. Qed.

Lemma Kept_progressInRange : Kept progressInRange.
Proof. constructor; unfold progressInRange; simpl; intros; lia. Qed.

Lemma Kept_logsShared : Kept logsShared.
Proof. constructor; unfold logsShared; simpl; auto. Qed.

Lemma Kept_notPending : Kept notPending.
Proof. constructor; unfold notPending; simpl; intros; congruence. Qed.

(** X4. Whatever calls a queue has received with whole numbers as progress
    values, the progress of every execution in its ledger lies between 0 and
    100: [updateProgress] clamps the whole number it is given, and no other
    method writes a value outside the range. *)
Theorem ledger_progress_in_range a b (history : list Call) :
  Forall progressInRange (executions (afterCalls a b history)) /\
  (forall id progress msg now,
     Forall progressInRange
       (executions (updateProgress (afterCalls a b history) now id progress msg))).
Proof.
  split.
  - apply afterCalls_keeps, Kept_progressInRange.
  - intros id progress msg now.
    apply (perform_keeps progressInRange (afterCalls a b history)
             (CallUpdateProgress now id progress msg) Kept_progressInRange).
    apply afterCalls_keeps, Kept_progressInRange.
Qed.

(** X5. Whatever calls a queue has received, the logs carried by an execution
    are the logs [getExecutionLogs] returns for its id, and an unknown id has
    no logs. *)
Theorem execution_logs_agree a b (history : list Call) (executionId : string) :
  getExecutionLogs (afterCalls a b history) executionId =
  match getExecution (afterCalls a b history) executionId with
  | Some e => exec_logs e
  | None => []
  end.
Proof.
  unfold getExecutionLogs, getExecution.
  destruct (get (executions (afterCalls a b history)) executionId) as [st|] eqn:E;
    [|reflexivity].
  pose proof (afterCalls_keeps logsShared a b history Kept_logsShared) as H.
  rewrite Forall_forall in H. symmetry. exact (H _ (get_In _ _ _ E)).
Qed.

(** X6. Whatever calls a queue has received, every execution of its ledger is
    stored under its own id: looking up the id of any listed execution, an
    active one in particular, returns that execution. *)
Theorem executions_found_by_id a b (history : list Call) :
  Forall (fun e => getExecution (afterCalls a b history) (exec_id e) = Some e)
    (map execution (values (executions (afterCalls a b history)))) /\
  Forall (fun e => getExecution (afterCalls a b history) (exec_id e) = Some e)
    (getActiveExecutions (afterCalls a b history)).
Proof.
  assert (H : forall st, In st (values (executions (afterCalls a b history))) ->
              getExecution (afterCalls a b history) (exec_id (execution st))
              = Some (execution st)).
  { intros st Hin. unfold values in Hin. apply in_map_iff in Hin.
    destruct Hin as ([k st'] & Hst & Hin). simpl in Hst. subst st'.
    pose proof (afterCalls_keeps ownId a b history Kept_ownId) as Hown.
    rewrite Forall_forall in Hown. specialize (Hown _ Hin). unfold ownId in Hown.
    simpl in Hown. subst k. unfold getExecution.
    destruct (afterCalls_wf a b history) as [_ [Hnd _]].
    now rewrite (In_get _ _ _ Hnd Hin). }
  split; apply Forall_forall; intros e He; apply in_map_iff in He;
    destruct He as (st & <- & Hst).
  - now apply H.
  - apply filter_In in Hst. apply H. tauto.
Qed.

Lemma withStatus_partition (states : list ExecutionState) :
  Forall (fun st => exec_status (execution st) <> ex_pending) states ->
  (List.length (withStatus ex_running states)
   + List.length (withStatus ex_completed states)
   + List.length (withStatus ex_failed states)
   + List.length (withStatus ex_blocked states))%nat = List.length states.
Proof.
  unfold withStatus. induction 1 as [|st l Hst Hl IH]; simpl; [reflexivity|].
  destruct (exec_status (execution st)); simpl; try lia. congruence.
Qed.

(** X7. Whatever calls a queue has received, the four execution counts of
    [getStats] (active, completed, failed, blocked) add up to the number of
    executions in the ledger, the reported queue size is the number of queued
    tasks, and the average time is 0 when nothing has completed. *)
Theorem getStats_counts a b (history : list Call) :
  let q := afterCalls a b history in
  let s := getStats q in
  (activeExecutions s + completedExecutions s + failedExecutions s
   + blockedExecutions s)%nat = JsMap.size (executions q) /\
  queueSize s = size q /\
  (completedExecutions s = 0%nat -> averageExecutionTime s = 0%Q).
Proof.
  intros q s. subst s. unfold getStats. cbn [activeExecutions completedExecutions
    failedExecutions blockedExecutions queueSize averageExecutionTime].
  split; [|split; [reflexivity|]].
  - rewrite withStatus_partition.
    + unfold values, JsMap.size. apply length_map.
    + pose proof (afterCalls_keeps notPending a b history Kept_notPending) as H.
      fold q in H. apply Forall_forall. intros st Hst. unfold values in Hst.
      apply in_map_iff in Hst. destruct Hst as (kv & <- & Hkv).
      rewrite Forall_forall in H. exact (H kv Hkv).
  - intros H0. rewrite H0. reflexivity.
Qed.

(** X8. The mutators do nothing on ids they do not know and answer falsy
    instead of throwing: on an id that is not queued, [dequeue] returns
    nothing, [updatePriority] false, [canRetry] false, and [markAttempt]
    changes nothing; on an id that is not in the ledger, [updateProgress],
    [addLog], [completeExecution], [failExecution] and [blockExecution]
    change nothing and return nothing. *)
Theorem unknown_ids_are_noops (q : TaskQueue) (now : Z) (taskId executionId : string) :
  get (queue q) taskId = None ->
  get (executions q) executionId = None ->
  dequeue q taskId = (q, None) /\
  (forall p, updatePriority q taskId p = (q, false)) /\
  markAttempt q now taskId = q /\
  canRetry q taskId = false /\
  (forall p msg, updateProgress q now executionId p msg = q) /\
  (forall level msg data, addLog q now executionId level msg data = q) /\
  (forall result, completeExecution q now executionId result = (q, None)) /\
  (forall error, failExecution q now executionId error = (q, None)) /\
  (forall reason, blockExecution q now executionId reason = (q, None)) /\
  getExecution q executionId = None /\
  getExecutionLogs q executionId = [].
Proof.
  intros Hq He.
  unfold dequeue, updatePriority, markAttempt, canRetry, updateProgress, addLog,
    completeExecution, failExecution, blockExecution, getExecution, getExecutionLogs.
  rewrite Hq, He. repeat split.
Qed.

Lemma unknown_ids_are_noops_witness :
  dequeue (create None None) "ghost" = (create None None, None).
Proof.
  exact (proj1 (unknown_ids_are_noops (create None None) 0 "ghost" "exec_ghost_0"
                  eq_refl eq_refl)).
Defined.

Lemma last_default_irrelevant {T : Type} (l : list T) (d d' : T) :
  l <> [] -> List.last l d = List.last l d'.
Proof.
  induction l as [|x l IH]; [congruence|]. intros _.
  destruct l as [|y l]; [reflexivity|].
  change (List.last (y :: l) d = List.last (y :: l) d'). apply IH. discriminate.
Qed.

Lemma markAttempts_get (times : list Z) (taskId : string) : forall q e,
  get (queue q) taskId = Some e ->
  get (queue (markAttempts q times taskId)) taskId =
  Some {| qt_task := qt_task e; qt_priority := qt_priority e; queuedAt := queuedAt e;
          attempts := attempts e + List.length times;
          lastAttempt := List.last (map Some times) (lastAttempt e) |}.
Proof.
  unfold markAttempts.
  induction times as [|t times IH]; intros q e He; simpl.
  - rewrite He, Nat.add_0_r. now destruct e.
  - erewrite IH.
    2:{ unfold markAttempt. rewrite He. simpl. apply get_set_same. }
    simpl. f_equal. f_equal; [lia|].
    destruct times as [|t' times']; [reflexivity|].
    apply last_default_irrelevant. discriminate.
Qed.

(** X9. Each [markAttempt] on a queued task raises its attempt count by one
    and records the time as its last attempt, leaving task, priority and
    enqueue time alone; after [n] calls [canRetry] holds exactly when the
    count so reached is still below [maxRetries]. *)
Theorem markAttempt_counts (q : TaskQueue) (times : list Z) (taskId : string)
  (e : QueuedTask) :
  get (queue q) taskId = Some e ->
  let q' := markAttempts q times taskId in
  get (queue q') taskId =
    Some {| qt_task := qt_task e; qt_priority := qt_priority e; queuedAt := queuedAt e;
            attempts := attempts e + List.length times;
            lastAttempt := List.last (map Some times) (lastAttempt e) |} /\
  canRetry q' taskId = (attempts e + List.length times <? maxRetries q)%nat /\
  keys (queue q') = keys (queue q).
Proof.
  intros He q'. subst q'. split; [now apply markAttempts_get|]. split.
  - unfold canRetry. rewrite (markAttempts_get times taskId q e He). simpl.
    f_equal. unfold markAttempts. clear He.
    revert q. induction times as [|t times IH]; intros q; simpl; [reflexivity|].
    rewrite IH. unfold markAttempt. destruct (get (queue q) taskId); reflexivity.
  - unfold markAttempts. clear He e.
    revert q. induction times as [|t times IH]; intros q; simpl; [reflexivity|].
    rewrite IH. unfold markAttempt. destruct (get (queue q) taskId) eqn:E; [|reflexivity].
    simpl. rewrite keys_set. unfold JsMap.has. now rewrite E.
Qed.

Lemma markAttempt_counts_witness :
  canRetry (markAttempts MoreSamples.oneTask [2000; 8000; 14000]%Z "t1") "t1" = false.
Proof.
  exact (proj1 (proj2 (markAttempt_counts MoreSamples.oneTask [2000; 8000; 14000]%Z "t1"
                         MoreSamples.oneTaskEntry eq_refl))).
Defined.

Lemma has_get_some (q : TaskQueue) id :
  has q id = true <-> exists e, get (queue q) id = Some e.
Proof.
  unfold has, JsMap.has. destruct (get (queue q) id) as [e|].
  - split; eauto.
  - split; [discriminate|]. intros [e He]. discriminate.
Qed.

Lemma syncLoop_keeps_entries now ids ts : forall q id e,
  get (queue q) id = Some e -> get (queue (syncLoop q now ids ts)) id = Some e.
Proof.
  induction ts as [|t ts IH]; intros q id e He; simpl; [exact He|].
  apply IH.
  destruct (TaskStatus_eqb (task_status t) backlog) eqn:Eb; simpl; [|exact He].
  destruct (has q (task_id t)) eqn:Eh; simpl; [exact He|].
  destruct (existsb (String.eqb (task_id t)) ids); simpl; [exact He|].
  unfold enqueue. simpl. rewrite get_set_other; [exact He|].
  intros ->. unfold has, JsMap.has in Eh. rewrite He in Eh. discriminate.
Qed.

Lemma TaskStatus_eqb_backlog s : TaskStatus_eqb s backlog = true <-> s = backlog.
Proof. destruct s; simpl; split; congruence. Qed.

Lemma existsb_eqb_In (x : string) (l : list string) :
  existsb (String.eqb x) l = true <-> In x l.
Proof.
  rewrite existsb_exists. split.
  - intros (y & Hy & E). apply String.eqb_eq in E. now subst.
  - intros H. exists x. split; [exact H|apply String.eqb_refl].
Qed.

Lemma syncLoop_adds now ids ts : forall q t,
  In t ts -> task_status t = backlog -> ~ In (task_id t) ids ->
  has (syncLoop q now ids ts) (task_id t) = true.
Proof.
  induction ts as [|t0 ts IH]; intros q t Hin Hb Hn; [destruct Hin|].
  destruct Hin as [->|Hin]; [|now apply IH].
  simpl. apply has_get_some.
  assert (Hex : existsb (String.eqb (task_id t)) ids = false).
  { destruct (existsb (String.eqb (task_id t)) ids) eqn:E; [|reflexivity].
    apply existsb_eqb_In in E. contradiction. }
  rewrite (proj2 (TaskStatus_eqb_backlog _) Hb), Hex. simpl.
  destruct (has q (task_id t)) eqn:Eh; simpl.
  - apply has_get_some in Eh. destruct Eh as [e He]. exists e.
    now apply syncLoop_keeps_entries.
  - eexists. apply syncLoop_keeps_entries. unfold enqueue. simpl. apply get_set_same.
Qed.

Lemma syncLoop_origin now ids ts : forall q id,
  has (syncLoop q now ids ts) id = true ->
  has q id = true \/
  exists t, In t ts /\ task_id t = id /\ task_status t = backlog /\ ~ In id ids.
Proof.
  induction ts as [|t ts IH]; intros q id H; simpl in H; [now left|].
  apply IH in H. destruct H as [H|(t' & Hin & Hid & Hb & Hn)].
  - destruct (TaskStatus_eqb (task_status t) backlog) eqn:Eb; simpl in H; [|now left].
    destruct (has q (task_id t)) eqn:Eh; simpl in H; [now left|].
    destruct (existsb (String.eqb (task_id t)) ids) eqn:Ee; simpl in H; [now left|].
    destruct (String.eqb_spec id (task_id t)) as [->|Hne].
    + right. exists t. split; [now left|]. split; [reflexivity|].
      split; [now apply TaskStatus_eqb_backlog|].
      intros Hin. apply existsb_eqb_In in Hin. congruence.
    + left. apply has_get_some in H. destruct H as [e He].
      unfold enqueue in He. simpl in He. rewrite get_set_other in He by exact Hne.
      apply has_get_some. eauto.
  - right. exists t'. split; [now right|]. auto.
Qed.

Lemma syncLoop_noop now ids ts : forall q,
  (forall t, In t ts -> task_status t = backlog -> ~ In (task_id t) ids ->
             has q (task_id t) = true) ->
  syncLoop q now ids ts = q.
Proof.
  induction ts as [|t ts IH]; intros q H; simpl; [reflexivity|].
  assert (Hc : TaskStatus_eqb (task_status t) backlog && negb (has q (task_id t))
               && negb (existsb (String.eqb (task_id t)) ids) = false).
  { destruct (TaskStatus_eqb (task_status t) backlog) eqn:Eb; [|reflexivity].
    destruct (existsb (String.eqb (task_id t)) ids) eqn:Ee;
      [now rewrite andb_false_r|].
    rewrite (H t); [reflexivity|now left|now apply TaskStatus_eqb_backlog|].
    intros Hin. apply existsb_eqb_In in Hin. congruence. }
  rewrite Hc. apply IH. intros t' Hin. apply H. now right.
Qed.

(** X10. [syncFromTasks] reconciles the queue with a snapshot of tasks: it
    leaves every queued entry as it is (attempts included) and the ledger
    untouched, queues each backlog task of the snapshot that no running
    execution works on, queues nothing else, and a second call with the same
    snapshot changes nothing. *)
Theorem syncFromTasks_reconciles (q : TaskQueue) (now : Z) (tasks : list Task) :
  let q' := syncFromTasks q now tasks in
  executions q' = executions q /\
  (forall id e, get (queue q) id = Some e -> get (queue q') id = Some e) /\
  (forall t, In t tasks -> syncable q t -> has q' (task_id t) = true) /\
  (forall id, has q' id = true ->
     has q id = true \/ exists t, In t tasks /\ task_id t = id /\ syncable q t) /\
  (forall now', syncFromTasks q' now' tasks = q').
Proof.
  intros q'. subst q'. unfold syncFromTasks, syncable.
  set (ids := map exec_taskId (getActiveExecutions q)).
  assert (Hex : executions (syncLoop q now ids tasks) = executions q)
    by apply syncLoop_executions.
  split; [exact Hex|]. split; [intros id e; apply syncLoop_keeps_entries|].
  split; [intros t Hin [Hb Hn]; now apply syncLoop_adds|]. split.
  - intros id H. apply syncLoop_origin in H.
    destruct H as [H|(t & Hin & Hid & Hb & Hn)]; [now left|].
    right. exists t. subst id. auto.
  - intros now'.
    assert (Hids : map exec_taskId (getActiveExecutions (syncLoop q now ids tasks)) = ids).
    { unfold getActiveExecutions. now rewrite Hex. }
    rewrite Hids. apply syncLoop_noop. intros t Hin Hb Hn. now apply syncLoop_adds.
Qed.

Lemma notAfter_comparePriority a b :
  notAfter comparePriority a b = true <-> (qt_priority b <= qt_priority a)%Z.
Proof.
  unfold notAfter, comparePriority.
  destruct (Z.compare_spec (qt_priority b - qt_priority a) 0) as [C|C|C];
    split; intros H; try reflexivity; try discriminate; lia.
Qed.

Lemma readyLoop_firstn (sorted : list Task) (limit : nat) : forall tasks,
  readyLoop sorted limit tasks = tasks ++ firstn (limit - List.length tasks) sorted.
Proof.
  induction sorted as [|t sorted IH]; intros tasks; simpl.
  - now rewrite firstn_nil, app_nil_r.
  - destruct (Nat.leb_spec limit (List.length tasks)) as [Hle|Hgt].
    + replace (limit - List.length tasks)%nat with 0%nat by lia.
      simpl. now rewrite app_nil_r.
    + rewrite IH, length_app. simpl.
      replace (limit - List.length tasks)%nat
        with (S (limit - (List.length tasks + 1)))%nat by lia.
      simpl. now rewrite <- app_assoc.
Qed.

(** X11. [getAll] lists every queued task exactly once, in order of
    non-increasing priority, and [getTasksReadyForAssignment] returns the
    first [limit] tasks of that list, whatever the agent. *)
Theorem getAll_by_priority (q : TaskQueue) :
  let ranked := js_sort comparePriority (values (queue q)) in
  getAll q = map qt_task ranked /\
  Permutation (values (queue q)) ranked /\
  StronglySorted (fun a b => (qt_priority b <= qt_priority a)%Z) ranked /\
  List.length (getAll q) = size q /\
  (forall agent limit, getTasksReadyForAssignment q agent limit = firstn limit (getAll q)).
Proof.
  intros ranked. split; [reflexivity|]. split; [apply js_sort_perm|]. split.
  - assert (Hs : StronglySorted (fun a b => notAfter comparePriority a b = true) ranked).
    { apply (js_sort_sorted comparePriority (fun _ => True)).
      - intros a b _ _ H. apply notAfter_comparePriority.
        destruct (notAfter comparePriority b a) eqn:E; [now apply notAfter_comparePriority in E|].
        assert (Hn : ~ (qt_priority b <= qt_priority a)%Z).
        { intros Hle. apply notAfter_comparePriority in Hle. congruence. }
        assert (Hn' : ~ (qt_priority a <= qt_priority b)%Z).
        { intros Hle. apply notAfter_comparePriority in Hle. congruence. }
        lia.
      - intros a b c _ _ _. rewrite !notAfter_comparePriority. lia.
      - apply Forall_forall. trivial. }
    clear -Hs. induction Hs as [|a l Hs IH Hall]; constructor; auto.
    eapply Forall_impl; [|exact Hall]. intros b. apply notAfter_comparePriority.
  - split.
    + unfold getAll, size, JsMap.size. rewrite length_map, js_sort_length.
      unfold values. apply length_map.
    + intros agent limit. unfold getTasksReadyForAssignment.
      rewrite readyLoop_firstn. simpl. now rewrite Nat.sub_0_r.
Qed.

Lemma filter_Forall {T : Type} (P : T -> Prop) (f : T -> bool) (l : list T) :
  Forall P l -> Forall P (filter f l).
Proof.
  intros H. apply Forall_forall. intros x Hx. apply filter_In in Hx.
  rewrite Forall_forall in H. apply H. tauto.
Qed.

Lemma enqueue_pending_wf q now task priority :
  pending_wf q -> pending_wf (enqueue q now task priority).
Proof.
  intros [Hnd Hk]. unfold pending_wf, enqueue. simpl. split.
  - now apply wf_set.
  - apply set_Forall; [exact Hk|reflexivity].
Qed.

Lemma dequeue_pending_wf q taskId : pending_wf q -> pending_wf (fst (dequeue q taskId)).
Proof.
  intros [Hnd Hk]. unfold dequeue. destruct (get (queue q) taskId); [|now split].
  simpl. split; [now apply wf_delete|now apply filter_Forall].
Qed.

Lemma pending_wf_only_queue q q' : queue q' = queue q -> pending_wf q -> pending_wf q'.
Proof. unfold pending_wf. now intros ->. Qed.

Lemma addLog_queue q now k level msg data :
  queue (addLog q now k level msg data) = queue q.
Proof. unfold addLog. destruct (get (executions q) k); reflexivity. Qed.

Lemma perform_pending_wf q c : pending_wf q -> pending_wf (perform q c).
Proof.
  intros Hwf. destruct c; simpl.
  - now apply enqueue_pending_wf.
  - now apply dequeue_pending_wf.
  - unfold updatePriority. destruct (get (queue q) taskId) as [qt|] eqn:E; [|exact Hwf].
    destruct Hwf as [Hnd Hk]. split; simpl; [now apply wf_set|].
    apply set_Forall; [exact Hk|].
    rewrite Forall_forall in Hk. exact (Hk _ (get_In _ _ _ E)).
  - unfold markAttempt. destruct (get (queue q) taskId) as [qt|] eqn:E; [|exact Hwf].
    destruct Hwf as [Hnd Hk]. split; simpl; [now apply wf_set|].
    apply set_Forall; [exact Hk|].
    rewrite Forall_forall in Hk. exact (Hk _ (get_In _ _ _ E)).
  - unfold startExecution. cbn [fst]. apply dequeue_pending_wf.
    eapply pending_wf_only_queue; [|exact Hwf]. reflexivity.
  - eapply pending_wf_only_queue; [|exact Hwf]. unfold updateProgress.
    destruct (get (executions q) executionId); [|reflexivity].
    destruct msg as [m|]; [destruct (JsString.truthy m)|]; try reflexivity.
    now rewrite addLog_queue.
  - eapply pending_wf_only_queue; [|exact Hwf]. apply addLog_queue.
  - eapply pending_wf_only_queue; [|exact Hwf]. unfold completeExecution.
    destruct (get (executions q) executionId); [|reflexivity].
    cbn [fst]. now rewrite addLog_queue.
  - eapply pending_wf_only_queue; [|exact Hwf]. unfold failExecution.
    destruct (get (executions q) executionId); [|reflexivity].
    cbn [fst]. now rewrite addLog_queue.
  - eapply pending_wf_only_queue; [|exact Hwf]. unfold blockExecution.
    destruct (get (executions q) executionId); [|reflexivity].
    cbn [fst]. now rewrite addLog_queue.
  - eapply pending_wf_only_queue; [|exact Hwf]. unfold cleanup.
    rewrite deleteAll_spec. reflexivity.
  - unfold syncFromTasks.
    generalize (map exec_taskId (getActiveExecutions q)). intros ids.
    revert q Hwf. induction tasks as [|t tasks IH]; intros q Hwf; simpl; [exact Hwf|].
    apply IH.
    destruct (TaskStatus_eqb (task_status t) backlog && negb (has q (task_id t))
              && negb (existsb (String.eqb (task_id t)) ids)); [|exact Hwf].
    now apply enqueue_pending_wf.
Qed.

Lemma afterCalls_pending_wf a b history : pending_wf (afterCalls a b history).
Proof.
  unfold afterCalls.
  assert (H0 : pending_wf (create a b)) by (split; constructor).
  revert H0. generalize (create a b).
  induction history as [|c history IH]; intros q Hq; simpl; [exact Hq|].
  apply IH. now apply perform_pending_wf.
Qed.

(** X12. Whatever calls a queue has received, the task [getNext] returns is
    queued under its own id: [has] confirms it, [dequeue] of that id gives
    the same task back, and [canRetry] reads the attempts of that entry. *)
Theorem getNext_is_queued a b (history : list Call) (now : Z) (t : Task) :
  getNext (afterCalls a b history) now = Some t ->
  has (afterCalls a b history) (task_id t) = true /\
  snd (dequeue (afterCalls a b history) (task_id t)) = Some t /\
  exists e,
    get (queue (afterCalls a b history)) (task_id t) = Some e /\ qt_task e = t /\
    canRetry (afterCalls a b history) (task_id t)
      = (attempts e <? maxRetries (afterCalls a b history))%nat.
Proof.
  set (q := afterCalls a b history). intros Hnext.
  rewrite getNext_find in Hnext.
  destruct (find (retryReady (retryDelayMs q) now)
              (js_sort compareQueued (values (queue q)))) as [e|] eqn:Ef;
    [|discriminate].
  simpl in Hnext. injection Hnext as <-.
  apply find_some in Ef. destruct Ef as [Hin _].
  apply (proj1 (js_sort_In _ _ _)) in Hin. unfold values in Hin.
  apply in_map_iff in Hin. destruct Hin as ([k e'] & He & Hin). simpl in He. subst e'.
  destruct (afterCalls_pending_wf a b history) as [Hnd Hk]. fold q in Hnd, Hk.
  rewrite Forall_forall in Hk. pose proof (Hk _ Hin) as Hkey.
  unfold keyedByTask in Hkey. simpl in Hkey. subst k.
  assert (Hget : get (queue q) (task_id (qt_task e)) = Some e)
    by (now apply In_get).
  split; [|split].
  - unfold has, JsMap.has. now rewrite Hget.
  - unfold dequeue. now rewrite Hget.
  - exists e. split; [exact Hget|]. split; [reflexivity|].
    unfold canRetry. now rewrite Hget.
Qed.

Lemma getNext_is_queued_witness :
  has (afterCalls None None
         [CallEnqueue 1000 (Samples.task "t1" (Some 5%Z)) None;
          CallEnqueue 1100 (Samples.task "t2" (Some 1%Z)) None;
          CallMarkAttempt 2000 "t1"]) "t2" = true.
Proof.
  exact (proj1 (getNext_is_queued None None
                  [CallEnqueue 1000 (Samples.task "t1" (Some 5%Z)) None;
                   CallEnqueue 1100 (Samples.task "t2" (Some 1%Z)) None;
                   CallMarkAttempt 2000 "t1"] 3000
                  (Samples.task "t2" (Some 1%Z)) eq_refl)).
Defined.

End MoreQueueFacts.

(* ================================================================== *)
(** * The persona manager: templates, merging, statistics, prompts *)
(* ================================================================== *)

Section TextFacts.
Import JsString.

Lemma startsWith_refl (s : string) : startsWith s s = true.
Proof.
  induction s as [|c s IH]; simpl; [reflexivity|].
  now rewrite Ascii.eqb_refl, IH.
Qed.

Lemma startsWith_app (p : string) : forall s t,
  startsWith s p = true -> startsWith (s ++ t) p = true.
Proof.
  induction p as [|c p IH]; intros s t H.
  - destruct (s ++ t)%string; reflexivity.
  - destruct s as [|d s]; [discriminate|]. simpl in *.
    apply andb_true_iff in H as [H1 H2]. now rewrite H1, (IH _ _ H2).
Qed.

Lemma includes_self (s : string) : includes s s = true.
Proof. destruct s; simpl; [reflexivity|]. now rewrite Ascii.eqb_refl, startsWith_refl. Qed.

Lemma includes_app_l (sub : string) : forall s t,
  includes s sub = true -> includes (s ++ t) sub = true.
Proof.
  induction s as [|c s IH]; intros t H.
  - simpl in H. rewrite orb_false_r in H. destruct sub; [|discriminate].
    destruct t; reflexivity.
  - change (includes (String c s) sub)
      with (startsWith (String c s) sub || includes s sub) in H.
    apply orb_true_iff in H as [H|H].
    + change (includes (String c s ++ t) sub)
        with (startsWith (String c s ++ t) sub || includes (s ++ t) sub).
      now rewrite (startsWith_app _ _ _ H).
    + change (includes (String c s ++ t) sub)
        with (startsWith (String c s ++ t) sub || includes (s ++ t) sub).
      rewrite (IH _ H). apply orb_true_r.
Qed.

Lemma includes_app_r (sub t : string) : forall s,
  includes t sub = true -> includes (s ++ t) sub = true.
Proof.
  induction s as [|c s IH]; intros H; [exact H|].
  change (includes (String c s ++ t) sub)
    with (startsWith (String c s ++ t) sub || includes (s ++ t) sub).
  rewrite (IH H). apply orb_true_r.
Qed.

Lemma includes_join (sep p : string) (parts : list string) :
  In p parts -> includes (join sep parts) p = true.
Proof.
  induction parts as [|x parts IH]; intros H; [destruct H|].
  destruct H as [->|H].
  - destruct parts; simpl join; [apply includes_self|].
    apply includes_app_l, includes_self.
  - destruct parts as [|y parts]; [destruct H|].
    change (join sep (x :: y :: parts)) with (x ++ sep ++ join sep (y :: parts))%string.
    now apply includes_app_r, includes_app_r, IH.
Qed.

Lemma startsWith_split (p : string) : forall s,
  startsWith s p = true -> exists post, s = (p ++ post)%string.
Proof.
  induction p as [|c p IH]; intros s H.
  - now exists s.
  - destruct s as [|d s]; [discriminate|]. simpl in H.
    apply andb_true_iff in H as [H1 H2]. apply Ascii.eqb_eq in H1 as ->.
    destruct (IH _ H2) as [post ->]. now exists post.
Qed.

Lemma includes_split_around (sub : string) : forall s,
  includes s sub = true -> exists pre post, s = (pre ++ sub ++ post)%string.
Proof.
  induction s as [|c s IH]; intros H.
  - destruct sub; [|discriminate]. now exists EmptyString, EmptyString.
  - change (includes (String c s) sub)
      with (startsWith (String c s) sub || includes s sub) in H.
    apply orb_true_iff in H as [H|H].
    + destruct (startsWith_split _ _ H) as [post E]. now exists EmptyString, post.
    + destruct (IH H) as (pre & post & ->). now exists (String c pre), post.
Qed.

Lemma includes_trans (a b c : string) :
  includes a b = true -> includes b c = true -> includes a c = true.
Proof.
  intros H1 H2.
  destruct (includes_split_around _ _ H1) as (pre & post & ->).
  now apply includes_app_r, includes_app_l.
Qed.

Lemma toLowerCase_app (s t : string) :
  toLowerCase (s ++ t) = (toLowerCase s ++ toLowerCase t)%string.
Proof. induction s as [|c s IH]; simpl; [reflexivity|now rewrite IH]. Qed.

Lemma lower_idem (c : ascii) : lower (lower c) = lower c.
Proof. destruct c as [[] [] [] [] [] [] [] []]; reflexivity. Qed.

Lemma toLowerCase_idem (s : string) : toLowerCase (toLowerCase s) = toLowerCase s.
Proof. induction s as [|c s IH]; simpl; [reflexivity|now rewrite lower_idem, IH]. Qed.

Lemma startsWith_join (sep p : string) (rest : list string) :
  startsWith (join sep (p :: rest)) p = true.
Proof.
  destruct rest; simpl join; [apply startsWith_refl|].
  apply startsWith_app, startsWith_refl.
Qed.

End TextFacts.

Section PersonaMoreFacts.
Import JsString JsMap Persona PersonaProps PersonaMore MoreSamples.

Lemma orElse_idem {A : Type} (u b : option A) : orElse u (orElse u b) = orElse u b.
Proof. now destruct u. Qed.

Lemma orElse_None {A : Type} (b : option A) : orElse None b = b.
Proof. reflexivity. Qed.

Lemma spreadRules_idem base u : spreadRules (spreadRules base u) u = spreadRules base u.
Proof. unfold spreadRules; simpl. now rewrite !orElse_idem. Qed.

Lemma spreadLimiters_idem base u :
  spreadLimiters (spreadLimiters base u) u = spreadLimiters base u.
Proof. unfold spreadLimiters; simpl. now rewrite !orElse_idem. Qed.

(** X13. [mergePersona] keeps what an update does not specify: the empty
    update changes nothing, applying the same update twice is the same as
    applying it once, and an update that names no forbidden actions (no rule
    set, or a rule set without that key) leaves [isForbidden] as it was,
    whatever other rules it replaces. *)
Theorem mergePersona_laws (base : Agente) (updates : PartialAgente) :
  mergePersona base noUpdates = base /\
  mergePersona (mergePersona base updates) updates = mergePersona base updates /\
  ((match p_regras updates with
    | Some r => forbiddenActions r = None
    | None => True
    end) ->
   forall action,
     isForbidden (mergePersona base updates) action = isForbidden base action).
Proof.
  split; [|split].
  - destruct base; reflexivity.
  - unfold mergePersona; simpl.
    destruct updates as [uid usq unome utipo usoul ureg ulim ugat uativo]; simpl.
    rewrite !orElse_idem.
    destruct uid, usq, unome, uativo, ureg as [r|], ulim as [l|];
      simpl; rewrite ?spreadRules_idem, ?spreadLimiters_idem; reflexivity.
  - intros H action. unfold isForbidden, mergePersona; simpl.
    destruct (p_regras updates) as [r|]; [|reflexivity].
    simpl. rewrite H. simpl.
    destruct (regras base) as [rb|]; reflexivity.
Qed.

Lemma get_DEFAULT_PERSONAS (type : string) (t : PartialAgente) :
  JsMap.get DEFAULT_PERSONAS type = Some t ->
  p_tipo t = Some type /\ truthy type = true /\ truthyStr (p_soul t) = true.
Proof.
  unfold DEFAULT_PERSONAS; cbn [JsMap.get].
  repeat match goal with
  | |- context [String.eqb ?a type] =>
      destruct (String.eqb_spec a type) as [<-|_];
      [intros [= <-]; repeat split; reflexivity|]
  end.
  discriminate.
Qed.

(** X14. [createFromTemplate] names the agent and its squad as asked.  For
    a type that has a template it takes the type and the soul, which is not
    empty, from that template, and starts from the template's rules and
    limiters, over which those of the overrides are spread.  A type without
    a template (and that is no inherited property name) gets the assistant
    template, which accepts every task type.  Of the overrides only rules,
    limiters, block triggers and the active flag are read: the agent is
    inactive only when the overrides say so, and an override of name, type
    or soul is ignored. *)
Theorem createFromTemplate_fills (name type squadId : string)
  (overrides : option PartialAgente) :
  let d := createFromTemplate name type squadId overrides in
  d_nome d = name /\ d_squad_id d = squadId /\
  (forall t, JsMap.get DEFAULT_PERSONAS type = Some t ->
     d_tipo d = type /\
     d_soul d = str (p_soul t) /\ d_soul d <> EmptyString /\
     d_regras d
       = spreadRules (rulesOr (p_regras t)) (rulesOr (p_regras (overridesOf overrides))) /\
     d_limitadores d
       = spreadLimiters (limitersOr (p_limitadores t))
           (limitersOr (p_limitadores (overridesOf overrides))) /\
     (overrides = None ->
      d_regras d = rulesOr (p_regras t) /\
      d_limitadores d = limitersOr (p_limitadores t))) /\
  (has DEFAULT_PERSONAS type = false -> inherited type = false ->
     d_tipo d = "assistant" /\ d_soul d = str (p_soul assistant_template) /\
     (overrides = None ->
      forall id taskType, canHandleTaskType (stored id d) taskType = true)) /\
  (d_ativo d = false <-> exists o, overrides = Some o /\ p_ativo o = Some false) /\
  (forall o, overrides = Some o ->
     d = createFromTemplate name type squadId (Some (readPart o))).
Proof.
  cbv zeta. split; [reflexivity|]. split; [reflexivity|].
  split; [|split; [|split]].
  - intros t E. unfold createFromTemplate. rewrite E.
    destruct (get_DEFAULT_PERSONAS _ _ E) as (Htipo & Ht & Hsoul).
    cbn [d_tipo d_soul d_regras d_limitadores]. rewrite Htipo, Hsoul.
    cbn [truthyStr str]. rewrite Ht.
    split; [reflexivity|]. split; [reflexivity|]. split.
    { destruct (p_soul t) as [[|c soul']|]; cbn in Hsoul |- *; congruence. }
    split; [reflexivity|]. split; [reflexivity|].
    intros ->. cbn [overridesOf noUpdates p_regras p_limitadores rulesOr limitersOr].
    split.
    + destruct (rulesOr (p_regras t)) as [a b c e f]. unfold spreadRules, noRules.
      cbn. now destruct a, b, c, e, f.
    + destruct (limitersOr (p_limitadores t)) as [a b c e f].
      unfold spreadLimiters, noLimiters. cbn. now destruct a, b, c, e, f.
  - unfold has, createFromTemplate.
    destruct (JsMap.get DEFAULT_PERSONAS type) as [t|] eqn:E; [discriminate|].
    intros _ ->. split; [reflexivity|]. split; [reflexivity|].
    intros -> id taskType. unfold canHandleTaskType.
    destruct (negb (truthyStr taskType)); reflexivity.
  - unfold createFromTemplate; simpl. split.
    + destruct overrides as [o|]; simpl; [|discriminate].
      destruct (p_ativo o) as [[]|] eqn:E; try discriminate.
      intros _. now exists o.
    + intros [o [-> H]]. simpl. now rewrite H.
  - intros o ->. reflexivity.
Qed.



Lemma existsb_impl {T : Type} (f g : T -> bool) (l : list T) :
  (forall x, f x = true -> g x = true) -> existsb f l = true -> existsb g l = true.
Proof.
  intros H. induction l as [|x l IH]; simpl; [discriminate|].
  intros E. apply orb_true_iff in E as [E|E].
  - now rewrite (H _ E).
  - rewrite (IH E). apply orb_true_r.
Qed.

Lemma mentions_inside (listed : list string) (action before after : string) :
  existsb (fun a => includes (toLowerCase action) (toLowerCase a)) listed = true ->
  existsb (fun a => includes (toLowerCase (before ++ action ++ after)) (toLowerCase a))
    listed = true.
Proof.
  apply existsb_impl. intros a H. rewrite !toLowerCase_app.
  now apply includes_app_r, includes_app_l.
Qed.

(** X16. On texts of ASCII characters, [isForbidden] and [requiresApproval]
    match a listed action anywhere inside the action text and without regard
    to letter case: an action they flag stays flagged when text is put
    before or after it, and lower-casing the action text changes neither
    answer.  An agent without rules forbids nothing and asks before
    nothing. *)
Theorem listed_actions_match_inside (agente : Agente) (action before after : string) :
  asciiActions agente ->
  isAscii action = true -> isAscii before = true -> isAscii after = true ->
  (isForbidden agente action = true ->
   isForbidden agente (before ++ action ++ after) = true) /\
  (requiresApprovalFor agente action = true ->
   requiresApprovalFor agente (before ++ action ++ after) = true) /\
  isForbidden agente (toLowerCase action) = isForbidden agente action /\
  requiresApprovalFor agente (toLowerCase action) = requiresApprovalFor agente action /\
  (regras agente = None ->
   isForbidden agente action = false /\ requiresApprovalFor agente action = false).
Proof.
  intros _ _ _ _.
  unfold isForbidden, requiresApprovalFor.
  destruct (regras agente) as [r|].
  - repeat split; try discriminate.
    + destruct (negb (hasItems (forbiddenActions r))); [discriminate|].
      apply mentions_inside.
    + destruct (negb (hasItems (mustAskBefore r))); [discriminate|].
      apply mentions_inside.
    + now rewrite toLowerCase_idem.
    + now rewrite toLowerCase_idem.
  - repeat split; try discriminate; reflexivity.
Qed.

Lemma listed_actions_match_inside_witness :
  isForbidden Samples.guardedAgent "Please DELETE Database now" = true /\
  requiresApprovalFor Samples.guardedAgent "then deploy it" = true.
Proof.
  assert (Hrules : asciiActions Samples.guardedAgent)
    by (split; repeat constructor).
  split.
  - apply (proj1 (listed_actions_match_inside Samples.guardedAgent "DELETE Database"
                    "Please " " now" Hrules eq_refl eq_refl eq_refl)).
    reflexivity.
  - apply (proj1 (proj2 (listed_actions_match_inside Samples.guardedAgent "deploy"
                           "then " " it" Hrules eq_refl eq_refl eq_refl))).
    reflexivity.
Defined.

Lemma bump_sum (m : jsmap nat) (k : string) :
  sum (values (bump m k)) = S (sum (values m)).
Proof.
  unfold bump. induction m as [|[k' n] m IH]; simpl; [reflexivity|].
  destruct (String.eqb k' k); simpl.
  - unfold sum, values. simpl. lia.
  - unfold sum, values in *. simpl. rewrite IH. lia.
Qed.

Lemma stats_loop (all : list Agente) : forall active byType,
  wf byType ->
  let '(active', byType') :=
    fold_left
      (fun acc persona =>
         let '(active, byType) := acc in
         ((if ativo persona then S active else active),
          bump byType (typeName persona)))
      all (active, byType) in
  active' = (active + List.length (filter ativo all))%nat /\
  sum (values byType') = (sum (values byType) + List.length all)%nat /\
  wf byType' /\
  (forall k, has byType k = true -> has byType' k = true) /\
  Forall (fun p => has byType' (typeName p) = true) all.
Proof.
  induction all as [|p all IH]; intros active byType Hwf; simpl.
  - repeat split; auto; lia.
  - specialize (IH (if ativo p then S active else active) (bump byType (typeName p))
                  (wf_set _ _ _ Hwf)).
    destruct (fold_left _ all _) as [active' byType'].
    destruct IH as (Ha & Hs & Hw & Hk & Hall).
    assert (Hp : has (bump byType (typeName p)) (typeName p) = true).
    { unfold has, bump. now rewrite get_set_same. }
    repeat split; auto.
    + rewrite Ha. destruct (ativo p); simpl; lia.
    + rewrite Hs, bump_sum. lia.
    + intros k Hk'. apply Hk. unfold has, bump in *.
      destruct (String.eqb_spec k (typeName p)) as [->|Hne].
      * now rewrite get_set_same.
      * now rewrite get_set_other.
Qed.

(** X17. For personas whose type names are ordinary property names,
    [getStats] reports as total the number of registered personas, as active
    the number of those with the active flag, and per-type counts that add up
    to the total; every registered persona's type (or ['unknown'] for a
    persona without type) has an entry. *)
Theorem persona_getStats_totals (personas : jsmap Agente) :
  Forall ordinaryType (getAll personas) ->
  let s := getStats personas in
  total s = size personas /\
  active s = List.length (filter ativo (getAll personas)) /\
  (active s <= total s)%nat /\
  sum (values (byType s)) = total s /\
  wf (byType s) /\
  Forall (fun p => has (byType s) (typeName p) = true) (getAll personas).
Proof.
  intros _. unfold getStats.
  pose proof (stats_loop (getAll personas) 0 [] (NoDup_nil _)) as H.
  destruct (fold_left _ (getAll personas) _) as [active' byType'].
  destruct H as (Ha & Hs & Hw & _ & Hall). simpl in *.
  repeat split; auto.
  - unfold getAll, values, size. now rewrite length_map.
  - rewrite Ha. apply filter_length_le.
Qed.

Lemma persona_getStats_totals_witness :
  let personas := register (register [] (Samples.agent "a1")) Samples.cautiousAgent in
  Forall ordinaryType (getAll personas) /\
  total (getStats personas) = 1%nat /\
  sum (values (byType (getStats personas))) = 1%nat.
Proof.
  cbv zeta.
  assert (H : Forall ordinaryType
                (getAll (register (register [] (Samples.agent "a1")) Samples.cautiousAgent))).
  { repeat constructor. }
  split; [exact H|].
  pose proof (persona_getStats_totals _ H) as T. cbv zeta in T.
  destruct T as (T1 & _ & _ & T4 & _).
  split; [exact T1|]. rewrite T4. exact T1.
Defined.

Lemma prompt_parts (agente : Agente) (context : option PromptContext) :
  buildSystemPrompt agente context =
  join newline
    (personaSection agente ++ rulesSection agente ++ limitersSection agente ++
     triggersSection agente ++ contextSection context).
Proof.
  unfold buildSystemPrompt. f_equal.
  unfold personaSection, rulesSection, limitersSection, triggersSection, contextSection.
  rewrite !pushIf_app.
  destruct (regras agente) as [r|]; [destruct (truthyBool (autoComplete r))|];
    destruct (limitadores agente) as [l|];
    destruct (hasItems (gatilhos_bloqueio agente));
    destruct (truthyStr
                match context with Some c => taskTitle c | None => None end
              || truthyStr
                match context with Some c => taskDescription c | None => None end);
    rewrite ?fold_push, ?pushIf_app; unfold push;
    repeat rewrite <- app_assoc; rewrite ?app_nil_l, ?app_nil_r;
    repeat rewrite <- app_assoc; rewrite ?app_nil_l, ?app_nil_r;
    reflexivity.
Qed.

Lemma hasItems_items {T : Type} (xs : option (list T)) (x : T) :
  In x (items xs) -> hasItems xs = true.
Proof. destruct xs as [[|y l]|]; simpl; intros H; now try destruct H. Qed.

(** X18. The system prompt begins with the agent's soul and tells the model
    everything the profile restricts: every forbidden action and every
    action that needs approval appears in the prompt, and every block
    trigger's message appears as a bullet. *)
Theorem prompt_mentions_restrictions (agente : Agente) (context : option PromptContext) :
  let prompt := buildSystemPrompt agente context in
  startsWith prompt (str (soul agente)) = true /\
  Forall (fun t => includes prompt ("- " ++ message t) = true)
    (items (gatilhos_bloqueio agente)) /\
  match regras agente with
  | Some r =>
      Forall (fun a => includes prompt a = true) (items (forbiddenActions r)) /\
      Forall (fun a => includes prompt a = true) (items (mustAskBefore r))
  | None => True
  end.
Proof.
  cbv zeta. rewrite prompt_parts. split; [|split].
  - unfold personaSection. destruct (soul agente) as [[|c s]|]; simpl truthyStr; cbv iota.
    + simpl str. now destruct (join _ _).
    + simpl app. apply startsWith_join.
    + simpl str. now destruct (join _ _).
  - apply Forall_forall. intros t Ht. apply includes_join.
    apply in_or_app; right. apply in_or_app; right. apply in_or_app; right.
    apply in_or_app; left. unfold triggersSection.
    rewrite (hasItems_items _ _ Ht). right.
    apply in_map_iff. now exists t.
  - destruct (regras agente) as [r|] eqn:Hr; [|exact I].
    split; apply Forall_forall; intros a Ha.
    + apply includes_trans
        with ("- You must NEVER: " ++ join ", " (items (forbiddenActions r)))%string;
        [|now apply includes_app_r, includes_join].
      apply includes_join. apply in_or_app; right. apply in_or_app; left.
      unfold rulesSection. rewrite Hr, (hasItems_items _ _ Ha).
      right. destruct (hasItems (allowedTaskTypes r)); simpl; auto.
    + apply includes_trans
        with ("- You must ASK FOR APPROVAL before: "
              ++ join ", " (items (mustAskBefore r)))%string;
        [|now apply includes_app_r, includes_join].
      apply includes_join. apply in_or_app; right. apply in_or_app; left.
      unfold rulesSection. rewrite Hr, (hasItems_items _ _ Ha).
      right. destruct (hasItems (allowedTaskTypes r)),
               (hasItems (forbiddenActions r)); simpl; auto.
Qed.

End PersonaMoreFacts.

(* ================================================================== *)
(** * The orchestrator: runs, pool, pausing and resuming *)
(* ================================================================== *)

Section RunFacts.
Import JsString JsMap Persona Orchestrator OrchestratorMore.

Lemma digits_val_nonneg (ds : list ascii) : (0 <= JsNumber.digits_val ds)%Z.
Proof.
  unfold JsNumber.digits_val.
  assert (H : forall acc, (0 <= acc)%Z ->
            (0 <= fold_left (fun acc c => (acc * 10 + JsNumber.digit_val c)%Z) ds acc)%Z).
  { induction ds as [|c ds IH]; intros acc Hacc; simpl; [exact Hacc|].
    apply IH. unfold JsNumber.digit_val. lia. }
  apply H. lia.
Qed.

Lemma read_decimal_nonneg (s : string) (q : Q) (rest : string) :
  JsNumber.read_decimal s = Some (q, rest) -> (0 <= q)%Q.
Proof.
  unfold JsNumber.read_decimal.
  destruct (JsNumber.span_digits s) as [ip r].
  assert (Hip : (0 <= inject_Z (JsNumber.digits_val ip))%Q).
  { unfold Qle; simpl. pose proof (digits_val_nonneg ip). lia. }
  assert (Hfrac : forall fp,
            (0 <= Qred (inject_Z (JsNumber.digits_val ip) +
                        Qmake (JsNumber.digits_val fp)
                              (Pos.pow 10 (Pos.of_nat (List.length fp)))))%Q).
  { intros fp. rewrite Qred_correct.
    assert (0 <= Qmake (JsNumber.digits_val fp)
                   (Pos.pow 10 (Pos.of_nat (List.length fp))))%Q.
    { unfold Qle; simpl. pose proof (digits_val_nonneg fp). lia. }
    lra. }
  destruct r as [|c r'].
  - destruct ip; [discriminate|]. intros [= <- _]. exact Hip.
  - destruct c as [[] [] [] [] [] [] [] []];
      try (destruct ip; [discriminate|]; intros [= <- _]; exact Hip).
    destruct (JsNumber.span_digits r') as [fp r''].
    intros H.
    assert (Hq : q = Qred (inject_Z (JsNumber.digits_val ip) +
                           Qmake (JsNumber.digits_val fp)
                                 (Pos.pow 10 (Pos.of_nat (List.length fp))))).
    { destruct ip, fp; try discriminate; now inversion H. }
    rewrite Hq. apply Hfrac.
Qed.

Lemma threshold_nonneg (condition : string) (t : Q) :
  threshold condition = Some t -> (0 <= t)%Q.
Proof.
  unfold threshold, JsNumber.parseFloat.
  destruct (JsNumber.read_decimal _) as [[q rest]|] eqn:E; [|discriminate].
  intros [= <-]. exact (read_decimal_nonneg _ _ _ E).
Qed.

Lemma scanTriggers_runSnapshot (triggers : list BlockTrigger) :
  scanTriggers triggers runSnapshot = None.
Proof.
  induction triggers as [|trigger rest IH]; [reflexivity|].
  cbn [scanTriggers runSnapshot uncertainty requiresExternalAccess isDestructive
       estimatedCost costLimit truthyBool].
  rewrite !andb_false_r.
  assert (H : exceeds 0 (threshold (toLowerCase (condition trigger))) = false).
  { unfold exceeds. destruct (threshold _) as [t|] eqn:E; [|reflexivity].
    apply threshold_nonneg in E. unfold JsNumber.gtb.
    destruct (0 ?= t)%Q eqn:C; try reflexivity.
    apply Qgt_alt in C. lra. }
  rewrite H, andb_false_r. exact IH.
Qed.

(** X19. The block check of a run never fires: on the signal snapshot that
    [runTaskExecution] passes (uncertainty 0, no external access, not
    destructive, no cost figures) [checkBlockTriggers] returns no trigger,
    whatever block triggers the agent's profile declares; a threshold read
    from a condition text is never negative. *)
Theorem run_block_check_never_fires (agente : Agente) :
  checkBlockTriggers agente runSnapshot = None /\
  (forall condition, exceeds 0 (threshold condition) = false).
Proof.
  split.
  - unfold checkBlockTriggers.
    destruct (negb (hasItems (gatilhos_bloqueio agente))); [reflexivity|].
    apply scanTriggers_runSnapshot.
  - intros condition. unfold exceeds.
    destruct (threshold condition) as [t|] eqn:E; [|reflexivity].
    apply threshold_nonneg in E. unfold JsNumber.gtb.
    destruct (0 ?= t)%Q eqn:C; try reflexivity.
    apply Qgt_alt in C. lra.
Qed.

End RunFacts.

Section PoolFacts.
Import JsString JsMap LedgerProps Orchestrator OrchestratorMore.

Lemma startExecution_executions q now taskId agentId :
  Queue.executions (fst (Queue.startExecution q now taskId agentId)) =
  set (Queue.executions q) (exec_id (Queue.execution (freshState now taskId agentId)))
    (freshState now taskId agentId).
Proof.
  unfold Queue.startExecution. cbn [fst]. unfold Queue.dequeue.
  destruct (get _ taskId); reflexivity.
Qed.


Lemma startExecution_snd q now taskId agentId :
  snd (Queue.startExecution q now taskId agentId) =
  Queue.execution (freshState now taskId agentId).
Proof. reflexivity. Qed.

Lemma selectAgent_In (pool : jsmap AgentInstance) (task : Task) (a : AgentInstance) :
  selectAgent pool task = Some a -> In a (values pool) /\ isAvailable a = true.
Proof.
  unfold selectAgent.
  destruct (List.length (filter isAvailable (values pool)) =? 0)%nat; [discriminate|].
  destruct (js_sort compareScored _) as [|best others] eqn:Es; [discriminate|].
  intros [= <-].
  assert (Hin : In best (js_sort compareScored
                           (map (fun agent => (agent, score agent))
                                (filter isAvailable (values pool)))))
    by (rewrite Es; now left).
  apply (proj1 (js_sort_In _ _ _)) in Hin. apply in_map_iff in Hin.
  destruct Hin as (x & <- & Hx). apply filter_In in Hx. exact Hx.
Qed.

Lemma selectAgent_some (pool : jsmap AgentInstance) (task : Task) (a : AgentInstance) :
  In a (values pool) -> isAvailable a = true -> exists b, selectAgent pool task = Some b.
Proof.
  intros Hin Hav. unfold selectAgent.
  assert (Hf : In a (filter isAvailable (values pool))) by (apply filter_In; now split).
  destruct (filter isAvailable (values pool)) as [|x l] eqn:E; [destruct Hf|].
  cbn [List.length Nat.eqb].
  destruct (js_sort compareScored _) as [|best others] eqn:Es.
  - pose proof (js_sort_length compareScored
                  (map (fun agent => (agent, score agent)) (x :: l))) as Hl.
    rewrite Es in Hl. simpl in Hl. discriminate.
  - now exists (fst best).
Qed.

Lemma executeTask_cases (o : t) (now : Z) (request : ExecuteTaskRequest) :
  (exists err, executeTask o now request = (o, inl err)) \/
  (exists task selectedAgent,
     Store.getTask (supabase o) (req_taskId request) = Some task /\
     (if Persona.truthyStr (req_agentId request)
      then get (agents o) (Persona.str (req_agentId request)) = Some selectedAgent
      else selectAgent (agents o) task = Some selectedAgent) /\
     executeTask o now request =
     started o now (requested task request) selectedAgent (req_context request)).
Proof.
  unfold executeTask.
  destruct (Store.getTask (supabase o) (req_taskId request)) as [task|];
    [|left; eauto].
  destruct (Persona.truthyStr (req_agentId request)) eqn:Et.
  - destruct (get (agents o) (Persona.str (req_agentId request))) as [a|] eqn:Ea;
      [|left; eauto].
    right. exists task, a. repeat split; auto.
  - destruct (selectAgent (agents o) task) as [a|] eqn:Ea; [|left; eauto].
    right. exists task, a. repeat split; auto.
Qed.




Lemma In_set_wf {V : Type} (m : jsmap V) k v kv :
  wf m -> In kv (set m k v) -> kv = (k, v) \/ (In kv m /\ fst kv <> k).
Proof.
  unfold wf, keys. induction m as [|[k' v'] r IH]; simpl; intros Hnd Hin.
  - destruct Hin as [<-|[]]. now left.
  - inversion Hnd as [|? ? Hnotin Hnd']; subst.
    destruct (String.eqb_spec k' k) as [->|Hne].
    + destruct Hin as [<-|Hin]; [now left|]. right. split; [now right|].
      intros E. apply Hnotin. rewrite <- E. now apply in_map.
    + destruct Hin as [<-|Hin]; [right; split; [now left|exact Hne]|].
      destruct (IH Hnd' Hin) as [->|[Hin' Hk]]; [now left|].
      right. split; [now right|exact Hk].
Qed.

Lemma has_of_keys {V W : Type} (m1 : jsmap V) (m2 : jsmap W) k :
  keys m1 = keys m2 -> has m1 k = has m2 k.
Proof.
  intros E. destruct (has m1 k) eqn:H1, (has m2 k) eqn:H2; try reflexivity.
  - apply has_keys in H1. rewrite E in H1. apply has_keys in H1. congruence.
  - apply has_keys in H2. rewrite <- E in H2. apply has_keys in H2. congruence.
Qed.

Lemma In_values_key {V : Type} (m : jsmap V) (v : V) :
  In v (values m) -> exists k, In (k, v) m.
Proof.
  unfold values. intros H. apply in_map_iff in H as ([k v'] & <- & H). now exists k.
Qed.

Lemma mirrored_register (o : t) (a : Agente) :
  mirrored o -> mirrored (fst (registerAgent o a)).
Proof.
  intros (Hk & Hwf & Hall). unfold registerAgent, mirrored. cbn [fst agents personas].
  split; [|split].
  - rewrite !keys_set. rewrite (has_of_keys _ _ _ Hk). now rewrite Hk.
  - now apply wf_set.
  - apply Forall_forall. intros kv Hin. apply In_set_wf in Hin; [|exact Hwf].
    destruct Hin as [->|[Hin Hne]].
    + cbn [fst snd inst_id agente]. repeat split. apply get_set_same.
    + rewrite Forall_forall in Hall. destruct (Hall _ Hin) as (H1 & H2 & H3).
      repeat split; auto. now rewrite get_set_other.
Qed.

Lemma mirrored_unregister (o : t) (agentId : string) :
  mirrored o -> mirrored (fst (unregisterAgent o agentId)).
Proof.
  intros (Hk & Hwf & Hall). unfold unregisterAgent, mirrored. cbn [fst agents personas].
  split; [|split].
  - rewrite !keys_delete. now rewrite Hk.
  - now apply wf_delete.
  - apply Forall_forall. intros kv Hin. unfold delete in Hin. apply filter_In in Hin.
    destruct Hin as [Hin Hne]. rewrite Forall_forall in Hall.
    destruct (Hall _ Hin) as (H1 & H2 & H3). repeat split; auto.
    rewrite get_delete_other; [exact H3|].
    intros E. rewrite E, String.eqb_refl in Hne. discriminate.
Qed.

(** Rewriting the fields of a pooled instance other than its id and persona
    keeps the pool mirrored. *)
Lemma mirrored_update (o o' : t) (a a' : AgentInstance) :
  mirrored o -> In a (values (agents o)) ->
  inst_id a' = inst_id a -> agente a' = agente a ->
  agents o' = set (agents o) (inst_id a) a' -> personas o' = personas o ->
  mirrored o'.
Proof.
  intros (Hk & Hwf & Hall) Hin Hid Hag Ea Ep. unfold mirrored. rewrite Ea, Ep.
  apply In_values_key in Hin as [k Hin].
  rewrite Forall_forall in Hall. destruct (Hall _ Hin) as (H1 & H2 & H3).
  cbn [fst snd] in *.
  assert (Hhas : has (agents o) (inst_id a) = true).
  { apply has_keys. rewrite H1. unfold keys. change k with (fst (k, a)). now apply in_map. }
  split; [|split].
  - rewrite keys_set, Hhas. exact Hk.
  - now apply wf_set.
  - apply Forall_forall. intros kv Hkv. apply In_set_wf in Hkv; [|exact Hwf].
    destruct Hkv as [->|[Hkv _]].
    + cbn [fst snd]. rewrite Hid, Hag, H1. repeat split; auto.
    + now apply Hall.
Qed.

Lemma mirrored_same (o o' : t) :
  agents o' = agents o -> personas o' = personas o -> mirrored o -> mirrored o'.
Proof. unfold mirrored. now intros -> ->. Qed.

Lemma mirrored_executeTask (o : t) (now : Z) (request : ExecuteTaskRequest) :
  mirrored o -> mirrored (fst (executeTask o now request)).
Proof.
  intros Hm.
  destruct (executeTask_cases o now request) as [[err ->]|(task & a & Ht & Hsel & ->)];
    [exact Hm|].
  assert (Hin : In a (values (agents o))).
  { destruct (Persona.truthyStr (req_agentId request)).
    - eapply get_values_In; eauto.
    - now apply selectAgent_In in Hsel. }
  unfold started. cbn [fst].
  eapply (mirrored_update o _ a); [exact Hm|exact Hin| | |reflexivity|reflexivity];
    reflexivity.
Qed.

Lemma mirrored_pauseTask (o : t) (now : Z) (taskId : string) :
  mirrored o -> mirrored (fst (pauseTask o now taskId)).
Proof.
  intros Hm. unfold pauseTask.
  destruct (Queue.getExecutionByTaskId (queue o) taskId) as [e|]; [|exact Hm].
  destruct (negb (ExecStatus_eqb (exec_status e) ex_running)); [exact Hm|].
  cbn [fst].
  destruct (get (agents o) (exec_agentId e)) as [a|] eqn:Ea.
  - assert (Hid : inst_id a = exec_agentId e).
    { destruct Hm as (_ & _ & Hall). rewrite Forall_forall in Hall.
      apply get_In in Ea. now destruct (Hall _ Ea) as (H1 & _). }
    eapply (mirrored_update o _ a (release a));
      [exact Hm|eapply get_values_In; eauto|reflexivity|reflexivity| |reflexivity].
    cbn [agents]. now rewrite Hid.
  - eapply mirrored_same; eauto; reflexivity.
Qed.

Lemma mirrored_resumeTask (o : t) (now : Z) (taskId : string) :
  mirrored o -> mirrored (fst (resumeTask o now taskId)).
Proof.
  intros Hm. unfold resumeTask.
  destruct (Store.getTask (supabase o) taskId) as [task|]; [|exact Hm].
  destruct (negb (TaskStatus_eqb (task_status task) bloqueado)); [exact Hm|].
  match goal with
  | |- context [executeTask ?o1 ?n ?r] =>
      pose proof (mirrored_executeTask o1 n r) as H;
      destruct (executeTask o1 n r) as [o2 [err|response]]
  end; cbn [fst] in *; apply H; eapply mirrored_same; eauto; reflexivity.
Qed.

Lemma mirrored_processNextTask (o : t) (now : Z) :
  mirrored o -> mirrored (processNextTask o now).
Proof.
  intros Hm. unfold processNextTask.
  destruct (List.length (getAvailableAgents o) =? 0)%nat; [exact Hm|].
  destruct (Queue.getNext (queue o) now) as [task|]; [|exact Hm].
  match goal with
  | |- context [executeTask ?o1 ?n ?r] =>
      pose proof (mirrored_executeTask o1 n r Hm) as H;
      destruct (executeTask o1 n r) as [o2 [err|response]]
  end; cbn [fst] in *; [|exact H].
  destruct (Queue.canRetry (queue o2) (task_id task)); [|exact H].
  eapply mirrored_same; eauto; reflexivity.
Qed.

Lemma mirrored_initialize (o : t) (now : Z) (agentes : list Agente) (tasks : list Task) :
  mirrored o -> mirrored (initialize o now agentes tasks).
Proof.
  intros Hm. unfold initialize.
  eapply mirrored_same; [reflexivity|reflexivity|].
  revert o Hm. induction agentes as [|a l IH]; intros o Hm; simpl; [exact Hm|].
  apply IH. now apply mirrored_register.
Qed.

Lemma mirrored_perform (o : t) (c : Call) : mirrored o -> mirrored (perform o c).
Proof.
  intros Hm. destruct c; simpl.
  - now apply mirrored_initialize.
  - now apply mirrored_register.
  - now apply mirrored_unregister.
  - now apply mirrored_executeTask.
  - now apply mirrored_pauseTask.
  - now apply mirrored_resumeTask.
  - unfold start. destruct (isRunning o); [exact Hm|].
    eapply mirrored_same; eauto; reflexivity.
  - unfold stop. destruct (negb (isRunning o)); [exact Hm|].
    eapply mirrored_same; eauto; reflexivity.
  - now apply mirrored_processNextTask.
Qed.

Lemma afterCalls_mirrored supabase optMaxRetries history :
  mirrored (afterCalls supabase optMaxRetries history).
Proof.
  unfold afterCalls.
  assert (H0 : mirrored (create supabase optMaxRetries)).
  { unfold mirrored, create; simpl. repeat split; constructor. }
  revert H0. generalize (create supabase optMaxRetries).
  induction history as [|c l IH]; intros o Ho; simpl; [exact Ho|].
  apply IH. now apply mirrored_perform.
Qed.

(** X22. Whatever orchestrator methods have been called, the agent pool and
    the persona registry stay in step: they list the same ids in the same
    order, no id twice, every instance is stored under its own id and the
    registry holds its persona under that id; so an agent that [selectAgent]
    returns can be looked up by its id in both, and unregistering an id
    removes it from both. *)
Theorem pool_mirrors_personas (supabase : Store.t) (optMaxRetries : option nat)
  (history : list Call) :
  let o := afterCalls supabase optMaxRetries history in
  keys (agents o) = keys (personas o) /\
  wf (agents o) /\
  (forall task a, selectAgent (agents o) task = Some a ->
     get (agents o) (inst_id a) = Some a /\
     PersonaMore.get (personas o) (inst_id a) = Some (agente a) /\
     agente_id (agente a) = inst_id a) /\
  (forall agentId,
     let o' := fst (unregisterAgent o agentId) in
     has (agents o') agentId = false /\ has (personas o') agentId = false /\
     snd (unregisterAgent o agentId) = has (personas o) agentId).
Proof.
  cbv zeta. pose proof (afterCalls_mirrored supabase optMaxRetries history) as Hm.
  remember (afterCalls supabase optMaxRetries history) as o eqn:Eo. clear Eo.
  destruct Hm as (Hk & Hwf & Hall).
  split; [exact Hk|]. split; [exact Hwf|]. split.
  - intros task a Hsel. apply selectAgent_In in Hsel as [Hin _].
    apply In_values_key in Hin as [k Hin].
    rewrite Forall_forall in Hall. destruct (Hall _ Hin) as (H1 & H2 & H3).
    cbn [fst snd] in *. rewrite H1. split; [now apply In_get|].
    split; [exact H3|exact H2].
  - intros agentId. unfold unregisterAgent. cbn [fst snd agents personas].
    unfold has. rewrite !get_delete_same. split; [reflexivity|]. split; [reflexivity|].
    apply (has_of_keys _ _ _ Hk).
Qed.

End PoolFacts.

(* ================================================================== *)
(** * The workflow engine: the execution loop and the templates *)
(* ================================================================== *)

Section WorkflowRunFacts.
Import JsString JsMap Workflow WorkflowRun.

Lemma executeStep_next (w : World) (s : Step) (context : Context) :
  nextStepId (executeStep w s context) = None \/
  exists c, config s = Condition c /\
            (nextStepId (executeStep w s context) = Some (trueStep c) \/
             nextStepId (executeStep w s context) = Some (falseStep c)).
Proof.
  unfold executeStep. destruct (config s) as [c|c|c|c|c|type].
  - left. destruct (agentTask w c context); reflexivity.
  - unfold executeCondition. destruct (evaluateCondition (check c) context) as [[]|msg].
    + right. exists c. split; [reflexivity|]. now left.
    + right. exists c. split; [reflexivity|]. now right.
    + now left.
  - now left.
  - left. unfold executeWait.
    destruct (Persona.truthyNum _), (Persona.truthyStr (until c)),
      (Persona.truthyStr (event c)); reflexivity.
  - left. unfold executeNotify.
    destruct (interpolateInput (template c) (input context)); [|reflexivity].
    destruct (channel c), (target c) as [t|]; try reflexivity.
    destruct (JsString.truthy t); [|reflexivity].
    destruct (negb (sent _)); reflexivity.
  - now left.
Qed.

Lemma after_named (steps : list Step) (i j : nat) (id : option string) :
  after steps i id = true -> named (map step steps) id = Some j -> (i < j)%nat.
Proof. unfold after. intros H E. rewrite E in H. now apply Nat.ltb_lt. Qed.

Lemma transfer_forward (steps : list Step) (i j : nat) (s : Step) (w : World)
  (context : Context) :
  stepForward steps i s = true ->
  targetOf (transfer (map step steps) i (step s) (executeStep w s context)) = Some j ->
  (i < j)%nat.
Proof.
  unfold stepForward. intros H.
  apply andb_true_iff in H as [H Hc]. apply andb_true_iff in H as [Hs Hf].
  unfold transfer.
  destruct (negb (success (executeStep w s context))).
  - destruct (named (map step steps) (onFailure (step s))) as [k|] eqn:E; simpl;
      [|discriminate].
    intros [= <-]. exact (after_named _ _ _ _ Hf E).
  - destruct (named (map step steps) (nextStepId (executeStep w s context)))
      as [k|] eqn:En.
    + simpl. intros [= <-].
      destruct (executeStep_next w s context) as [E|(c & Ec & [E|E])];
        rewrite E in En.
      * unfold named in En. discriminate.
      * rewrite Ec in Hc. apply andb_true_iff in Hc as [Ht Hfl].
        exact (after_named _ _ _ _ Ht En).
      * rewrite Ec in Hc. apply andb_true_iff in Hc as [Ht Hfl].
        exact (after_named _ _ _ _ Hfl En).
    + destruct (named (map step steps) (onSuccess (step s))) as [k|] eqn:E; simpl;
        intros [= <-]; [exact (after_named _ _ _ _ Hs E)|lia].
Qed.

Lemma allForward_nth (steps rest : list Step) : forall (k j : nat) (s : Step),
  allForward steps k rest = true -> nth_error rest j = Some s ->
  stepForward steps (k + j) s = true.
Proof.
  induction rest as [|x rest IH]; intros k j s H Hn; [destruct j; discriminate|].
  simpl in H. apply andb_true_iff in H as [Hx Hrest].
  destruct j as [|j]; simpl in Hn.
  - injection Hn as <-. now rewrite Nat.add_0_r.
  - rewrite <- Nat.add_succ_comm. now apply IH.
Qed.

Lemma runLoop_forward (steps : list Step) (world : nat -> World) :
  jumpsForward steps = true ->
  forall (fuel start pass : nat) (context : Context),
    (List.length steps - start < fuel)%nat ->
    ending (runLoop steps world fuel pass start context) <> Unfinished /\
    Forall (fun i => (start <= i < List.length steps)%nat)
      (visited (runLoop steps world fuel pass start context)) /\
    StronglySorted lt (visited (runLoop steps world fuel pass start context)).
Proof.
  intros Hfw. induction fuel as [|fuel IH]; intros start pass context Hfuel; [lia|].
  simpl. destruct (nth_error steps start) as [s|] eqn:Es.
  2:{ simpl. repeat split; try constructor. discriminate. }
  assert (Hlt : (start < List.length steps)%nat).
  { apply nth_error_Some. congruence. }
  destruct (negb (active (world pass))).
  { simpl. repeat split; try constructor. discriminate. }
  pose proof (allForward_nth steps steps 0 start s Hfw Es) as Hsf. simpl in Hsf.
  pose proof (fun j => transfer_forward steps start j s (world pass) context Hsf) as Hj.
  assert (Hgo : forall j,
            (start < j)%nat ->
            let r := visit start
                       (runLoop steps world fuel (S pass) j
                          (record context s (executeStep (world pass) s context))) in
            ending r <> Unfinished /\
            Forall (fun i => (start <= i < List.length steps)%nat) (visited r) /\
            StronglySorted lt (visited r)).
  { intros j Hsj. cbv zeta. simpl.
    destruct (IH j (S pass)
                (record context s (executeStep (world pass) s context)))
      as (He & Hall & Hsorted); [lia|].
    split; [exact He|]. split.
    - constructor; [lia|]. eapply Forall_impl; [|exact Hall]. simpl. intros a Ha. lia.
    - constructor; [exact Hsorted|].
      eapply Forall_impl; [|exact Hall]. simpl. intros a Ha. lia. }
  destruct (transfer (map step steps) start (step s) (executeStep (world pass) s context))
    as [j|reason|j|j|j]; simpl in Hj.
  - apply Hgo. now apply Hj.
  - simpl. split; [discriminate|]. split; repeat constructor; lia.
  - apply Hgo. now apply Hj.
  - apply Hgo. now apply Hj.
  - apply Hgo. now apply Hj.
Qed.

Lemma sorted_length (l : list nat) : forall lo n : nat,
  StronglySorted lt l -> Forall (fun i => (lo <= i < n)%nat) l ->
  (List.length l <= n - lo)%nat.
Proof.
  induction l as [|a l IH]; intros lo n Hs Hb; simpl; [lia|].
  inversion Hs as [|? ? Hs' Ha]; subst. inversion Hb as [|? ? Han Hb']; subst.
  assert (Hl : (List.length l <= n - S a)%nat); [|lia].
  apply IH; [exact Hs'|]. rewrite Forall_forall in *. intros x Hx.
  specialize (Ha _ Hx). specialize (Hb' _ Hx). lia.
Qed.

(** X25. A workflow whose jumps all go forward always ends: when every
    [onSuccess] and [onFailure] of a step, and both branches of a condition
    step, name a later step or no step, [runWorkflow] leaves its loop after
    at most one pass per step, whatever the steps do; it executes steps in
    strictly increasing order of position, each at most once.  The built-in
    templates are such workflows. *)
Theorem forward_workflows_end (steps : list Step) (world : nat -> World)
  (fuel : nat) (input : list (string * jsval)) :
  jumpsForward steps = true ->
  (List.length steps < fuel)%nat ->
  let r := runWorkflow steps world fuel input in
  ending r <> Unfinished /\
  StronglySorted lt (visited r) /\
  Forall (fun i => (i < List.length steps)%nat) (visited r) /\
  (List.length (visited r) <= List.length steps)%nat.
Proof.
  intros Hfw Hfuel. cbv zeta. unfold runWorkflow.
  destruct (runLoop_forward steps world Hfw fuel 0 0
              {| input := input; stepResults := [] |}) as (He & Hall & Hs); [lia|].
  split; [exact He|]. split; [exact Hs|]. split.
  - eapply Forall_impl; [|exact Hall]. simpl. intros a Ha. lia.
  - pose proof (sorted_length _ 0 (List.length steps) Hs Hall). lia.
Qed.

Lemma forward_workflows_end_witness :
  jumpsForward codeReview = true /\ jumpsForward taskAssignment = true /\
  ending (runWorkflow codeReview WorkflowSamples.calm 6 []) <> Unfinished.
Proof.
  assert (H : jumpsForward codeReview = true) by reflexivity.
  split; [exact H|]. split; [reflexivity|].
  refine (proj1 (forward_workflows_end codeReview WorkflowSamples.calm 6 [] H _)).
  simpl. lia.
Defined.

(** X26. The loop has no guard against cycles: when the step at some
    position always sends the run back to that same position (it succeeds
    and its [onSuccess] names itself, say) and the execution is not stopped,
    [runWorkflow] never leaves its loop, executing that step on every
    pass. *)
Theorem jump_back_never_ends (steps : list Step) (world : nat -> World) (i : nat)
  (s : Step) :
  nth_error steps i = Some s ->
  (forall pass context,
     active (world pass) = true /\
     targetOf (transfer (map step steps) i (step s) (executeStep (world pass) s context))
     = Some i) ->
  forall (fuel pass : nat) (context : Context),
    ending (runLoop steps world fuel pass i context) = Unfinished /\
    visited (runLoop steps world fuel pass i context) = repeat i fuel.
Proof.
  intros Hs Hback. induction fuel as [|fuel IH]; intros pass context; [now split|].
  simpl. rewrite Hs. destruct (Hback pass context) as [Ha Ht]. rewrite Ha. cbn [negb].
  destruct (transfer (map step steps) i (step s) (executeStep (world pass) s context))
    as [j|reason|j|j|j]; simpl in Ht; try discriminate; injection Ht as ->;
    simpl; destruct (IH (S pass) (record context s (executeStep (world pass) s context)))
      as [He Hv]; now rewrite He, Hv.
Qed.

Lemma jump_back_never_ends_witness :
  ending (runWorkflow WorkflowSamples.spinning WorkflowSamples.calm 1000 []) = Unfinished /\
  visited (runWorkflow WorkflowSamples.spinning WorkflowSamples.calm 3 []) = [0; 0; 0]%nat.
Proof.
  assert (Hback : forall pass context,
            active (WorkflowSamples.calm pass) = true /\
            targetOf (transfer (map step WorkflowSamples.spinning) 0
                        (step WorkflowSamples.again)
                        (executeStep (WorkflowSamples.calm pass)
                           WorkflowSamples.again context))
            = Some 0%nat)
    by (intros pass context; split; reflexivity).
  unfold runWorkflow. split.
  - exact (proj1 (jump_back_never_ends WorkflowSamples.spinning WorkflowSamples.calm 0 _
                    eq_refl Hback 1000 0 _)).
  - exact (proj2 (jump_back_never_ends WorkflowSamples.spinning WorkflowSamples.calm 0 _
                    eq_refl Hback 3 0 _)).
Defined.

Lemma findIndex_withOnBlock (f : Step -> option string) (steps : list Step) (id : string) :
  findIndex (map step (map (withOnBlock f) steps)) id = findIndex (map step steps) id.
Proof.
  induction steps as [|s steps IH]; simpl; [reflexivity|]. now rewrite IH.
Qed.

Lemma transfer_withOnBlock (f : Step -> option string) (steps : list Step) (i : nat)
  (s : Step) (r : StepResult) :
  transfer (map step (map (withOnBlock f) steps)) i (step (withOnBlock f s)) r =
  transfer (map step steps) i (step s) r.
Proof.
  assert (Hn : forall id,
            named (map step (map (withOnBlock f) steps)) id = named (map step steps) id).
  { intros [id|]; [|reflexivity]. unfold named.
    destruct (JsString.truthy id); [apply findIndex_withOnBlock|reflexivity]. }
  unfold transfer. cbn [withOnBlock step onFailure onSuccess].
  now rewrite !Hn.
Qed.

(** X27. The loop never reads [onBlock]: replacing the [onBlock] of every
    step by anything else changes neither the steps that are executed nor
    how the run ends.  An agent task that ends blocked is reported as a
    success, so the run continues at [onSuccess] or the next step. *)
Theorem onBlock_is_never_read (f : Step -> option string) (steps : list Step)
  (world : nat -> World) (fuel pass i : nat) (context : Context) :
  runLoop (map (withOnBlock f) steps) world fuel pass i context =
  runLoop steps world fuel pass i context /\
  (forall c executionId w s,
     config s = AgentTask c -> agentTask w c context = SawBlocked executionId ->
     WorkflowProps.isFailure
       (transfer (map step steps) i (step s) (executeStep w s context)) = false).
Proof.
  split.
  - revert pass i context. induction fuel as [|fuel IH]; intros pass i context;
      [reflexivity|].
    simpl. rewrite nth_error_map. destruct (nth_error steps i) as [s|]; [|reflexivity].
    cbn [option_map]. destruct (negb (active (world pass))); [reflexivity|].
    change (executeStep (world pass) (withOnBlock f s) context)
      with (executeStep (world pass) s context).
    rewrite transfer_withOnBlock.
    change (record context (withOnBlock f s) (executeStep (world pass) s context))
      with (record context s (executeStep (world pass) s context)).
    destruct (transfer (map step steps) i (step s) (executeStep (world pass) s context));
      try reflexivity; now rewrite IH.
  - intros c executionId w s Hc Hb. unfold executeStep. rewrite Hc, Hb.
    unfold transfer. cbn [agentTaskResult success nextStepId negb named].
    destruct (named (map step steps) (onSuccess (step s))); reflexivity.
Qed.

Lemma runLoop_step (steps : list Step) (world : nat -> World) (fuel pass i : nat)
  (context : Context) (s : Step) :
  nth_error steps i = Some s -> active (world pass) = true ->
  runLoop steps world (S fuel) pass i context =
  match transfer (map step steps) i (step s) (executeStep (world pass) s context) with
  | FailWorkflow reason => {| visited := [i]; ending := Failed reason |}
  | JumpOnFailure index | JumpNextStepId index | JumpOnSuccess index | Advance index =>
      visit i (runLoop steps world fuel (S pass) index
                 (record context s (executeStep (world pass) s context)))
  end.
Proof. intros Hs Ha. simpl. rewrite Hs, Ha. reflexivity. Qed.

Lemma runLoop_end (steps : list Step) (world : nat -> World) (fuel pass i : nat)
  (context : Context) :
  nth_error steps i = None ->
  runLoop steps world (S fuel) pass i context =
  {| visited := []; ending := Completed (stepResults context) |}.
Proof. intros Hs. simpl. now rewrite Hs. Qed.

Lemma evaluate_check (context : Context) :
  evaluateCondition "results.test.success == true" context =
  Returned (identical (walk ["test"; "success"] (Value (JObj (stepResults context))))
              (JBool true)).
Proof. vm_compute. reflexivity. Qed.

Lemma hasOwn_set_same (fields : list (string * jsval)) (k : string) (v : jsval) :
  hasOwn (set fields k v) k = true.
Proof.
  unfold hasOwn. induction fields as [|[k' v'] r IH]; simpl.
  - now rewrite String.eqb_refl.
  - destruct (String.eqb k' k) eqn:E; simpl; [now rewrite String.eqb_refl|].
    now rewrite E.
Qed.

Lemma lookup_set_same (fields : list (string * jsval)) (k : string) (v : jsval) :
  lookup (set fields k v) k = v.
Proof.
  induction fields as [|[k' v'] r IH]; simpl.
  - now rewrite String.eqb_refl.
  - destruct (String.eqb k' k) eqn:E; simpl; [now rewrite String.eqb_refl|].
    now rewrite E.
Qed.

Lemma transfer_plain (steps : list WorkflowStep) (i : nat) (s : WorkflowStep)
  (r : StepResult) :
  nextStepId r = None ->
  transfer steps i s r =
  if success r
  then match named steps (onSuccess s) with
       | Some j => JumpOnSuccess j
       | None => Advance (S i)
       end
  else match named steps (onFailure s) with
       | Some j => JumpOnFailure j
       | None =>
           FailWorkflow (match error r with
                         | Some e => if JsString.truthy e then e else "Step failed"
                         | None => "Step failed"
                         end)
       end.
Proof. intros H. unfold transfer. rewrite H. destruct (success r); reflexivity. Qed.

Lemma agentTaskResult_next (c : AgentTaskConfig) (o : AgentOutcome) :
  nextStepId (agentTaskResult c o) = None.
Proof. destruct o; reflexivity. Qed.

Lemma walk_own (fields : list (string * jsval)) (part : string) (rest : list string) :
  hasOwn fields part = true ->
  walk (part :: rest) (Value (JObj fields)) = walk rest (Value (lookup fields part)).
Proof. intros H. cbn [walk getProp]. now rewrite H. Qed.

Lemma interpolateInput_convertible (entries : list (string * jsval)) :
  forall message,
    if allConvertible entries
    then exists text, interpolateInput message entries = Returned text
    else exists msg, interpolateInput message entries = Thrown msg.
Proof.
  unfold allConvertible.
  induction entries as [|kv rest IH]; intros message; cbn [forallb interpolateInput].
  - eexists; reflexivity.
  - destruct (toStr (snd kv)) as [text|msg]; cbn [andb]; [apply IH|].
    eexists; reflexivity.
Qed.

(** A notify step without target succeeds when every value of the input has
    a text, and fails otherwise. *)
Lemma notify_untargeted (w : World) (s : Step) (c : NotifyConfig) (context : Context) :
  config s = Notify c -> target c = None ->
  nextStepId (executeStep w s context) = None /\
  success (executeStep w s context) = allConvertible (input context).
Proof.
  intros Hc Ht. unfold executeStep, executeNotify. rewrite Hc, Ht.
  pose proof (interpolateInput_convertible (input context) (template c)) as H.
  destruct (allConvertible (input context)).
  - destruct H as (text & ->). destruct (channel c); split; reflexivity.
  - destruct H as (msg & ->). split; reflexivity.
Qed.

(** The output of an agent task that succeeded has no [success] field. *)
Lemma agent_output_no_success (c : AgentTaskConfig) (o : AgentOutcome) :
  identical
    (walk ["success"]
       (Value (match output (agentTaskResult c o) with
               | Some v => v
               | None => JUndefined
               end)))
    (JBool true) = false.
Proof. destruct o; reflexivity. Qed.

Ltac compute_named :=
  repeat match goal with
  | |- context [named ?l ?id] =>
      let v := eval vm_compute in (named l id) in
      change (named l id) with v
  end.

Lemma codeReview_runs (world : nat -> World) (fuel : nat) (input : list (string * jsval)) :
  (forall pass, active (world pass) = true) ->
  exists l e,
    runWorkflow codeReview world (6 + fuel) input = {| visited := l; ending := e |} /\
    (l = [0; 4] \/ l = [0; 1; 4] \/ l = [0; 1; 2; 4])%nat /\
    (if allConvertible input then isCompleted e = true else isFailed e = true).
Proof.
  intros Ha. unfold runWorkflow.
  change (6 + fuel)%nat with (S (S (S (S (S (S fuel)))))).
  assert (Hlast : forall f pass context,
            exists e,
              runLoop codeReview world (S (S f)) pass 4 context =
                {| visited := [4%nat]; ending := e |} /\
              (if allConvertible (Workflow.input context)
               then isCompleted e = true else isFailed e = true)).
  { intros f pass context.
    rewrite (runLoop_step codeReview world (S f) pass 4 context _ eq_refl (Ha pass)).
    destruct (notify_untargeted (world pass)
                (notifyStep "notify_failure" "Notify Failure"
                   "Code review failed. Please check the issues.")
                _ context eq_refl eq_refl) as [Hn Hs].
    rewrite transfer_plain by exact Hn. rewrite Hs. compute_named.
    destruct (allConvertible (Workflow.input context)); cbv beta iota.
    - rewrite runLoop_end by reflexivity. eexists. split; reflexivity.
    - eexists. split; reflexivity. }
  (* analyze *)
  rewrite (runLoop_step codeReview world _ 0 0 _ _ eq_refl (Ha 0%nat)).
  unfold executeStep at 1. cbn [config agentStep].
  rewrite transfer_plain by apply agentTaskResult_next. compute_named.
  match goal with
  | |- context [if success ?r then _ else _] => destruct (success r); cbv beta iota
  end.
  2:{ match goal with
      | |- context [runLoop codeReview world (S (S ?f)) ?pass 4 ?c] =>
          destruct (Hlast f pass c) as (e & -> & He)
      end.
      unfold visit. cbn [visited ending]. eexists; eexists.
      split; [reflexivity|]. split; [now left|exact He]. }
  (* test *)
  rewrite (runLoop_step codeReview world _ 1 1 _ _ eq_refl (Ha 1%nat)).
  unfold executeStep at 1. cbn [config agentStep].
  rewrite transfer_plain by apply agentTaskResult_next. compute_named.
  match goal with
  | |- context [if success ?r then _ else _] =>
      destruct (success r) eqn:Et; cbv beta iota
  end.
  2:{ match goal with
      | |- context [runLoop codeReview world (S (S ?f)) ?pass 4 ?c] =>
          destruct (Hlast f pass c) as (e & -> & He)
      end.
      unfold visit. cbn [visited ending]. eexists; eexists.
      split; [reflexivity|]. split; [right; now left|exact He]. }
  (* check_results *)
  rewrite (runLoop_step codeReview world _ 2 2 _ _ eq_refl (Ha 2%nat)).
  unfold executeStep at 1. cbn [config]. unfold executeCondition at 1.
  cbn [check trueStep falseStep].
  rewrite evaluate_check.
  unfold record at 1. cbn [stepResults step step_id agentStep].
  rewrite walk_own by apply hasOwn_set_same. rewrite lookup_set_same.
  unfold executeStep at 1. cbn [config agentStep].
  rewrite agent_output_no_success.
  unfold transfer. cbn [success negb nextStepId]. compute_named. cbv beta iota.
  match goal with
  | |- context [runLoop codeReview world (S (S ?f)) ?pass 4 ?c] =>
      destruct (Hlast f pass c) as (e & -> & He)
  end.
  unfold visit. cbn [visited ending]. eexists; eexists.
  split; [reflexivity|]. split; [right; now right|exact He].
Qed.

Lemma taskAssignment_runs (world : nat -> World) (fuel : nat)
  (input : list (string * jsval)) :
  (forall pass, active (world pass) = true) ->
  allConvertible input = true ->
  exists l e,
    runWorkflow taskAssignment world (6 + fuel) input = {| visited := l; ending := e |} /\
    ((isFailed e = true /\ (l = [0] \/ l = [0; 1])) \/
     (isCompleted e = true /\ l = [0; 1; 2; 3]))%nat /\
    ((forall pass c context,
        success (agentTaskResult c (agentTask (world pass) c context)) = true) ->
     l = [0; 1; 2; 3]%nat).
Proof.
  intros Ha Hconv. unfold runWorkflow.
  change (6 + fuel)%nat with (S (S (S (S (S (S fuel)))))).
  (* assign *)
  rewrite (runLoop_step taskAssignment world _ 0 0 _ _ eq_refl (Ha 0%nat)).
  unfold executeStep at 1. cbn [config agentStep].
  rewrite transfer_plain by apply agentTaskResult_next. compute_named.
  match goal with
  | |- context [if success ?r then _ else _] =>
      destruct (success r) eqn:E0; cbv beta iota
  end.
  2:{ eexists; eexists. split; [reflexivity|]. split; [left; split; [reflexivity|now left]|].
      intros Hall. rewrite Hall in E0. discriminate. }
  (* execute *)
  rewrite (runLoop_step taskAssignment world _ 1 1 _ _ eq_refl (Ha 1%nat)).
  unfold executeStep at 1. cbn [config agentStep].
  rewrite transfer_plain by apply agentTaskResult_next. compute_named.
  match goal with
  | |- context [if success ?r then _ else _] =>
      destruct (success r) eqn:E1; cbv beta iota
  end.
  2:{ unfold visit. cbn [visited ending]. eexists; eexists. split; [reflexivity|].
      split; [left; split; [reflexivity|now right]|].
      intros Hall. rewrite Hall in E1. discriminate. }
  (* notify_complete *)
  rewrite (runLoop_step taskAssignment world _ 2 2 _ _ eq_refl (Ha 2%nat)).
  match goal with
  | |- context [transfer _ 2 (step ?s) (executeStep ?w ?s ?c)] =>
      destruct (notify_untargeted w s _ c eq_refl eq_refl) as [Hn Hs]
  end.
  rewrite transfer_plain by exact Hn. rewrite Hs. cbn [Workflow.input record].
  rewrite Hconv. compute_named. cbv beta iota.
  clear Hs Hn.
  (* notify_blocked *)
  rewrite (runLoop_step taskAssignment world _ 3 3 _ _ eq_refl (Ha 3%nat)).
  match goal with
  | |- context [transfer _ 3 (step ?s) (executeStep ?w ?s ?c)] =>
      destruct (notify_untargeted w s _ c eq_refl eq_refl) as [Hn Hs]
  end.
  rewrite transfer_plain by exact Hn. rewrite Hs. cbn [Workflow.input record].
  rewrite Hconv. compute_named. cbv beta iota.
  rewrite runLoop_end by reflexivity.
  unfold visit. cbn [visited ending]. eexists; eexists. split; [reflexivity|].
  split; [right; split; reflexivity|]. reflexivity.
Qed.

(** X28. With the built-in templates the loop does not take the routes
    their step names suggest.  In the code-review template the check
    [results.test.success == true] reads a field that no agent-task output
    has, so the approve step is never executed and every run ends at the
    failure notification: completed when every value of the input has a
    text, failed when one has none (the notification then throws while it
    interpolates its message).  In the task-assignment template, on an input
    whose values all have a text, a run that no agent step fails executes
    both the completion and the blocked notification, also when the execute
    step ended blocked. *)
Theorem builtin_templates_route (world : nat -> World) (fuel : nat)
  (input : list (string * jsval)) :
  (forall pass, active (world pass) = true) ->
  (6 <= fuel)%nat ->
  let review := runWorkflow codeReview world fuel input in
  let assignment := runWorkflow taskAssignment world fuel input in
  ~ In 3%nat (visited review) /\
  List.last (visited review) 0%nat = 4%nat /\
  (if allConvertible input
   then isCompleted (ending review) = true
   else isFailed (ending review) = true) /\
  (allConvertible input = true ->
   ((isFailed (ending assignment) = true /\
     (visited assignment = [0] \/ visited assignment = [0; 1]))
    \/ (isCompleted (ending assignment) = true /\ visited assignment = [0; 1; 2; 3]))%nat /\
   ((forall pass c context,
       success (agentTaskResult c (agentTask (world pass) c context)) = true) ->
    visited assignment = [0; 1; 2; 3]%nat)).
Proof.
  intros Ha Hfuel. cbv zeta.
  replace fuel with (6 + (fuel - 6))%nat by lia.
  destruct (codeReview_runs world (fuel - 6) input Ha) as (l & e & -> & Hl & He).
  cbn [visited ending].
  split.
  { destruct Hl as [-> | [-> | ->]]; simpl; intuition discriminate. }
  split.
  { destruct Hl as [-> | [-> | ->]]; reflexivity. }
  split; [exact He|].
  intros Hconv.
  destruct (taskAssignment_runs world (fuel - 6) input Ha Hconv)
    as (l' & e' & -> & He' & Hall).
  cbn [visited ending]. split; [exact He'|exact Hall].
Qed.

Lemma builtin_templates_route_witness :
  ~ In 3%nat (visited (runWorkflow codeReview WorkflowSamples.calm 6
                         (Workflow.input Samples.opaqueContext))) /\
  isFailed (ending (runWorkflow codeReview WorkflowSamples.calm 6
                      (Workflow.input Samples.opaqueContext))) = true /\
  visited (runWorkflow taskAssignment WorkflowSamples.calm 6 []) = [0; 1; 2; 3]%nat.
Proof.
  assert (Ha : forall pass, active (WorkflowSamples.calm pass) = true)
    by (intros pass; reflexivity).
  assert (Hf : (6 <= 6)%nat) by lia.
  destruct (builtin_templates_route WorkflowSamples.calm 6
              (Workflow.input Samples.opaqueContext) Ha Hf) as (H3 & _ & Hfail & _).
  destruct (builtin_templates_route WorkflowSamples.calm 6 [] Ha Hf)
    as (_ & _ & _ & Hall).
  split; [exact H3|]. split; [exact Hfail|].
  apply (Hall eq_refl). intros pass c context. reflexivity.
Defined.

Lemma firstByTaskId_app (l l' : list Queue.ExecutionState) (taskId : string)
  (e : TaskExecution) :
  Queue.firstByTaskId l taskId = Some e -> Queue.firstByTaskId (l ++ l') taskId = Some e.
Proof.
  induction l as [|st l IH]; simpl; [discriminate|].
  destruct (String.eqb (exec_taskId (Queue.execution st)) taskId); auto.
Qed.

Lemma startExecution_keeps_first (q : Queue.TaskQueue) (now : Z)
  (taskId agentId tid : string) (e : TaskExecution) :
  Queue.getExecutionByTaskId q tid = Some e ->
  Queue.getExecution q (exec_id (snd (Queue.startExecution q now taskId agentId))) = None ->
  Queue.getExecutionByTaskId (fst (Queue.startExecution q now taskId agentId)) tid = Some e.
Proof.
  intros He Hfresh. unfold Queue.getExecutionByTaskId in *.
  rewrite startExecution_executions. rewrite startExecution_snd in Hfresh.
  unfold Queue.getExecution in Hfresh.
  destruct (get (Queue.executions q) _) eqn:Eg; [discriminate|].
  rewrite (get_None_set _ _ _ Eg). unfold values. rewrite map_app.
  now apply firstByTaskId_app.
Qed.

(** X29. An agent-task step judges the task by the first execution the
    ledger records for it, not by the one it has just started: when the task
    already has an execution and [executeTask] starts a new one, the first
    pass of the polling (made before the new run can proceed) reads the
    status of the old execution.  An old completed, failed or blocked
    execution ends the step at once, as completed, failed or blocked, with
    the id of the new execution in its output; otherwise the polling goes
    on. *)
Theorem agent_task_reads_first_execution (o o' : Orchestrator.t) (now startTime t0 : Z)
  (observe : nat -> Z * Orchestrator.t) (fuel : nat) (config : AgentTaskConfig)
  (context : Context) (tid : string) (e : TaskExecution)
  (response : ExecuteTaskResponse) :
  lookup (input context) "taskId" = JStr tid ->
  JsString.truthy tid = true ->
  Orchestrator.executeTask o now (taskRequest config context) = (o', inr response) ->
  Queue.getExecutionByTaskId (Orchestrator.queue o) tid = Some e ->
  Queue.getExecution (Orchestrator.queue o) (resp_executionId response) = None ->
  observe 0%nat = (t0, o') ->
  (t0 - startTime < timeoutOf config)%Z ->
  executeAgentTask o now startTime observe (S fuel) config context =
  (o',
   match exec_status e with
   | ex_completed => Some (SawCompleted (resp_executionId response))
   | ex_failed => Some (SawFailed (resp_executionId response))
   | ex_blocked => Some (SawBlocked (resp_executionId response))
   | _ => poll fuel observe 1 startTime (timeoutOf config) (JStr tid)
            (resp_executionId response)
   end).
Proof.
  intros Hid Htruthy Hexec He Hfresh Hobs Htime.
  unfold executeAgentTask. rewrite Hid. cbn [truthy]. rewrite Htruthy, Hexec.
  f_equal. cbn [poll]. rewrite Hobs.
  apply Z.ltb_lt in Htime. rewrite Htime.
  assert (Hfirst : Queue.getExecutionByTaskId (Orchestrator.queue o') tid = Some e).
  { destruct (executeTask_cases o now (taskRequest config context))
      as [[err Herr]|(task & a & Ht & Hsel & Hstarted)]; [congruence|].
    rewrite Hstarted in Hexec. unfold OrchestratorMore.started in Hexec.
    injection Hexec as <- <-. cbn [Orchestrator.queue resp_executionId] in *.
    now apply startExecution_keeps_first. }
  unfold progressOf, Orchestrator.getTaskProgress. rewrite Hfirst. cbn [tp_status].
  destruct (exec_status e); reflexivity.
Qed.

Lemma agent_task_reads_first_execution_witness :
  snd (executeAgentTask Samples.rerunOrchestrator 5000 5000 WorkflowSamples.still 1
         WorkflowSamples.plainConfig WorkflowSamples.t1Context)
  = Some (SawFailed "exec_t1_5000") /\
  In "exec_t1_5000"
     (map exec_id
        (Queue.getActiveExecutions
           (Orchestrator.queue (snd (WorkflowSamples.still 0%nat))))).
Proof.
  split.
  - rewrite (agent_task_reads_first_execution Samples.rerunOrchestrator
               (snd (WorkflowSamples.still 0%nat)) 5000 5000 5000 WorkflowSamples.still 0
               WorkflowSamples.plainConfig WorkflowSamples.t1Context "t1"
               _ _ eq_refl eq_refl eq_refl eq_refl eq_refl eq_refl eq_refl).
    reflexivity.
  - vm_compute. tauto.
Defined.

Lemma has_set_keeps {V : Type} (m : jsmap V) (k k' : string) (v : V) :
  has m k' = true -> has (set m k v) k' = true.
Proof.
  unfold has. destruct (String.eqb_spec k' k) as [->|Hne].
  - now rewrite get_set_same.
  - now rewrite get_set_other.
Qed.

Lemma runLoop_results (steps : list Step) (world : nat -> World) :
  forall (fuel pass i : nat) (context : Context),
    match ending (runLoop steps world fuel pass i context) with
    | Completed results =>
        (forall k, has (stepResults context) k = true -> has results k = true) /\
        Forall (fun j => exists s, nth_error steps j = Some s /\
                                   has results (step_id (step s)) = true)
               (visited (runLoop steps world fuel pass i context))
    | _ => True
    end.
Proof.
  induction fuel as [|fuel IH]; intros pass i context; [exact I|].
  simpl. destruct (nth_error steps i) as [s|] eqn:Es.
  2:{ simpl. split; [auto|constructor]. }
  destruct (negb (active (world pass))); [exact I|].
  assert (Hgo : forall j,
            match ending (visit i (runLoop steps world fuel (S pass) j
                                     (record context s
                                        (executeStep (world pass) s context)))) with
            | Completed results =>
                (forall k, has (stepResults context) k = true -> has results k = true) /\
                Forall (fun j => exists s, nth_error steps j = Some s /\
                                           has results (step_id (step s)) = true)
                  (visited (visit i (runLoop steps world fuel (S pass) j
                                       (record context s
                                          (executeStep (world pass) s context)))))
            | _ => True
            end).
  { intros j. specialize (IH (S pass) j
                            (record context s (executeStep (world pass) s context))).
    cbn [visit ending visited].
    destruct (ending (runLoop steps world fuel (S pass) j _)) as [results| | |];
      try exact I.
    destruct IH as [Hkeys Hall]. split.
    - intros k Hk. apply Hkeys. unfold record. cbn [stepResults].
      now apply has_set_keeps.
    - constructor; [|exact Hall]. exists s. split; [exact Es|].
      apply Hkeys. unfold record. cbn [stepResults]. unfold has.
      now rewrite get_set_same. }
  destruct (transfer (map step steps) i (step s) (executeStep (world pass) s context));
    try apply Hgo. exact I.
Qed.

(** X30. In a workflow none of whose steps is called ['__proto__'], a run
    that completes hands over results with an entry for every step it
    executed, under the step's id, also for a step without output; entries
    are only ever added or overwritten, never removed. *)
Theorem completed_run_records_every_step (steps : list Step) (world : nat -> World)
  (fuel : nat) (input : list (string * jsval)) :
  Forall storable steps ->
  match ending (runWorkflow steps world fuel input) with
  | Completed results =>
      Forall (fun j => exists s, nth_error steps j = Some s /\
                                 has results (step_id (step s)) = true)
             (visited (runWorkflow steps world fuel input))
  | _ => True
  end.
Proof.
  intros _. unfold runWorkflow.
  pose proof (runLoop_results steps world fuel 0 0
                {| input := input; stepResults := [] |}) as H.
  destruct (ending (runLoop steps world fuel 0 0 _)); try exact I. apply H.
Qed.

Lemma completed_run_records_every_step_witness :
  Forall storable codeReview /\
  match ending (runWorkflow codeReview WorkflowSamples.calm 6 []) with
  | Completed results =>
      Forall (fun j => exists s, nth_error codeReview j = Some s /\
                                 has results (step_id (step s)) = true)
             (visited (runWorkflow codeReview WorkflowSamples.calm 6 []))
  | _ => True
  end.
Proof.
  assert (H : Forall storable codeReview).
  { repeat constructor; discriminate. }
  split; [exact H|].
  exact (completed_run_records_every_step codeReview WorkflowSamples.calm 6 [] H).
Defined.





End WorkflowRunFacts.
